(** * Real-time delivery subsystem of the FoodFast backend

    A shallow embedding of the request handlers and socket handlers that
    implement order status updates, the SSE registry for driver
    locations, the long-poll loop for image uploads, the support chat and
    the announcement fan-out, followed by the properties established
    about them. *)

From stdpp Require Import gmap strings list fin_maps pretty sorting.
From Stdlib Require Import ZArith QArith Lia.

Close Scope Q_scope.

Set Warnings "-register-all,-clear-no-such-hyp".

(** ** JavaScript values

    Request bodies and emitted payloads are JSON: scalars and objects.
    Numbers are the finite rationals plus [NaN]; objects keep their fields
    in insertion order, as [JSON.stringify] prints them. *)
Module JS.

Inductive number :=
  | NaN
  | Num (q : Q).

Inductive value :=
  | Undefined
  | Null
  | Bool (b : bool)
  | Number (n : number)
  | Str (s : string)
  | Arr (items : list value)
  | Obj (fields : list (string * value)).

(** [ToBoolean]: what [!v] and [v || d] test. *)
Definition truthy (v : value) : bool :=
  match v with
  | Undefined | Null => false
  | Bool b => b
  | Number NaN => false
  | Number (Num q) => negb (Qeq_bool q 0)
  | Str s => negb (String.eqb s "")
  | Arr _ | Obj _ => true
  end.

(** [a < b] on numbers; any comparison with [NaN] is false. *)
Definition lt (a b : number) : bool :=
  match a, b with
  | Num x, Num y => negb (Qle_bool y x)
  | _, _ => false
  end.

Definition int (z : Z) : value := Number (Num (inject_Z z)).

(** Property access [o.k]. *)
Fixpoint assoc (k : string) (fields : list (string * value)) : option value :=
  match fields with
  | [] => None
  | (k', v) :: rest => if String.eqb k k' then Some v else assoc k rest
  end.

Definition prop (k : string) (v : value) : option value :=
  match v with
  | Obj fields => assoc k fields
  | _ => None
  end.

Definition keys (v : value) : list string :=
  match v with
  | Obj fields => fields.*1
  | _ => []
  end.

(** Assignment [o.k = v]: an existing key keeps its place. *)
Fixpoint assoc_set (k : string) (v : value) (fields : list (string * value))
  : list (string * value) :=
  match fields with
  | [] => [(k, v)]
  | (k', v') :: rest =>
      if String.eqb k k' then (k, v) :: rest
      else (k', v') :: assoc_set k v rest
  end.

Definition set_prop (k : string) (v : value) (o : value) : value :=
  match o with
  | Obj fields => Obj (assoc_set k v fields)
  | _ => o
  end.

(** [list.includes(v)] for a list of string literals: only a string can
    be equal to one of them. *)
Definition includes (l : list string) (v : value) : bool :=
  match v with
  | Str s => bool_decide (s ∈ l)
  | _ => false
  end.

(** A [Set] keeps insertion order and holds each element once. *)
Definition set_add (h : nat) (s : list nat) : list nat :=
  if bool_decide (h ∈ s) then s else s ++ [h].

Definition set_delete (h : nat) (s : list nat) : list nat :=
  filter (λ x, x ≠ h) s.

(** An HTTP answer: [res.status(code).json(body)]. *)
Record response := { code : Z; body : value }.

Definition error_body (msg : string) : value := Obj [("error", Str msg)].

End JS.

(** ** Driver location updates over Server-Sent Events (routes/driver.js) *)
Module Driver.
Import JS.

(** A response object kept in [sseConnections], identified by number. *)
Definition handle := nat.

Record order_row := {
  id : string;
  status : string;
  customer_id : Z;
  driver_id : option Z
}.

Record location_row := {
  loc_driver : Z;
  loc_order : string;
  loc_latitude : value;
  loc_longitude : value;
  loc_timestamp : string
}.

(** The process state the handlers read and write: two tables, the
    Redis cache, the module-level [sseConnections] map and, per open
    stream, the frames written so far (oldest first). *)
Record world := {
  orders : list order_row;
  driver_locations : list location_row;
  cache : gmap string value;
  sseConnections : gmap string (list handle);
  wire : list (handle * value)
}.

Record location_request := {
  orderId : value;
  latitude : value;
  longitude : value
}.

Section Handlers.
(** Built-ins of the runtime on strings: [ToNumber], [parseFloat] and
    the conversion of [${v}] in a template literal. *)
Variable StringToNumber : string → number.
Variable parseFloatString : string → number.
Variable ToString : value → string.

Definition ToNumber (v : value) : number :=
  match v with
  | Undefined => NaN
  | Null => Num 0
  | Bool b => Num (if b then 1 else 0)
  | Number n => n
  | Str s => StringToNumber s
  | Arr _ | Obj _ => StringToNumber (ToString v)
  end.

Definition parseFloat (v : value) : number :=
  match v with
  | Number n => n
  | Str s => parseFloatString s
  | _ => parseFloatString (ToString v)
  end.

(** [SELECT ... WHERE id = $1 AND driver_id = $2 AND status IN
    ('picked_up', 'ready')], first row. *)
Definition driver_order_check (oid : string) (driverId : Z)
    (os : list order_row) : option order_row :=
  head (filter (λ o, id o = oid ∧ driver_id o = Some driverId ∧
                     (status o = "picked_up" ∨ status o = "ready")) os).

(** [INSERT ... ON CONFLICT (driver_id, order_id) DO UPDATE]. *)
Definition upsert_location (r : location_row) (ls : list location_row)
    : list location_row :=
  if bool_decide (Exists (λ l, loc_driver l = loc_driver r ∧
                               loc_order l = loc_order r) ls)
  then (λ l, if bool_decide (loc_driver l = loc_driver r ∧
                             loc_order l = loc_order r)
             then r else l) <$> ls
  else ls ++ [r].

Definition location_update_frame (lat lng ts oid : value) : value :=
  Obj [("type", Str "location_update");
       ("data", Obj [("latitude", lat); ("longitude", lng);
                     ("timestamp", ts); ("orderId", oid)])].

Definition connection_established_frame (oid : value) : value :=
  Obj [("type", Str "connection_established");
       ("data", Obj [("orderId", oid);
                     ("message", Str "Connected to driver location updates")])].

Definition heartbeat_frame (now : string) : value :=
  Obj [("type", Str "heartbeat");
       ("data", Obj [("timestamp", Str now)])].

(** [connections.forEach((res) => { try { res.write(...) } catch
    { connections.delete(res) } })]: [write_ok h] tells whether the
    write to [h] returns or throws.  The loop walks the set in
    insertion order; a handle is deleted only while it is the current
    element, so every element is visited once. *)
Definition push_step (write_ok : handle → bool) (frame : value)
    (acc : list handle * list (handle * value)) (h : handle)
    : list handle * list (handle * value) :=
  if write_ok h then (acc.1, acc.2 ++ [(h, frame)])
  else (set_delete h acc.1, acc.2).

Definition push_loop (write_ok : handle → bool) (frame : value)
    (connections : list handle)
    : list handle * list (handle * value) :=
  foldl (push_step write_ok frame) (connections, []) connections.

(** The SSE push at the end of [PUT /location].  [sseConnections.get]
    compares keys without conversion and every key stored by the stream
    route is a string, so only a string [orderId] finds a set.  The set
    found is mutated in place: its entry stays in the map, whatever is
    left in it. *)
Definition sse_push (write_ok : handle → bool) (frame : value)
    (oid : value) (w : world) : world :=
  match oid with
  | Str key =>
      match sseConnections w !! key with
      | Some connections =>
          if bool_decide (0 < length connections)%nat then
            let r := push_loop write_ok frame connections in
            {| orders := orders w;
               driver_locations := driver_locations w;
               cache := cache w;
               sseConnections := <[key := r.1]> (sseConnections w);
               wire := wire w ++ r.2 |}
          else w
      | None => w
      end
  | _ => w
  end.

(** [orderId] as a query parameter and inside [`driver_location:${orderId}`]. *)
Definition key_of (oid : value) : string :=
  match oid with Str s => s | _ => ToString oid end.

(** [PUT /api/driver/location], after authentication as a driver. *)
Definition put_location (now : string) (write_ok : handle → bool)
    (driverId : Z) (req : location_request) (w : world)
    : response * world :=
  if negb (truthy (orderId req)) || negb (truthy (latitude req))
     || negb (truthy (longitude req))
  then ({| code := 400;
           body := error_body "Order ID, latitude, and longitude are required" |}, w)
  else if lt (ToNumber (latitude req)) (Num (inject_Z (-90)))
          || lt (Num (inject_Z 90)) (ToNumber (latitude req))
          || lt (ToNumber (longitude req)) (Num (inject_Z (-180)))
          || lt (Num (inject_Z 180)) (ToNumber (longitude req))
  then ({| code := 400; body := error_body "Invalid coordinates" |}, w)
  else
    match driver_order_check (key_of (orderId req)) driverId (orders w) with
    | None =>
        ({| code := 403;
            body := error_body
              "Order not found or not assigned to you, or not in delivery phase" |}, w)
    | Some order =>
        let row := {| loc_driver := driverId;
                      loc_order := key_of (orderId req);
                      loc_latitude := latitude req;
                      loc_longitude := longitude req;
                      loc_timestamp := now |} in
        let lat := Number (parseFloat (latitude req)) in
        let lng := Number (parseFloat (longitude req)) in
        let locationData :=
          Obj [("driverId", int driverId); ("orderId", orderId req);
               ("latitude", lat); ("longitude", lng);
               ("timestamp", Str now);
               ("customerId", int (customer_id order))] in
        let w1 := {| orders := orders w;
                     driver_locations := upsert_location row (driver_locations w);
                     cache := <[("driver_location:" +:+ key_of (orderId req))
                                := locationData]> (cache w);
                     sseConnections := sseConnections w;
                     wire := wire w |} in
        let w2 := sse_push write_ok
                    (location_update_frame lat lng (Str now) (orderId req))
                    (orderId req) w1 in
        ({| code := 200;
            body := Obj [("message", Str "Location updated successfully");
                         ("timestamp", Str now)] |}, w2)
    end.

(** [req.on('close', ...)] of the stream route. *)
Definition on_close (oid : string) (res : handle)
    (reg : gmap string (list handle)) : gmap string (list handle) :=
  match reg !! oid with
  | Some connections =>
      let connections' := set_delete res connections in
      if bool_decide (length connections' = 0%nat)
      then delete oid reg
      else <[oid := connections']> reg
  | None => reg
  end.

(** One tick of the 30 s heartbeat timer of the stream [res]. *)
Definition heartbeat_tick (now : string) (write_ok : handle → bool)
    (oid : string) (res : handle) (w : world) : world :=
  if write_ok res then
    {| orders := orders w; driver_locations := driver_locations w;
       cache := cache w; sseConnections := sseConnections w;
       wire := wire w ++ [(res, heartbeat_frame now)] |}
  else
    match sseConnections w !! oid with
    | Some connections =>
        {| orders := orders w; driver_locations := driver_locations w;
           cache := cache w;
           sseConnections := <[oid := set_delete res connections]> (sseConnections w);
           wire := wire w |}
    | None => w
    end.

(** [SELECT ... WHERE id = $1 AND customer_id = $2 AND status IN
    ('picked_up', 'ready') AND driver_id IS NOT NULL], first row. *)
Definition customer_order_check (oid : string) (customerId : Z)
    (os : list order_row) : option order_row :=
  head (filter (λ o, id o = oid ∧ customer_id o = customerId ∧
                     (status o = "picked_up" ∨ status o = "ready") ∧
                     is_Some (driver_id o)) os).

(** [GET /api/driver/location/:orderId/stream], after authentication
    as a customer; [None] is the 403 answer. *)
Definition open_stream (oid : string) (customerId : Z) (res : handle)
    (w : world) : option world :=
  match customer_order_check oid customerId (orders w) with
  | None => None
  | Some _ =>
      let hello := [(res, connection_established_frame (Str oid))] in
      let current :=
        match cache w !! ("driver_location:" +:+ oid) with
        | Some loc =>
            if truthy loc then
              [(res, location_update_frame
                       (default Undefined (prop "latitude" loc))
                       (default Undefined (prop "longitude" loc))
                       (default Undefined (prop "timestamp" loc))
                       (Str oid))]
            else []
        | None => []
        end in
      Some {| orders := orders w; driver_locations := driver_locations w;
              cache := cache w;
              sseConnections :=
                <[oid := set_add res (default [] (sseConnections w !! oid))]>
                  (sseConnections w);
              wire := wire w ++ hello ++ current |}
  end.

End Handlers.

(** The frame shape as the specification words it: a string [type], an
    object [data] and a string [timestamp], all three at the top level;
    a heartbeat has empty [data]. *)
Definition spec_frame_shape (f : value) : Prop :=
  (∃ t, prop "type" f = Some (Str t)) ∧
  (∃ d, prop "data" f = Some (Obj d)) ∧
  (∃ ts, prop "timestamp" f = Some (Str ts)).

Definition spec_heartbeat_shape (f : value) : Prop :=
  prop "type" f = Some (Str "heartbeat") ∧ prop "data" f = Some (Obj []).

(** The shape the stream route writes: [type] and [data], nothing else. *)
Definition stream_frame_shape (f : value) : Prop :=
  keys f = ["type"; "data"] ∧
  (∃ t, prop "type" f = Some (Str t)) ∧
  (∃ d, prop "data" f = Some (Obj d)).

(** A coordinate that is the number zero. *)
Definition is_zero (v : value) : bool :=
  match v with
  | Number (Num q) => Qeq_bool q 0
  | _ => false
  end.

(** No key of the registry maps to an empty set. *)
Definition no_empty_entry (reg : gmap string (list handle)) : Prop :=
  ∀ oid, reg !! oid ≠ Some [].

End Driver.

(** ** Order status updates (routes/orders.js and the restaurant socket
    handler)

    Row ids are kept in their decimal text, the form in which the route
    parameter and the cache key carry them. *)
Module Orders.
Import JS.

Record order_row := {
  id : string;
  customer_id : Z;
  restaurant_id : Z;
  driver_id : option Z;
  status : string
}.

Record restaurant_row := { rest_id : Z; rest_user : Z }.

Record world := {
  orders : list order_row;
  restaurants : list restaurant_row;
  cache : gmap string value
}.

Record status_request := {
  orderId : string;
  new_status : value;
  userId : Z;
  userType : string
}.

Definition with_status (s : string) (o : order_row) : order_row :=
  {| id := id o; customer_id := customer_id o;
     restaurant_id := restaurant_id o; driver_id := driver_id o;
     status := s |}.

Definition with_status_driver (s : string) (d : Z) (o : order_row) : order_row :=
  {| id := id o; customer_id := customer_id o;
     restaurant_id := restaurant_id o; driver_id := Some d;
     status := s |}.

(** The [WHERE] clause of the restaurant update: the order's restaurant
    belongs to the user. *)
Definition restaurant_match (rs : list restaurant_row) (oid : string)
    (user : Z) (o : order_row) : bool :=
  bool_decide (id o = oid) &&
  bool_decide (Exists (λ r, rest_id r = restaurant_id o ∧ rest_user r = user) rs).

(** The [WHERE] clause of the driver update: no driver yet, or this
    one. *)
Definition driver_match (oid : string) (user : Z) (o : order_row) : bool :=
  bool_decide (id o = oid) &&
  bool_decide (driver_id o = None ∨ driver_id o = Some user).

(** [UPDATE orders SET ... WHERE ... RETURNING ...]: the table after the
    statement and the rows it returned. *)
Definition sql_update (matches : order_row → bool) (set : order_row → order_row)
    (os : list order_row) : list order_row * list order_row :=
  ((λ o, if matches o then set o else o) <$> os,
   set <$> filter (λ o, matches o = true) os).

Definition validStatuses : list string :=
  ["confirmed"; "preparing"; "ready"; "picked_up"; "delivered"; "cancelled"].

Definition status_text (v : value) : string :=
  match v with Str s => s | _ => "" end.

(** The cache refresh after a successful update. *)
Definition refresh_cache (now : string) (oid : string) (s : string)
    (c : gmap string value) : gmap string value :=
  match c !! ("order_status:" +:+ oid) with
  | Some cachedStatus =>
      if truthy cachedStatus then
        <[("order_status:" +:+ oid) :=
            set_prop "lastUpdated" (Str now)
              (set_prop "status" (Str s) cachedStatus)]> c
      else c
  | None => c
  end.

(** [PUT /api/orders/:orderId/status], after authentication. *)
Definition put_status (now : string) (req : status_request) (w : world)
    : response * world :=
  if negb (includes validStatuses (new_status req)) then
    ({| code := 400;
        body := Obj [("error", Str "Invalid status");
                     ("validStatuses", Arr (Str <$> validStatuses))] |}, w)
  else
    let s := status_text (new_status req) in
    let update :=
      if String.eqb (userType req) "restaurant" then
        if negb (includes ["preparing"; "ready"] (new_status req)) then
          inl {| code := 400;
                 body := error_body
                   "Restaurants can only set status to preparing or ready" |}
        else
          inr (sql_update
                 (restaurant_match (restaurants w) (orderId req) (userId req))
                 (with_status s) (orders w))
      else if String.eqb (userType req) "driver" then
        if negb (includes ["picked_up"; "delivered"] (new_status req)) then
          inl {| code := 400;
                 body := error_body
                   "Drivers can only set status to picked_up or delivered" |}
        else
          inr (sql_update
                 (driver_match (orderId req) (userId req))
                 (with_status_driver s (userId req)) (orders w))
      else
        inl {| code := 403;
               body := error_body
                 "Only restaurants and drivers can update order status" |} in
    match update with
    | inl refusal => (refusal, w)
    | inr (orders', rows) =>
        match rows with
        | [] =>
            ({| code := 404;
                body := error_body "Order not found or access denied" |},
             {| orders := orders'; restaurants := restaurants w;
                cache := cache w |})
        | updatedOrder :: _ =>
            ({| code := 200;
                body := Obj [("message", Str "Order status updated successfully");
                             ("orderId", Str (id updatedOrder));
                             ("status", Str (status updatedOrder));
                             ("updatedAt", Str now)] |},
             {| orders := orders'; restaurants := restaurants w;
                cache := refresh_cache now (orderId req)
                           (status updatedOrder) (cache w) |})
        end
    end.

(** *** The socket path: [update-order-status] of the restaurant handler *)

(** What the handler remembers on the socket after [join-restaurant]. *)
Record socket_data := {
  restaurantId : option string;
  socket_userId : option Z
}.

Inductive target :=
  | ToSocket
  | ToRoom (room : string).

Record emit := { dest : target; event : string; payload : value }.

Definition getStatusMessage (s : string) : string :=
  if String.eqb s "confirmed" then
    "Your order has been confirmed and sent to the restaurant."
  else if String.eqb s "preparing" then
    "The restaurant is preparing your order."
  else if String.eqb s "ready" then
    "Your order is ready for pickup! A driver will collect it soon."
  else if String.eqb s "picked_up" then
    "Your order has been picked up and is on the way!"
  else if String.eqb s "delivered" then
    "Your order has been delivered. Enjoy your meal!"
  else if String.eqb s "cancelled" then
    "Your order has been cancelled. You will be refunded."
  else "Order status updated.".

Definition socket_ready (sd : socket_data) : option (string * Z) :=
  match restaurantId sd, socket_userId sd with
  | Some r, Some u =>
      if negb (String.eqb r "") && negb (u =? 0)%Z then Some (r, u) else None
  | _, _ => None
  end.

Definition socket_update_status (now : string)
    (sd : socket_data) (oid : string) (status_v estimatedTime : value)
    (w : world) : list emit * world :=
  match socket_ready sd with
  | None =>
      ([{| dest := ToSocket; event := "error";
           payload := Obj [("message",
                            Str "Not authenticated or not in restaurant room")] |}],
       w)
  | Some (rid, uid) =>
      if negb (includes ["preparing"; "ready"; "cancelled"] status_v) then
        ([{| dest := ToSocket; event := "error";
             payload := Obj [("message", Str "Invalid status");
                             ("validStatuses",
                              Arr (Str <$> ["preparing"; "ready"; "cancelled"]))] |}],
         w)
      else
        let s := status_text status_v in
        let '(orders', rows) :=
          sql_update (restaurant_match (restaurants w) oid uid)
                     (with_status s) (orders w) in
        match rows with
        | [] =>
            ([{| dest := ToSocket; event := "error";
                 payload := Obj [("message",
                                  Str "Order not found or access denied")] |}],
             {| orders := orders'; restaurants := restaurants w;
                cache := cache w |})
        | order :: _ =>
            ([{| dest := ToRoom ("restaurant-" +:+ rid);
                 event := "order-status-updated";
                 payload := Obj [("orderId", Str (id order));
                                 ("status", Str (status order));
                                 ("updatedBy", int uid);
                                 ("timestamp", Str now);
                                 ("estimatedTime", estimatedTime)] |};
              {| dest := ToRoom ("customer-" +:+ pretty (customer_id order));
                 event := "order-status-update";
                 payload := Obj [("orderId", Str (id order));
                                 ("status", Str (status order));
                                 ("message", Str (getStatusMessage (status order)));
                                 ("estimatedTime", estimatedTime);
                                 ("timestamp", Str now)] |};
              {| dest := ToSocket; event := "status-update-confirmed";
                 payload := Obj [("orderId", Str oid);
                                 ("status", status_v);
                                 ("message",
                                  Str "Order status updated successfully")] |}],
             {| orders := orders'; restaurants := restaurants w;
                cache := cache w |})
        end
  end.

(** The order state machine as the specification words it: the chain
    confirmed, preparing, ready, picked_up, delivered, with preparing and
    ready set by the restaurant, picked_up and delivered by the driver,
    and cancelled set by the restaurant from a state that is neither
    terminal nor picked_up. *)
Definition spec_valid_transition (role from to : string) : bool :=
  if String.eqb role "restaurant" then
    (String.eqb from "confirmed" && String.eqb to "preparing")
    || (String.eqb from "preparing" && String.eqb to "ready")
    || (String.eqb to "cancelled" &&
        (String.eqb from "confirmed" || String.eqb from "preparing"
         || String.eqb from "ready"))
  else if String.eqb role "driver" then
    (String.eqb from "ready" && String.eqb to "picked_up")
    || (String.eqb from "picked_up" && String.eqb to "delivered")
  else false.

Definition status_of (oid : string) (os : list order_row) : option string :=
  status <$> head (filter (λ o, id o = oid) os).

(** The statuses a role may set through the route, whatever the order's
    current status. *)
Definition may_set (role : string) (s : value) : bool :=
  (String.eqb role "restaurant" && includes ["preparing"; "ready"] s)
  || (negb (String.eqb role "restaurant") && String.eqb role "driver"
      && includes ["picked_up"; "delivered"] s).

(** The rows of the caller that the update of the route reaches. *)
Definition row_matches (rs : list restaurant_row) (req : status_request)
    (o : order_row) : bool :=
  if String.eqb (userType req) "restaurant"
  then restaurant_match rs (orderId req) (userId req) o
  else driver_match (orderId req) (userId req) o.

Definition row_set (req : status_request) (o : order_row) : order_row :=
  if String.eqb (userType req) "restaurant"
  then with_status (status_text (new_status req)) o
  else with_status_driver (status_text (new_status req)) (userId req) o.

(** The socket handler answered with a single [error] event. *)
Definition refused (es : list emit) : Prop :=
  ∃ p, es = [{| dest := ToSocket; event := "error"; payload := p |}].

End Orders.

(** ** The socket server

    The part of socket.io the handlers use: rooms are sets of socket ids,
    [io.to(room).emit] reaches every member of the room, [socket.to(room)]
    every member but the calling socket, [socket.emit] the calling socket
    alone.  What each socket was sent is kept in arrival order. *)
Module SocketIO.

Section Server.
Context {P : Type}.

Record io := {
  rooms : gmap string (list nat);
  outbox : list (nat * (string * P))
}.

Definition members (room : string) (s : io) : list nat :=
  default [] (rooms s !! room).

Definition join (sid : nat) (room : string) (s : io) : io :=
  {| rooms := <[room := JS.set_add sid (members room s)]> (rooms s);
     outbox := outbox s |}.

Definition leave (sid : nat) (room : string) (s : io) : io :=
  match rooms s !! room with
  | Some ms =>
      let ms' := JS.set_delete sid ms in
      {| rooms := if bool_decide (length ms' = 0%nat)
                  then delete room (rooms s)
                  else <[room := ms']> (rooms s);
         outbox := outbox s |}
  | None => s
  end.

Definition socket_emit (sid : nat) (event : string) (p : P) (s : io) : io :=
  {| rooms := rooms s; outbox := outbox s ++ [(sid, (event, p))] |}.

Definition io_to_emit (room : string) (event : string) (p : P) (s : io) : io :=
  {| rooms := rooms s;
     outbox := outbox s ++ ((λ m, (m, (event, p))) <$> members room s) |}.

Definition socket_to_emit (sid : nat) (room : string) (event : string) (p : P)
    (s : io) : io :=
  {| rooms := rooms s;
     outbox := outbox s ++
               ((λ m, (m, (event, p))) <$> JS.set_delete sid (members room s)) |}.

(** What socket [sid] was sent under the name [event]. *)
Definition received (sid : nat) (event : string) (s : io) : list P :=
  omap (λ e, if bool_decide (e.1 = sid ∧ e.2.1 = event) then Some e.2.2 else None)
       (outbox s).

End Server.

Arguments io : clear implicits.

End SocketIO.

(** ** Announcements: publication (routes/announcements.js) and delivery
    (sockets/announcementHandler.js) *)
Module Announcements.
Import JS SocketIO.

Record announcement_row := {
  id : Z;
  title : string;
  message : string;
  announcement_type : string;
  target_audience : string;
  expires_at : value
}.

Definition getPriorityLevel (type : string) : string :=
  if String.eqb type "urgent" then "high"
  else if String.eqb type "maintenance" then "medium"
  else "low".

Definition announcementData (now : string) (a : announcement_row) : value :=
  Obj [("id", int (id a));
       ("title", Str (title a));
       ("message", Str (message a));
       ("type", Str (announcement_type a));
       ("targetAudience", Str (target_audience a));
       ("priority", Str (getPriorityLevel (announcement_type a)));
       ("timestamp", Str now);
       ("expiresAt", expires_at a)].

(** [broadcastAnnouncement]: the [publish] calls it makes, in order, as
    (channel, message) pairs. *)
Definition broadcastAnnouncement (now : string) (a : announcement_row)
    : list (string * value) :=
  let data := announcementData now a in
  if String.eqb (target_audience a) "all" then
    [("announcements-all", data);
     ("announcements-customers", data);
     ("announcements-restaurants", data);
     ("announcements-drivers", data)]
  else
    [("announcements-" +:+ target_audience a, data)].

Definition getDisplayDuration (type : value) : Z :=
  match type with
  | Str "urgent" => 30000
  | Str "maintenance" => 20000
  | Str "promotion" => 15000
  | _ => 10000
  end.

Definition shouldShowNotification (type : value) : bool :=
  includes ["urgent"; "maintenance"] type.

Definition field (k : string) (v : value) : value :=
  default Undefined (prop k v).

Definition new_announcement (data : value) : value :=
  Obj [("id", field "id" data);
       ("title", field "title" data);
       ("message", field "message" data);
       ("type", field "type" data);
       ("priority", field "priority" data);
       ("timestamp", field "timestamp" data);
       ("expiresAt", field "expiresAt" data);
       ("displayDuration", int (getDisplayDuration (field "type" data)));
       ("showNotification", Bool (shouldShowNotification (field "type" data)));
       ("playSound", Bool (match field "type" data with
                            | Str "urgent" => true | _ => false end))].

(** [initializeAnnouncementSubscribers]: the channels a process
    subscribes to at start-up. *)
Definition subscribed_userTypes : list string :=
  ["all"; "customers"; "restaurants"; "drivers"].

(** The callback registered for [userType]: it emits to the room named
    like its channel. *)
Definition subscriber_callback (userType : string) (data : value)
    (s : io value) : io value :=
  io_to_emit ("announcements-" +:+ userType) "new-announcement"
             (new_announcement data) s.

(** One message arriving from the broker on [channel] at a process: each
    callback subscribed to that channel runs once. *)
Definition on_message (channel : string) (data : value) (s : io value)
    : io value :=
  foldl (λ s userType,
           if String.eqb channel ("announcements-" +:+ userType)
           then subscriber_callback userType data s else s)
        s subscribed_userTypes.

(** A sequence of [publish] calls as one process sees it. *)
Definition deliver (msgs : list (string * value)) (s : io value) : io value :=
  foldl (λ s m, on_message m.1 m.2 s) s msgs.

(** *** [subscribe-announcements] *)

Definition validUserTypes : list string :=
  ["customer"; "restaurant"; "driver"; "support"].

Record socket_data := {
  socket_userType : option string;
  socket_userId : option Z
}.

Definition message_body (msg : string) : value := Obj [("message", Str msg)].

(** [verified] is the user id [verifyTokenAndGetUserId] found in the
    token, if any. *)
Definition subscribe_announcements (sid : nat) (userType token : value)
    (verified : option Z) (sd : socket_data) (s : io value)
    : socket_data * io value :=
  if negb (truthy token) then
    (sd, socket_emit sid "error" (message_body "Authentication token required") s)
  else
    match verified with
    | None =>
        (sd, socket_emit sid "error" (message_body "Invalid authentication token") s)
    | Some uid =>
        if (uid =? 0)%Z then
          (sd, socket_emit sid "error"
                 (message_body "Invalid authentication token") s)
        else if negb (includes validUserTypes userType) then
          (sd, socket_emit sid "error"
                 (Obj [("message", Str "Invalid user type");
                       ("validTypes", Arr (Str <$> validUserTypes))]) s)
        else
          let ut := match userType with Str u => u | _ => "" end in
          let roomName := "announcements-" +:+ ut in
          let s1 := join sid roomName s in
          let s2 := join sid "announcements-all" s1 in
          ({| socket_userType := Some ut; socket_userId := Some uid |},
           socket_emit sid "subscribed-announcements"
             (Obj [("userType", userType);
                   ("rooms", Arr [Str roomName; Str "announcements-all"]);
                   ("message", Str "Subscribed to announcements successfully")])
             s2)
    end.

Definition unsubscribe_announcements (sid : nat) (sd : socket_data)
    (s : io value) : io value :=
  match socket_userType sd with
  | Some ut =>
      if negb (String.eqb ut "") then
        socket_emit sid "unsubscribed-announcements"
          (message_body "Unsubscribed from announcements")
          (leave sid "announcements-all" (leave sid ("announcements-" +:+ ut) s))
      else s
  | None => s
  end.

(** *** One server process and its sockets *)

Inductive event :=
  | Subscribe (sid : nat) (userType token : value) (verified : option Z)
  | Unsubscribe (sid : nat).

Record process := {
  server : io value;
  sockets : gmap nat socket_data
}.

Definition fresh_socket : socket_data :=
  {| socket_userType := None; socket_userId := None |}.

Definition step (p : process) (e : event) : process :=
  match e with
  | Subscribe sid userType token verified =>
      let r := subscribe_announcements sid userType token verified
                 (default fresh_socket (sockets p !! sid)) (server p) in
      {| server := r.2; sockets := <[sid := r.1]> (sockets p) |}
  | Unsubscribe sid =>
      {| server := unsubscribe_announcements sid
                     (default fresh_socket (sockets p !! sid)) (server p);
         sockets := sockets p |}
  end.

Definition start : process :=
  {| server := {| rooms := ∅; outbox := [] |}; sockets := ∅ |}.

Definition run (evs : list event) : process := foldl step start evs.

(** The rooms the subscriber callbacks of the three audience tiers emit
    to. *)
Definition tier_rooms : list string :=
  ["announcements-customers"; "announcements-restaurants";
   "announcements-drivers"].

(** What holds of a process after any sequence of subscribe and
    unsubscribe events: no socket is in a tier room, every user type
    remembered on a socket is one of the four the handler accepts, and a
    room holds a socket once. *)
Definition tiers_empty (p : process) : Prop :=
  (∀ room, room ∈ tier_rooms → rooms (server p) !! room = None) ∧
  (∀ sid sd ut, sockets p !! sid = Some sd → socket_userType sd = Some ut →
                ut ∈ validUserTypes) ∧
  (∀ room ms, rooms (server p) !! room = Some ms → NoDup ms).

(** The payload is that of the announcement [aid]. *)
Definition has_id (aid : Z) (p : value) : bool :=
  match prop "id" p with
  | Some (Number (Num q)) => Qeq_bool q (inject_Z aid)
  | _ => false
  end.

(** How many times socket [sid] was sent the announcement [aid]. *)
Definition copies (aid : Z) (sid : nat) (s : io value) : nat :=
  length (filter (λ p, has_id aid p = true)
                 (received sid "new-announcement" s)).

End Announcements.

(** ** Support chat (the chat socket handler) *)
Module Chat.
Import JS SocketIO.

(** The text of a chat message, as its UTF-16 code units: [length] counts
    them and [trim] works on them. *)
Definition text := list N.

(** The code units [String.prototype.trim] strips: white space and line
    terminators. *)
Definition is_whitespace (c : N) : bool :=
  bool_decide (c ∈ [9; 10; 11; 12; 13; 32; 160; 5760; 8232; 8233; 8239;
                    8287; 12288; 65279]%N)
  || ((8192 <=? c)%N && (c <=? 8202)%N).

Fixpoint trim_start (s : text) : text :=
  match s with
  | [] => []
  | c :: rest => if is_whitespace c then trim_start rest else s
  end.

Definition trim_end (s : text) : text := reverse (trim_start (reverse s)).

Definition trim (s : text) : text := trim_end (trim_start s).

(** [data.message]: a string, or a value of another type, of which only
    its truthiness matters. *)
Inductive body_message :=
  | Text (t : text)
  | Other (is_truthy : bool).

Record message_data := {
  md_id : Z;
  md_chatId : string;
  senderId : Z;
  senderName : option string;
  senderType : option string;
  md_message : text;
  md_messageType : option string;
  createdAt : string;
  md_timestamp : string
}.

Inductive payload :=
  | Error (message : string)
  | NewMessage (m : message_data)
  | MessageSent (tempId : value) (messageId : Z) (timestamp : string)
  | JoinedChat (chatId room userType userName chatStatus : string)
  | UserJoinedChat (userId : Z) (userName userType timestamp : string).

Record user_row := {
  user_id : Z;
  user_type : string;
  first_name : string;
  last_name : string
}.

Record chat_row := {
  chat_id : string;
  chat_customer : Z;
  chat_agent : option Z;
  chat_status : string;
  chat_updated_at : string
}.

Record message_row := {
  msg_id : Z;
  msg_chat : string;
  msg_sender : Z;
  msg_text : text;
  msg_type : option string;
  msg_created_at : string
}.

Record world := {
  users : list user_row;
  support_chats : list chat_row;
  chat_messages : list message_row;
  next_message_id : Z;
  db_up : bool;
  server : io payload
}.

Record socket_data := {
  socket_userId : option Z;
  socket_userType : option string;
  socket_userName : option string;
  socket_chatId : option string
}.

Definition with_server (s : io payload) (w : world) : world :=
  {| users := users w; support_chats := support_chats w;
     chat_messages := chat_messages w; next_message_id := next_message_id w;
     db_up := db_up w; server := s |}.

Definition truthy_id (o : option Z) : bool :=
  match o with Some z => negb (z =? 0)%Z | None => false end.

Definition truthy_text (o : option string) : bool :=
  match o with Some s => negb (String.eqb s "") | None => false end.

(** [join-support-chat]; [verified] is the user id found in the token. *)
Definition join_support_chat (now : string) (sid : nat) (chatId : string)
    (token : value) (verified : option Z) (sd : socket_data) (w : world)
    : socket_data * world :=
  let fail msg := (sd, with_server (socket_emit sid "error" (Error msg) (server w)) w) in
  if negb (truthy token) then fail "Authentication token required"
  else if negb (truthy_id verified) then fail "Invalid authentication token"
  else if negb (db_up w) then fail "Failed to join chat"
  else
    let userId := default 0%Z verified in
    match head (filter (λ u, user_id u = userId) (users w)) with
    | None => fail "User not found"
    | Some user =>
        let chatCheck :=
          if String.eqb (user_type user) "customer" then
            Some (filter (λ c, chat_id c = chatId ∧ chat_customer c = userId)
                         (support_chats w))
          else if String.eqb (user_type user) "support" then
            Some (filter (λ c, chat_id c = chatId ∧
                               (chat_agent c = Some userId ∨ chat_agent c = None))
                         (support_chats w))
          else None in
        match chatCheck with
        | None => fail "Access denied"
        | Some [] => fail "Chat not found or access denied"
        | Some (chat :: _) =>
            let roomName := "chat-" +:+ chatId in
            let userName := first_name user +:+ " " +:+ last_name user in
            let s1 := join sid roomName (server w) in
            let s2 := socket_emit sid "joined-chat"
                        (JoinedChat chatId roomName (user_type user) userName
                                    (chat_status chat)) s1 in
            let s3 := socket_to_emit sid roomName "user-joined-chat"
                        (UserJoinedChat userId userName (user_type user) now) s2 in
            ({| socket_userId := Some userId;
                socket_userType := Some (user_type user);
                socket_userName := Some userName;
                socket_chatId := Some chatId |},
             with_server s3 w)
        end
    end.

(** What the store keeps of a text.  A query parameter travels as UTF-8,
    which has no encoding for a surrogate code unit outside a pair: the
    encoder writes U+FFFD in its place. *)
Definition is_high_surrogate (c : N) : bool := (55296 <=? c)%N && (c <=? 56319)%N.

Definition is_low_surrogate (c : N) : bool := (56320 <=? c)%N && (c <=? 57343)%N.

Fixpoint toWellFormed (s : text) : text :=
  match s with
  | [] => []
  | c :: rest =>
      if is_high_surrogate c then
        match rest with
        | d :: rest' =>
            if is_low_surrogate d then c :: d :: toWellFormed rest'
            else 65533%N :: toWellFormed rest
        | [] => [65533%N]
        end
      else if is_low_surrogate c then 65533%N :: toWellFormed rest
      else c :: toWellFormed rest
  end.

(** The value of the [message_type] column for a parameter: one of the
    three types of the column's [CHECK], or [NULL], which the [CHECK]
    lets pass; any other value fails it. *)
Definition column_type (type : value) : option (option string) :=
  match type with
  | Str ty => if bool_decide (ty ∈ ["text"; "image"; "file"]) then Some (Some ty)
              else None
  | Null => Some None
  | _ => None
  end.

(** [INSERT INTO chat_messages ... RETURNING id, created_at].  The query
    raises an error when the database is down, when the chat is gone,
    when the type fails the column check, and when the text holds
    U+0000, which a [TEXT] column refuses. *)
Definition insert_message (now : string) (chat : string) (sender : Z)
    (t : text) (type : value) (w : world) : option (message_row * world) :=
  match column_type type with
  | Some ty =>
      if db_up w
         && negb (bool_decide (0%N ∈ t))
         && bool_decide (Exists (λ c, chat_id c = chat) (support_chats w))
      then
        let row := {| msg_id := next_message_id w; msg_chat := chat;
                      msg_sender := sender; msg_text := toWellFormed t;
                      msg_type := ty; msg_created_at := now |} in
        Some (row,
              {| users := users w; support_chats := support_chats w;
                 chat_messages := chat_messages w ++ [row];
                 next_message_id := (next_message_id w + 1)%Z;
                 db_up := db_up w; server := server w |})
      else None
  | None => None
  end.

(** [UPDATE support_chats SET updated_at = CURRENT_TIMESTAMP WHERE id = $1]. *)
Definition touch_chat (now : string) (chat : string) (w : world) : world :=
  {| users := users w;
     support_chats :=
       (λ c, if bool_decide (chat_id c = chat)
             then {| chat_id := chat_id c; chat_customer := chat_customer c;
                     chat_agent := chat_agent c; chat_status := chat_status c;
                     chat_updated_at := now |}
             else c) <$> support_chats w;
     chat_messages := chat_messages w; next_message_id := next_message_id w;
     db_up := db_up w; server := server w |}.

Record message_request := {
  message : body_message;
  messageType : value;
  tempId : value
}.

(** [send-message]. *)
Definition send_message (now : string) (sid : nat) (sd : socket_data)
    (data : message_request) (w : world) : world :=
  let fail msg := with_server (socket_emit sid "error" (Error msg) (server w)) w in
  let type := match messageType data with
              | Undefined => Str "text"
              | v => v
              end in
  if negb (truthy_text (socket_chatId sd)) || negb (truthy_id (socket_userId sd))
  then fail "Not connected to any chat"
  else
    let chatId := default "" (socket_chatId sd) in
    let userId := default 0%Z (socket_userId sd) in
    match message data with
    | Other is_truthy =>
        (* [message.trim] is not a function: the handler's [catch] runs *)
        if negb is_truthy then fail "Message cannot be empty"
        else fail "Failed to send message"
    | Text t =>
        if bool_decide (length t = 0%nat) || bool_decide (length (trim t) = 0%nat)
        then fail "Message cannot be empty"
        else if bool_decide (1000 < length t)%nat
        then fail "Message too long (max 1000 characters)"
        else
          match insert_message now chatId userId (trim t) type w with
          | None => fail "Failed to send message"
          | Some (newMessage, w1) =>
              let w2 := touch_chat now chatId w1 in
              let messageData :=
                {| md_id := msg_id newMessage; md_chatId := chatId;
                   senderId := userId; senderName := socket_userName sd;
                   senderType := socket_userType sd;
                   md_message := trim t;
                   md_messageType := msg_type newMessage;
                   createdAt := msg_created_at newMessage;
                   md_timestamp := now |} in
              let s1 := io_to_emit ("chat-" +:+ chatId) "new-message"
                          (NewMessage messageData) (server w2) in
              let s2 := socket_emit sid "message-sent"
                          (MessageSent (tempId data) (msg_id newMessage) now) s1 in
              with_server s2 w2
          end
    end.

(** What one run of a handler appended to the outbox and to the message
    table. *)
Definition new_emits (w w' : world) : list (nat * (string * payload)) :=
  drop (length (outbox (server w))) (outbox (server w')).

Definition stored_texts (w w' : world) : list text :=
  msg_text <$> drop (length (chat_messages w)) (chat_messages w').

Definition broadcast_texts (out : list (nat * (string * payload))) : list text :=
  omap (λ e, match e.2.2 with
             | NewMessage m => Some (md_message m)
             | _ => None
             end) out.

(** The sockets that were sent an event named [event], among the entries
    [out] of an outbox, in order. *)
Definition recipients (event : string) (out : list (nat * (string * payload)))
    : list nat :=
  omap (λ e, if bool_decide (e.2.1 = event) then Some e.1 else None) out.

(** The inputs the handler turns down for their text: not a string,
    nothing left after trimming, or more than 1000 code units. *)
Definition rejected_input (m : body_message) : bool :=
  match m with
  | Text t => bool_decide (length (trim t) = 0%nat)
              || bool_decide (1000 < length t)%nat
  | Other _ => true
  end.

(** A text of white space only; the empty text is one. *)
Definition whitespace_only (t : text) : bool := forallb is_whitespace t.

(** [stripped t t'] : [t'] is [t] without the white space at its two
    ends: what stands before and after [t'] in [t] is white space, and
    [t'] neither begins nor ends with white space. *)
Definition stripped (t t' : text) : Prop :=
  ∃ pre post,
    t = pre ++ t' ++ post ∧
    Forall (λ c, is_whitespace c = true) pre ∧
    Forall (λ c, is_whitespace c = true) post ∧
    (∀ c, head t' = Some c → is_whitespace c = false) ∧
    (∀ c, last t' = Some c → is_whitespace c = false).

(** A text that UTF-8 holds as it is: no surrogate code unit. *)
Definition no_surrogate (t : text) : Prop :=
  Forall (λ c, is_high_surrogate c = false ∧ is_low_surrogate c = false) t.

(** What [send-message] broadcasts of an input: the stripped text, of 1
    to 1000 code units, none of them U+0000. *)
Definition broadcast_of (m : body_message) (b : text) : Prop :=
  ∃ t, m = Text t ∧ stripped t b ∧ (1 ≤ length b ≤ 1000)%nat ∧ 0%N ∉ b.

(** What it stores: the same text as UTF-8 holds it. *)
Definition stored_of (m : body_message) (s : text) : Prop :=
  ∃ b, broadcast_of m b ∧ s = toWellFormed b ∧ length s = length b ∧
       (no_surrogate b → s = b).

(** The inputs that are refused: not a string, white space only, more
    than 1000 code units, or holding U+0000. *)
Definition refused_input (m : body_message) : Prop :=
  match m with
  | Text t => whitespace_only t = true ∨ (1000 < length t)%nat ∨ 0%N ∈ t
  | Other _ => True
  end.

End Chat.

(** ** Long polling of an image upload (routes/images.js)

    Time is a clock in milliseconds that the handler reads with
    [Date.now()].  A query issued at time [t] sees the row as the store
    holds it at [t] and returns [latency t] milliseconds later; the timer
    of the loop adds [pollInterval]. *)
Module Images.
Import JS.

Record upload_row := {
  status : string;
  progress : Z;
  error_message : value;
  updated_at : string
}.

Definition maxTimeout : Z := 60000.
Definition pollInterval : Z := 1000.

(** [parseInt(req.query.timeout) || 30000], from what [parseInt] gave
    ([None] for [NaN]). *)
Definition requested_timeout (parsed : option Z) : Z :=
  match parsed with
  | Some n => if (n =? 0)%Z then 30000 else n
  | None => 30000
  end.

Definition pollTimeout (parsed : option Z) : Z :=
  Z.min (requested_timeout parsed) maxTimeout.

Definition terminal (s : string) : bool :=
  bool_decide (s ∈ ["completed"; "failed"]).

Definition status_fields (uploadId : string) (r : upload_row)
    : list (string * value) :=
  [("uploadId", Str uploadId);
   ("status", Str (status r));
   ("progress", int (progress r));
   ("errorMessage", error_message r);
   ("lastUpdated", Str (updated_at r))].

Definition completed_response (uploadId : string) (r : upload_row) : response :=
  {| code := 200;
     body := Obj (status_fields uploadId r ++ [("completed", Bool true)]) |}.

Definition progress_response (uploadId : string) (r : upload_row) : response :=
  {| code := 200;
     body := Obj (status_fields uploadId r ++
                  [("completed", Bool false);
                   ("polling", Obj [("continue", Bool true);
                                    ("nextPollDelay", int 2000)])]) |}.

Definition timeout_response (uploadId : string) (r : upload_row) : response :=
  {| code := 200;
     body := Obj (status_fields uploadId r ++
                  [("completed", Bool (terminal (status r)));
                   ("timeout", Bool true);
                   ("polling", Obj [("continue", Bool (negb (terminal (status r))));
                                    ("nextPollDelay", int 2000)])]) |}.

Definition failure_response : response :=
  {| code := 500; body := error_body "Failed to get upload status" |}.

Section Handler.
(** The store over time, who owns the upload, and how long a query issued
    at a given time takes. *)
Variable store : Z → option upload_row.
Variable owner : Z.
Variable latency : Z → Z.

Variable uploadId : string.

(** The query after the loop: [finalStatus.rows[0]] is read without a
    check, so a missing row ends in the handler's [catch]. *)
Definition final_status (t : Z) : response * Z :=
  match store t with
  | Some final => (timeout_response uploadId final, t + latency t)
  | None => (failure_response, t + latency t)
  end%Z.

(** [pollForChanges], started at clock [t]; [fuel] bounds the number of
    turns of the loop.  The result is the answer and the time at which it
    is sent. *)
Fixpoint pollForChanges (fuel : nat) (upload : upload_row)
    (startTime timeout : Z) (t : Z) : option (response * Z) :=
  if (t - startTime <? timeout)%Z then
    match fuel with
    | O => None
    | S fuel' =>
        let t1 := (t + latency t)%Z in
        match store t with
        | None => Some (final_status t1)
        | Some current =>
            if terminal (status current) then
              Some (completed_response uploadId current, t1)
            else if (5 <=? Z.abs (progress current - progress upload))%Z then
              Some (progress_response uploadId current, t1)
            else
              pollForChanges fuel' upload startTime timeout (t1 + pollInterval)%Z
        end
    end
  else Some (final_status t).

(** [GET /api/images/status/:uploadId], after authentication, entered at
    clock [t0] by user [userId]. *)
Definition get_status (fuel : nat) (userId : Z) (parsed : option Z) (t0 : Z)
    : option (response * Z) :=
  let t1 := (t0 + latency t0)%Z in
  match (if bool_decide (owner = userId) then store t0 else None) with
  | None =>
      Some ({| code := 404;
               body := error_body "Upload not found or access denied" |}, t1)
  | Some upload =>
      if terminal (status upload) then
        Some (completed_response uploadId upload, t1)
      else
        pollForChanges fuel upload t1 (pollTimeout parsed) t1
  end.

End Handler.

(** No material change ever occurs: at every time the row is there, its
    status is not terminal and its progress is within 5 of what the
    handler read first. *)
Definition quiet (store : Z → option upload_row) (upload : upload_row) : Prop :=
  ∀ t, ∃ row, store t = Some row ∧ terminal (status row) = false ∧
              (Z.abs (progress row - progress upload) < 5)%Z.

(** The number of turns the loop takes when nothing wakes it, for a
    remaining wait of [r] milliseconds. *)
Definition turns (r : Z) : Z := Z.max 0 ((r + 999) / 1000).

End Images.

(** ** Further notions about the handlers above *)

(** *** The SSE registry *)
Module StreamRegistry.
Import JS Driver.

(** Every set of the registry holds a stream once. *)
Definition registry_sets (reg : gmap string (list handle)) : Prop :=
  ∀ oid connections, reg !! oid = Some connections → NoDup connections.

(** The range test of [PUT /location] on two numbers. *)
Definition out_of_range (lat lng : Q) : Prop :=
  (lat < -90 ∨ 90 < lat ∨ lng < -180 ∨ 180 < lng)%Q.

End StreamRegistry.

(** ** The restaurant's order routes (routes/restaurant.js) and the
    driver's self-assignment (routes/driver.js) *)
Module RestaurantRoutes.
Import JS Orders.

(** The [WHERE] clause shared by the three routes: the order of the
    restaurant's user, in one of the statuses [from]. *)
Definition guarded_match (rs : list restaurant_row) (oid : string) (user : Z)
    (from : list string) (o : order_row) : bool :=
  restaurant_match rs oid user o && bool_decide (status o ∈ from).

Definition same_tables (orders' : list order_row) (w : world) : world :=
  {| orders := orders'; restaurants := restaurants w; cache := cache w |}.

(** [PUT /api/restaurant/orders/:orderId/accept]. *)
Definition accept_order (oid : string) (user : Z) (estimatedPrepTime : value)
    (w : world) : response * world :=
  let '(orders', rows) :=
    sql_update (guarded_match (restaurants w) oid user ["confirmed"])
               (with_status "preparing") (orders w) in
  match rows with
  | [] =>
      ({| code := 404;
          body := error_body
            "Order not found, access denied, or already processed" |},
       same_tables orders' w)
  | order :: _ =>
      ({| code := 200;
          body := Obj [("message", Str "Order accepted and preparation started");
                       ("orderId", Str (id order));
                       ("status", Str "preparing");
                       ("estimatedPrepTime",
                        if truthy estimatedPrepTime then estimatedPrepTime
                        else int 25)] |},
       same_tables orders' w)
  end.

(** [PUT /api/restaurant/orders/:orderId/ready]. *)
Definition ready_order (oid : string) (user : Z) (w : world)
    : response * world :=
  let '(orders', rows) :=
    sql_update (guarded_match (restaurants w) oid user ["preparing"])
               (with_status "ready") (orders w) in
  match rows with
  | [] =>
      ({| code := 404;
          body := error_body
            "Order not found, access denied, or not in preparing state" |},
       same_tables orders' w)
  | order :: _ =>
      ({| code := 200;
          body := Obj [("message", Str "Order marked as ready for pickup");
                       ("orderId", Str (id order));
                       ("status", Str "ready");
                       ("instruction",
                        Str "Order is now available for driver pickup")] |},
       same_tables orders' w)
  end.

(** [PUT /api/restaurant/orders/:orderId/cancel]. *)
Definition cancel_order (oid : string) (user : Z) (reason : value)
    (w : world) : response * world :=
  if negb (truthy reason) then
    ({| code := 400; body := error_body "Cancellation reason is required" |}, w)
  else
    let '(orders', rows) :=
      sql_update (guarded_match (restaurants w) oid user
                                ["confirmed"; "preparing"; "ready"])
                 (with_status "cancelled") (orders w) in
    match rows with
    | [] =>
        ({| code := 404;
            body := error_body
              "Order not found, access denied, or cannot be cancelled (already picked up/delivered)" |},
         same_tables orders' w)
    | order :: _ =>
        ({| code := 200;
            body := Obj [("message", Str "Order cancelled successfully");
                         ("orderId", Str (id order));
                         ("status", Str "cancelled");
                         ("reason", reason);
                         ("instruction",
                          Str "Customer will be notified of cancellation")] |},
         same_tables orders' w)
    end.

(** The three routes by name, for statements about all of them. *)
Inductive route :=
  | Accept (estimatedPrepTime : value)
  | Ready
  | Cancel (reason : value).

Definition run_route (r : route) (oid : string) (user : Z) (w : world)
    : response * world :=
  match r with
  | Accept estimatedPrepTime => accept_order oid user estimatedPrepTime w
  | Ready => ready_order oid user w
  | Cancel reason => cancel_order oid user reason w
  end.

(** The statuses a route starts from, the status it sets, and whether its
    body is acceptable. *)
Definition route_from (r : route) : list string :=
  match r with
  | Accept _ => ["confirmed"]
  | Ready => ["preparing"]
  | Cancel _ => ["confirmed"; "preparing"; "ready"]
  end.

Definition route_to (r : route) : string :=
  match r with
  | Accept _ => "preparing"
  | Ready => "ready"
  | Cancel _ => "cancelled"
  end.

Definition route_body_ok (r : route) : bool :=
  match r with
  | Cancel reason => truthy reason
  | _ => true
  end.

(** Everything but the status of an order. *)
Definition same_but_status (o o' : order_row) : Prop :=
  id o' = id o ∧ customer_id o' = customer_id o ∧
  restaurant_id o' = restaurant_id o ∧ driver_id o' = driver_id o.

(** The table holds one row per order id. *)
Definition unique_ids (os : list order_row) : Prop := NoDup (id <$> os).

(** *** [POST /api/driver/assign/:orderId] *)
Section Assign.
(** The delivery address of an order, a column the rows above do not
    carry and no handler here writes. *)
Variable delivery_address : string → value.

(** The double quote character, as it stands inside the messages. *)
Definition dquote : string := String (Ascii.ascii_of_nat 34) EmptyString.

Definition assign_match (oid : string) (o : order_row) : bool :=
  bool_decide (id o = oid) && bool_decide (driver_id o = None)
  && bool_decide (status o = "ready").

Definition with_driver (d : Z) (o : order_row) : order_row :=
  {| id := id o; customer_id := customer_id o;
     restaurant_id := restaurant_id o; driver_id := Some d;
     status := status o |}.

Definition assign_order (oid : string) (driverId : Z) (w : world)
    : response * world :=
  let '(orders', rows) :=
    sql_update (assign_match oid) (with_driver driverId) (orders w) in
  match rows with
  | [] =>
      ({| code := 400;
          body := error_body
            "Order not available for assignment (already assigned or not ready)" |},
       same_tables orders' w)
  | order :: _ =>
      ({| code := 200;
          body := Obj [("message", Str "Successfully assigned to order");
                       ("orderId", Str (id order));
                       ("deliveryAddress", delivery_address (id order));
                       ("nextSteps",
                        Arr [Str ("Update status to " +:+ dquote +:+ "picked_up"
                                  +:+ dquote +:+ " when you collect the order");
                             Str "Start sending location updates every 10-15 seconds";
                             Str ("Update status to " +:+ dquote +:+ "delivered"
                                  +:+ dquote +:+ " when delivery is complete")])] |},
       same_tables orders' w)
  end.

End Assign.
End RestaurantRoutes.

(** ** The requests as they arrive (routes/orders.js, routes/restaurant.js,
    routes/driver.js)

    The order id of a route is the text of the URL, and the [id] column
    is an [INTEGER]: PostgreSQL reads the parameter with the column's
    input function.  [int4_in] is that reading: the integer a text
    denotes (the text 01 denotes 1), or [None] when it denotes none, or
    one outside the range of the column, and the query raises an error.
    A query also raises an error when the store does not answer.  An
    error takes the handler to its [catch], which answers 500.  The rows
    carry their id as it is printed, so the rows a query for the integer
    [n] reaches are those whose [id] is [pretty n]: the handlers above,
    which take the id as the rows carry it, are run for [pretty n]. *)
Module Requests.
Import JS Orders RestaurantRoutes.

Definition failure (msg : string) : response :=
  {| code := 500; body := error_body msg |}.

Section Parameters.
Variable int4_in : string → option Z.

(** The integer a query is run for; [None] when the query raises an
    error. *)
Definition query_id (store_up : bool) (orderId : string) : option Z :=
  if store_up then int4_in orderId else None.

Definition route_failure (r : route) : string :=
  match r with
  | Accept _ => "Failed to accept order"
  | Ready => "Failed to mark order as ready"
  | Cancel _ => "Failed to cancel order"
  end.

(** [PUT /api/restaurant/orders/:orderId/accept], [/ready] and [/cancel];
    the 400 of a cancel without reason comes before the query. *)
Definition restaurant_request (store_up : bool) (r : route) (orderId : string)
    (user : Z) (w : world) : response * world :=
  if negb (route_body_ok r) then run_route r orderId user w
  else
    match query_id store_up orderId with
    | None => (failure (route_failure r), w)
    | Some n => run_route r (pretty n) user w
    end.

(** [POST /api/driver/assign/:orderId]. *)
Definition assign_request (delivery_address : string → value)
    (store_up : bool) (orderId : string) (driverId : Z) (w : world)
    : response * world :=
  match query_id store_up orderId with
  | None => (failure "Failed to assign to order", w)
  | Some n => assign_order delivery_address (pretty n) driverId w
  end.

(** [PUT /api/orders/:orderId/status]: the [UPDATE] is run for the
    integer the parameter denotes, the cache is read and written under
    the text of the parameter.  When the cache does not answer
    ([cache_up] false) the error comes after the [UPDATE]: the answer is
    500 and the row stays updated. *)
Definition put_status_request (store_up cache_up : bool) (now : string)
    (req : status_request) (w : world) : response * world :=
  if negb (includes validStatuses (new_status req)) then
    ({| code := 400;
        body := Obj [("error", Str "Invalid status");
                     ("validStatuses", Arr (Str <$> validStatuses))] |}, w)
  else
    let s := status_text (new_status req) in
    let update :=
      if String.eqb (userType req) "restaurant" then
        if negb (includes ["preparing"; "ready"] (new_status req)) then
          inl {| code := 400;
                 body := error_body
                   "Restaurants can only set status to preparing or ready" |}
        else
          inr (λ n, sql_update
                      (restaurant_match (restaurants w) (pretty n) (userId req))
                      (with_status s) (orders w))
      else if String.eqb (userType req) "driver" then
        if negb (includes ["picked_up"; "delivered"] (new_status req)) then
          inl {| code := 400;
                 body := error_body
                   "Drivers can only set status to picked_up or delivered" |}
        else
          inr (λ n, sql_update
                      (driver_match (pretty n) (userId req))
                      (with_status_driver s (userId req)) (orders w))
      else
        inl {| code := 403;
               body := error_body
                 "Only restaurants and drivers can update order status" |} in
    match update with
    | inl refusal => (refusal, w)
    | inr run =>
        match query_id store_up (orderId req) with
        | None => (failure "Failed to update order status", w)
        | Some n =>
            let '(orders', rows) := run n in
            match rows with
            | [] =>
                ({| code := 404;
                    body := error_body "Order not found or access denied" |},
                 {| orders := orders'; restaurants := restaurants w;
                    cache := cache w |})
            | updatedOrder :: _ =>
                if cache_up then
                  ({| code := 200;
                      body := Obj [("message",
                                    Str "Order status updated successfully");
                                   ("orderId", Str (id updatedOrder));
                                   ("status", Str (status updatedOrder));
                                   ("updatedAt", Str now)] |},
                   {| orders := orders'; restaurants := restaurants w;
                      cache := refresh_cache now (orderId req)
                                 (status updatedOrder) (cache w) |})
                else
                  (failure "Failed to update order status",
                   {| orders := orders'; restaurants := restaurants w;
                      cache := cache w |})
            end
        end
    end.

End Parameters.
End Requests.


(** ** Short polling: [GET /api/orders/:orderId/status] (routes/orders.js)

    The handler after [authenticateToken].  The cache is the store as the
    request finds it, a key that has expired being absent; dates are
    written as [JSON.stringify] writes them, in the cache and in the
    answer alike.  A query or a cache access that throws ends in the
    handler's [catch] (500) and is left out. *)
Module OrderTracking.
Import JS Orders.

(** The columns of the joined row that [order_row] does not carry.  The
    timestamps are SQL [TIMESTAMP]s: a date, in milliseconds since the
    epoch, or [NULL]. *)
Record columns := {
  restaurant_name : value;
  driver_name : value;
  total_amount : value;
  delivery_address : value;
  created_at : option Z;
  updated_at : option Z
}.

(** [a - b] on numbers. *)
Definition minus (a b : number) : number :=
  match a, b with
  | Num x, Num y => Num (x - y)
  | _, _ => NaN
  end.

Section Tracking.
(** [new Date(v).getTime()] and [new Date(t).toISOString()]. *)
Variable getTime : value → number.
Variable toISOString : Z → string.
(** The other columns of an order, as the request finds them. *)
Variable columns_of : order_row → columns.

(** A date as [JSON.stringify] writes it. *)
Definition json_date (t : option Z) : value :=
  match t with
  | Some t => Str (toISOString t)
  | None => Null
  end.

(** The cache test: [cachedStatus && cachedStatus.lastUpdated] and an age
    below 30 seconds. *)
Definition usable (now : Z) (cachedStatus : value) : bool :=
  truthy cachedStatus &&
  match prop "lastUpdated" cachedStatus with
  | Some lastUpdated =>
      truthy lastUpdated &&
      lt (minus (Num (inject_Z now)) (getTime lastUpdated))
         (Num (inject_Z 30000))
  | None => false
  end.

(** The [switch] on the status; [new Date(null)] is the epoch. *)
Definition estimatedDelivery (order : order_row) : option Z :=
  let orderTime := default 0%Z (created_at (columns_of order)) in
  if String.eqb (status order) "confirmed" then
    Some (orderTime + 45 * 60 * 1000)%Z
  else if String.eqb (status order) "preparing" then
    Some (orderTime + 40 * 60 * 1000)%Z
  else if String.eqb (status order) "ready" then
    Some (orderTime + 25 * 60 * 1000)%Z
  else if String.eqb (status order) "picked_up" then
    Some (orderTime + 15 * 60 * 1000)%Z
  else if String.eqb (status order) "delivered" then
    updated_at (columns_of order)
  else None.

(** The status object, as it is serialised into the cache and into the
    answer: a field whose value is [undefined] is left out. *)
Definition orderStatus (now : Z) (order : order_row) : value :=
  Obj ([("orderId", Str (id order));
        ("status", Str (status order));
        ("restaurantName", restaurant_name (columns_of order));
        ("driverName", driver_name (columns_of order));
        ("totalAmount", total_amount (columns_of order));
        ("deliveryAddress", delivery_address (columns_of order))]
       ++ match estimatedDelivery order with
          | Some t => [("estimatedDelivery", Str (toISOString t))]
          | None => []
          end
       ++ [("lastUpdated", Str (toISOString now));
           ("createdAt", json_date (created_at (columns_of order)));
           ("updatedAt", json_date (updated_at (columns_of order)))]).

Definition polling (oid : string) (fromCache : bool) : value :=
  Obj [("nextPollIn", int 60);
       ("endpoint", Str ("/api/orders/" +:+ oid +:+ "/status"));
       ("fromCache", Bool fromCache)].

(** The answer [{ ...orderStatus, polling }]. *)
Definition answer (oid : string) (fromCache : bool) (orderStatus : value)
    : response :=
  {| code := 200;
     body := set_prop "polling" (polling oid fromCache) orderStatus |}.

Definition get_order_status (now : Z) (oid : string) (userId : Z)
    (userType : string) (w : world) : response * world :=
  let key := "order_status:" +:+ oid in
  let cached :=
    match cache w !! key with
    | Some cachedStatus =>
        if usable now cachedStatus then Some cachedStatus else None
    | None => None
    end in
  match cached with
  | Some cachedStatus => (answer oid true cachedStatus, w)
  | None =>
      match filter (λ o, id o = oid) (orders w) with
      | [] => ({| code := 404; body := error_body "Order not found" |}, w)
      | order :: _ =>
          if String.eqb userType "customer"
             && negb (customer_id order =? userId)%Z then
            ({| code := 403; body := error_body "Access denied" |}, w)
          else if String.eqb userType "restaurant"
                  && negb (bool_decide
                             (Exists (λ r, rest_user r = userId ∧
                                           rest_id r = restaurant_id order)
                                     (restaurants w))) then
            ({| code := 403; body := error_body "Access denied" |}, w)
          else
            let fetched := orderStatus now order in
            (answer oid false fetched,
             {| orders := orders w; restaurants := restaurants w;
                cache := <[key := fetched]> (cache w) |})
      end
  end.

End Tracking.

(** The status a poll reports. *)
Definition reported_status (r : response) : option value :=
  prop "status" (body r).

Definition served_from_cache (r : response) : option value :=
  match prop "polling" (body r) with
  | Some p => prop "fromCache" p
  | None => None
  end.

End OrderTracking.

(** ** The support desk: who may join a chat (sockets/chatHandler.js) and
    the agent's and customer's routes (routes/support.js) *)
Module SupportDesk.
Import JS SocketIO Chat.

(** The access rule of [join-support-chat]: the user of the token is a
    customer and the chat is theirs, or a support agent and the chat is
    theirs or nobody's. *)
Definition may_join (chatId : string) (userId : Z) (w : world) : Prop :=
  ∃ user,
    head (filter (λ u, user_id u = userId) (users w)) = Some user ∧
    ((user_type user = "customer" ∧
      ∃ c, c ∈ support_chats w ∧ chat_id c = chatId ∧ chat_customer c = userId)
     ∨
     (user_type user = "support" ∧
      ∃ c, c ∈ support_chats w ∧ chat_id c = chatId ∧
           (chat_agent c = Some userId ∨ chat_agent c = None))).

Definition join_accepted (chatId : string) (token : value)
    (verified : option Z) (w : world) : Prop :=
  truthy token = true ∧ db_up w = true ∧
  ∃ userId, verified = Some userId ∧ userId ≠ 0%Z ∧ may_join chatId userId w.

(** One row per chat id. *)
Definition unique_chats (w : world) : Prop :=
  NoDup (chat_id <$> support_chats w).

Definition with_chats (chats : list chat_row) (w : world) : world :=
  {| users := users w; support_chats := chats;
     chat_messages := chat_messages w; next_message_id := next_message_id w;
     db_up := db_up w; server := server w |}.

(** *** [POST /api/support/agent/take/:chatId]

    After [authenticateToken] and [authorize(['support'])].  The route
    runs two statements, the [SELECT COUNT] and the [UPDATE], each
    awaited and with no transaction around them: the table the [UPDATE]
    finds is the one the [COUNT] saw only when no other request wrote in
    between.  A statement raises an error when the database is down, and
    the [UPDATE] also when the id of the URL denotes no integer of the
    column ([int4_in], as for the order routes); the [catch] answers
    500. *)

(** The rows counted by [SELECT COUNT( * ) ... WHERE agent_id = $1 AND
    status = 'active']. *)
Definition active_chats (agentId : Z) (w : world) : list chat_row :=
  filter (λ c, chat_agent c = Some agentId ∧ chat_status c = "active")
         (support_chats w).

Definition takeable (chatId : string) (c : chat_row) : bool :=
  bool_decide (chat_id c = chatId ∧ chat_agent c = None ∧
               chat_status c = "active").

Definition taken_by (now : string) (agentId : Z) (c : chat_row) : chat_row :=
  {| chat_id := chat_id c; chat_customer := chat_customer c;
     chat_agent := Some agentId; chat_status := chat_status c;
     chat_updated_at := now |}.

(** The first statement, on the table [w] it sees: the answer of a
    request that ends there, [None] for one that goes on. *)
Definition take_count (agentId : Z) (w : world) : option response :=
  if negb (db_up w) then
    Some {| code := 500; body := error_body "Failed to take chat" |}
  else if (10 <=? length (active_chats agentId w))%nat then
    Some {| code := 400;
            body := error_body "Maximum concurrent chats reached (10)" |}
  else None.

Section Take.
Variable int4_in : string → option Z.

(** The second statement and the answer, on the table [w] it finds. *)
Definition take_update (now : string) (chatId : string) (agentId : Z)
    (w : world) : response * world :=
  match (if db_up w then int4_in chatId else None) with
  | None => ({| code := 500; body := error_body "Failed to take chat" |}, w)
  | Some n =>
      match filter (λ c, takeable (pretty n) c = true) (support_chats w) with
      | [] =>
          ({| code := 404;
              body := error_body "Chat not available or already assigned" |},
           w)
      | chat :: _ =>
          ({| code := 200;
              body := Obj [("message", Str "Chat assigned successfully");
                           ("chatId", Str (chat_id chat));
                           ("customerId", int (chat_customer chat));
                           ("agentId", int agentId);
                           ("websocket",
                            Obj [("instruction",
                                  Str "Join chat room for real-time communication");
                                 ("room", Str ("chat-" +:+ chatId))])] |},
           with_chats ((λ c, if takeable (pretty n) c
                             then taken_by now agentId c else c)
                       <$> support_chats w) w)
      end
  end.

(** The request: [seen] is the table at the [COUNT], [w] the table at
    the [UPDATE]; a request that ends at the [COUNT] writes nothing. *)
Definition take_chat (now : string) (chatId : string) (agentId : Z)
    (seen w : world) : response * world :=
  match take_count agentId seen with
  | Some answer => (answer, w)
  | None => take_update now chatId agentId w
  end.

End Take.

(** *** [PUT /api/support/chat/:chatId/close] *)
Section Close.
(** [`${v}`] as code units, and [parseInt(v)]. *)
Variable ToString : value → text.
Variable parseInt : value → number.

Definition closes (chatId : string) (userId : Z) (userType : string)
    (c : chat_row) : bool :=
  bool_decide (chat_id c = chatId) &&
  (if String.eqb userType "support"
   then bool_decide (chat_agent c = Some userId)
   else bool_decide (chat_customer c = userId)).

Definition closed_as (now : string) (s : string) (c : chat_row) : chat_row :=
  {| chat_id := chat_id c; chat_customer := chat_customer c;
     chat_agent := chat_agent c; chat_status := s;
     chat_updated_at := now |}.

(** The code units of ["Chat resolved: "]. *)
Definition resolved_prefix : text :=
  [67; 104; 97; 116; 32; 114; 101; 115; 111; 108; 118; 101; 100; 58; 32]%N.

Definition closing_message (now : string) (chatId : string) (userId : Z)
    (resolution : value) (w : world) : world :=
  {| users := users w; support_chats := support_chats w;
     chat_messages :=
       chat_messages w ++
       [{| msg_id := next_message_id w; msg_chat := chatId;
           msg_sender := userId;
           msg_text := resolved_prefix ++ ToString resolution;
           msg_type := Some "text"; msg_created_at := now |}];
     next_message_id := (next_message_id w + 1)%Z;
     db_up := db_up w; server := server w |}.

Definition close_chat (now : string) (chatId : string) (userId : Z)
    (userType : string) (resolution rating : value) (w : world)
    : response * world :=
  if negb (String.eqb userType "support")
     && negb (String.eqb userType "customer") then
    ({| code := 403; body := error_body "Access denied" |}, w)
  else if negb (db_up w) then
    ({| code := 500; body := error_body "Failed to close chat" |}, w)
  else
    let s := if String.eqb userType "support" then "resolved" else "closed" in
    match filter (λ c, closes chatId userId userType c = true)
                 (support_chats w) with
    | [] =>
        ({| code := 404;
            body := error_body "Chat not found or access denied" |}, w)
    | _ :: _ =>
        let w1 :=
          with_chats ((λ c, if closes chatId userId userType c
                            then closed_as now s c else c)
                      <$> support_chats w) w in
        let w2 := if truthy resolution
                  then closing_message now chatId userId resolution w1
                  else w1 in
        ({| code := 200;
            body := Obj [("message", Str "Chat closed successfully");
                         ("chatId", Str chatId);
                         ("status", Str s);
                         ("resolution", resolution);
                         ("rating",
                          if truthy rating then Number (parseInt rating)
                          else Null)] |},
         w2)
    end.

End Close.
End SupportDesk.

(** ** The processing of an uploaded image (routes/images.js) *)
Module Processing.
Import JS Images.

(** How a step of the pipeline ends: it returns, or it throws an error
    whose [message] is the given value. *)
Inductive outcome :=
  | Done
  | Throws (message : value).

(** A call [updateUploadStatus(uploadId, status, progress, message)]. *)
Record call := {
  c_status : string;
  c_progress : Z;
  c_message : value
}.

(** The default parameter [message = null]. *)
Definition status_call (status : string) (progress : Z) (message : value)
    : call :=
  {| c_status := status; c_progress := progress;
     c_message := match message with Undefined => Null | m => m end |}.

(** [processImageAsync]: the status calls it makes, in order, given how
    [fs.mkdir], [sharp], [fs.writeFile] and the update of the menu item
    end.  A throw sends the rest of the [try] block to the [catch]. *)
Definition processImageAsync (mkdir sharp writeFile update_menu_item : outcome)
    : list call :=
  status_call "processing" 10 Undefined ::
  match mkdir with
  | Throws message => [status_call "failed" 0 message]
  | Done =>
      status_call "processing" 30 (Str "Resizing image...") ::
      match sharp with
      | Throws message => [status_call "failed" 0 message]
      | Done =>
          status_call "processing" 60 (Str "Optimizing image...") ::
          match writeFile with
          | Throws message => [status_call "failed" 0 message]
          | Done =>
              status_call "processing" 80 (Str "Updating database...") ::
              match update_menu_item with
              | Throws message => [status_call "failed" 0 message]
              | Done =>
                  [status_call "completed" 100
                     (Str "Image processing completed")]
              end
          end
      end
  end.

(** [updateUploadStatus]: the row and the cached status after the call.
    The [UPDATE] and the cache write share one [try]: when the query
    throws nothing is written, when the cache write throws the row is
    still updated; neither error leaves the function. *)
Definition updateUploadStatus (query_ok cache_ok : bool) (now : string)
    (uploadId : value) (c : call) (st : option upload_row * option value)
    : option upload_row * option value :=
  if query_ok then
    (match st.1 with
     | Some _ => Some {| status := c_status c; progress := c_progress c;
                         error_message := c_message c; updated_at := now |}
     | None => None
     end,
     if cache_ok then
       Some (Obj [("uploadId", uploadId);
                  ("status", Str (c_status c));
                  ("progress", int (c_progress c));
                  ("errorMessage", c_message c);
                  ("lastUpdated", Str now)])
     else st.2)
  else st.

(** The row a call writes. *)
Definition written (now : string) (c : call) : upload_row :=
  {| status := c_status c; progress := c_progress c;
     error_message := c_message c; updated_at := now |}.

(** The row [POST /upload] inserts. *)
Definition inserted (now : string) : upload_row :=
  {| status := "uploading"; progress := 0; error_message := Null;
     updated_at := now |}.

(** The message of the first step that throws. *)
Definition first_throw (steps : list outcome) : option value :=
  head (omap (λ o, match o with Throws m => Some m | Done => None end) steps).

(** An answer that reports a row: its status, its progress, and a
    [completed] flag that is true for a completed or failed row. *)
Definition reports (r : response) (row : upload_row) : Prop :=
  code r = 200%Z ∧
  prop "status" (body r) = Some (Str (status row)) ∧
  prop "progress" (body r) = Some (int (progress row)) ∧
  prop "completed" (body r) = Some (Bool (terminal (status row))).

End Processing.

(** ** The announcement table: [GET /api/announcements/active] and
    [DELETE /api/announcements/:id] (routes/announcements.js) *)
Module ActiveAnnouncements.
Import JS Announcements.

(** A row of [announcements]; timestamps in milliseconds since the
    epoch, [None] for [NULL]. *)
Record stored := {
  sa_id : Z;
  sa_title : string;
  sa_message : string;
  sa_type : string;
  sa_audience : string;
  sa_active : bool;
  sa_scheduled_at : option Z;
  sa_expires_at : option Z;
  sa_created_at : Z
}.

(** The [WHERE] clause of the active list, at time [now]. *)
Definition selected (now : Z) (userType : string) (a : stored) : bool :=
  sa_active a
  && (String.eqb (sa_audience a) "all" || String.eqb (sa_audience a) userType)
  && match sa_scheduled_at a with
     | None => true
     | Some t => (t <=? now)%Z
     end
  && match sa_expires_at a with
     | None => true
     | Some t => (now <? t)%Z
     end.

(** The [CASE] of the [ORDER BY]. *)
Definition rank (a : stored) : Z :=
  if String.eqb (sa_type a) "urgent" then 1
  else if String.eqb (sa_type a) "maintenance" then 2
  else if String.eqb (sa_type a) "promotion" then 3
  else 4.

(** [ORDER BY CASE ..., created_at DESC]. *)
Definition before (a b : stored) : Prop :=
  (rank a < rank b ∨ (rank a = rank b ∧ sa_created_at b ≤ sa_created_at a))%Z.

#[global] Instance before_dec (a b : stored) : Decision (before a b).
Proof. unfold before. apply _. Defined.

Definition active_rows (now : Z) (userType : string) (table : list stored)
    : list stored :=
  merge_sort before (filter (λ a, selected now userType a = true) table).

Section Listing.
Variable toISOString : Z → string.

Definition listed (a : stored) : value :=
  Obj [("id", int (sa_id a));
       ("title", Str (sa_title a));
       ("message", Str (sa_message a));
       ("type", Str (sa_type a));
       ("targetAudience", Str (sa_audience a));
       ("createdAt", Str (toISOString (sa_created_at a)));
       ("expiresAt", match sa_expires_at a with
                     | Some t => Str (toISOString t)
                     | None => Null
                     end);
       ("priority", Str (getPriorityLevel (sa_type a)))].

(** [GET /api/announcements/active] for a user of type [userType]. *)
Definition get_active (now : Z) (userType : string) (table : list stored)
    : response :=
  let announcements := listed <$> active_rows now userType table in
  {| code := 200;
     body := Obj [("announcements", Arr announcements);
                  ("count", int (Z.of_nat (length announcements)));
                  ("userType", Str userType);
                  ("websocket",
                   Obj [("instruction",
                         Str "Connect to WebSocket to receive real-time announcements");
                        ("channel", Str ("announcements-" +:+ userType))])] |}.

End Listing.

(** [DELETE /api/announcements/:id]: the announcement is deactivated,
    not removed. *)
Definition deactivated (a : stored) : stored :=
  {| sa_id := sa_id a; sa_title := sa_title a; sa_message := sa_message a;
     sa_type := sa_type a; sa_audience := sa_audience a; sa_active := false;
     sa_scheduled_at := sa_scheduled_at a; sa_expires_at := sa_expires_at a;
     sa_created_at := sa_created_at a |}.

(** The [UPDATE ... WHERE id = $1] takes the id as the URL has it:
    [int4_in] is the input function of the [INTEGER] column, [None]
    where the text denotes no integer of the column ([abc], a number
    beyond 32 bits) and the statement raises an error, as it does when
    the database is down ([store_up] false); the [catch] answers 500. *)
Section Deleting.
Variable int4_in : string → option Z.

Definition delete_announcement (store_up : bool) (id : string)
    (table : list stored) : response * list stored :=
  match (if store_up then int4_in id else None) with
  | None =>
      ({| code := 500; body := error_body "Failed to delete announcement" |},
       table)
  | Some aid =>
      match filter (λ a, sa_id a = aid) table with
      | [] => ({| code := 404; body := error_body "Announcement not found" |},
               table)
      | announcement :: _ =>
          ({| code := 200;
              body := Obj [("message",
                            Str "Announcement deactivated successfully");
                           ("announcementId", int (sa_id announcement));
                           ("title", Str (sa_title announcement))] |},
           (λ a, if bool_decide (sa_id a = aid) then deactivated a else a)
           <$> table)
      end
  end.

End Deleting.

(** The user types of the [users] table and the audiences of the
    [announcements] table, as their [CHECK] constraints list them. *)
Definition user_types : list string :=
  ["customer"; "restaurant"; "driver"; "support"].

Definition audiences : list string :=
  ["all"; "customers"; "restaurants"; "drivers"].

End ActiveAnnouncements.
(** * Properties *)

(** ** The SSE registry *)
Section DriverFacts.
Import JS Driver.

Lemma set_delete_not_elem (h : nat) (s : list nat) : h ∉ set_delete h s.
Proof. unfold set_delete. rewrite list_elem_of_filter. tauto. Qed.

Lemma set_delete_elem (h x : nat) (s : list nat) :
  x ∈ set_delete h s ↔ x ≠ h ∧ x ∈ s.
Proof. unfold set_delete. by rewrite list_elem_of_filter. Qed.

Lemma set_delete_NoDup (h : nat) (s : list nat) :
  NoDup s → NoDup (set_delete h s).
Proof. apply NoDup_filter. Qed.

Lemma set_add_NoDup (h : nat) (s : list nat) : NoDup s → NoDup (set_add h s).
Proof.
  intros Hs. unfold set_add. case_bool_decide as Hin; [done|].
  apply NoDup_app. repeat split; [done| |apply NoDup_singleton].
  intros x Hx Hx'. apply list_elem_of_singleton in Hx'. by subst.
Qed.

(** Deleting a member of a duplicate-free set shortens it by one. *)
Lemma set_delete_length (h : nat) (s : list nat) :
  NoDup s → h ∈ s → S (length (set_delete h s)) = length s.
Proof.
  unfold set_delete. induction 1 as [|x l Hx Hl IH]; intros Hin.
  - by apply elem_of_nil in Hin.
  - rewrite filter_cons. case_decide as Hne.
    + cbn. f_equal. apply IH. apply elem_of_cons in Hin as [->|]; [done|done].
    + assert (x = h) as -> by (destruct (decide (x = h)); tauto).
      cbn. f_equal.
      clear IH Hin Hl. induction l as [|y l IH]; [done|].
      rewrite filter_cons. rewrite not_elem_of_cons in Hx. destruct Hx as [Hy Hl].
      case_decide; [|congruence]. cbn. f_equal. by apply IH.
Qed.

Lemma filter_ext_elem {A} (P Q : A → Prop) `{!∀ x, Decision (P x)}
    `{!∀ x, Decision (Q x)} (l : list A) :
  (∀ x, x ∈ l → P x ↔ Q x) → filter P l = filter Q l.
Proof.
  induction l as [|a l IH]; intros Hext; [done|].
  rewrite !filter_cons.
  assert (Hl : filter P l = filter Q l).
  { apply IH. intros x Hx. apply Hext. by right. }
  pose proof (Hext a (list_elem_of_here a l)) as Ha.
  do 2 case_decide; try tauto; by rewrite Hl.
Qed.

Lemma filter_all {A} (P : A → Prop) `{!∀ x, Decision (P x)} (l : list A) :
  (∀ x, x ∈ l → P x) → filter P l = l.
Proof.
  induction l as [|a l IH]; intros Hall; [done|].
  rewrite filter_cons_True by (apply Hall; left).
  f_equal. apply IH. intros x Hx. apply Hall. by right.
Qed.

(** The loop, from any accumulator: the handles of [todo] whose write
    throws leave the set, the others are written to in order. *)
Lemma push_loop_acc (write_ok : handle → bool) (frame : value)
    (todo acc : list handle) (log : list (handle * value)) :
  foldl (push_step write_ok frame) (acc, log) todo =
  (filter (λ x, ¬ (x ∈ todo ∧ write_ok x = false)) acc,
   log ++ ((λ h, (h, frame)) <$> filter (λ h, write_ok h = true) todo)).
Proof.
  revert acc log. induction todo as [|h todo IH]; intros acc log.
  - cbn. rewrite app_nil_r. f_equal. symmetry. apply filter_all.
    intros x _ [Hx _]. by apply elem_of_nil in Hx.
  - cbn [foldl]. unfold push_step at 2. cbn [fst snd].
    destruct (write_ok h) eqn:Hok.
    + rewrite IH. rewrite filter_cons. case_decide; [|congruence].
      rewrite fmap_cons, <- app_assoc. cbn. f_equal.
      apply list_filter_iff. intros x. rewrite elem_of_cons.
      naive_solver congruence.
    + rewrite IH. rewrite filter_cons. case_decide; [congruence|].
      f_equal. unfold set_delete. rewrite list_filter_filter.
      apply list_filter_iff. intros x. rewrite elem_of_cons.
      destruct (decide (x = h)) as [->|Hne]; naive_solver.
Qed.

Lemma push_loop_eq (write_ok : handle → bool) (frame : value)
    (connections : list handle) :
  push_loop write_ok frame connections =
  (filter (λ h, write_ok h = true) connections,
   (λ h, (h, frame)) <$> filter (λ h, write_ok h = true) connections).
Proof.
  unfold push_loop. rewrite push_loop_acc. cbn. f_equal.
  apply filter_ext_elem. intros x Hin. split.
  - intros Hn. destruct (write_ok x) eqn:Hx; [done|].
    exfalso. by apply Hn.
  - intros Hx [_ Hf]. congruence.
Qed.

(** C5. A push to an order with several registered streams, one of which
    fails to be written to: the frame is written once to every other
    stream, in registration order, the failing stream leaves the set and
    the set of the order is one smaller. *)
Theorem sse_push_one_failure (write_ok : handle → bool) (frame : value)
    (oid : string) (w : world) (connections : list handle) (bad : handle) :
  sseConnections w !! oid = Some connections →
  NoDup connections →
  (1 < length connections)%nat →
  bad ∈ connections →
  write_ok bad = false →
  (∀ h, h ∈ connections → h ≠ bad → write_ok h = true) →
  let w' := sse_push write_ok frame (Str oid) w in
  wire w' = wire w ++ ((λ h, (h, frame)) <$> set_delete bad connections) ∧
  (∀ h, h ∈ connections → h ≠ bad → h ∈ set_delete bad connections) ∧
  (bad ∉ set_delete bad connections) ∧
  sseConnections w' !! oid = Some (set_delete bad connections) ∧
  S (length (set_delete bad connections)) = length connections.
Proof.
  intros Hreg Hnd Hlen Hbad Hfail Hok w'.
  assert (Hfilter : filter (λ h, write_ok h = true) connections
                    = set_delete bad connections).
  { unfold set_delete. apply filter_ext_elem. intros x Hx. split.
    - intros Hx' ->. congruence.
    - intros Hne. by apply Hok. }
  assert (Hw' : w' = {| orders := orders w;
                        driver_locations := driver_locations w;
                        cache := cache w;
                        sseConnections :=
                          <[oid := set_delete bad connections]> (sseConnections w);
                        wire := wire w ++
                          ((λ h, (h, frame)) <$> set_delete bad connections) |}).
  { subst w'. unfold sse_push. rewrite Hreg.
    rewrite bool_decide_true by lia.
    rewrite push_loop_eq, Hfilter. done. }
  rewrite Hw'. cbn. repeat split.
  - intros h Hh Hne. by apply set_delete_elem.
  - apply set_delete_not_elem.
  - apply lookup_insert_eq.
  - by apply set_delete_length.
Qed.

Lemma sse_push_one_failure_witness :
  let w := {| orders := []; driver_locations := []; cache := ∅;
              sseConnections := {[ "17" := [1; 2; 3]%nat ]}; wire := [] |} in
  let write_ok := λ h : handle, negb (h =? 2)%nat in
  let frame := location_update_frame (int 40) (int (-74))
                 (Str "2024-05-01T12:00:00.000Z") (Str "17") in
  let w' := sse_push write_ok frame (Str "17") w in
  wire w' = [(1%nat, frame); (3%nat, frame)] ∧
  sseConnections w' !! "17" = Some [1; 3]%nat.
Proof.
  intros w write_ok frame w'.
  destruct (sse_push_one_failure write_ok frame "17" w
              [1; 2; 3]%nat 2%nat) as (Hwire & _ & _ & Hreg & _).
  - reflexivity.
  - apply (bool_decide_unpack _). vm_compute. exact I.
  - cbn. lia.
  - apply (bool_decide_unpack _). vm_compute. exact I.
  - reflexivity.
  - intros h Hh Hne. unfold write_ok.
    apply negb_true_iff, Nat.eqb_neq. exact Hne.
  - split; [exact Hwire | exact Hreg].
Defined.

(** Closing the last stream of an order removes the order's key: the
    close handler never leaves an empty set behind. *)
Lemma on_close_no_empty_entry (oid : string) (res : handle)
    (reg : gmap string (list handle)) :
  no_empty_entry reg → no_empty_entry (on_close oid res reg).
Proof.
  intros Hreg k. unfold on_close.
  destruct (reg !! oid) as [connections|] eqn:Hoid; [|apply Hreg].
  case_bool_decide as Hlen.
  - destruct (decide (k = oid)) as [->|Hne].
    + by rewrite lookup_delete_eq.
    + rewrite lookup_delete_ne by done. apply Hreg.
  - destruct (decide (k = oid)) as [->|Hne].
    + rewrite lookup_insert_eq. intros [= Heq]. by rewrite Heq in Hlen.
    + rewrite lookup_insert_ne by done. apply Hreg.
Qed.

(** C6. The registry after the only stream of order 17 fails: the push
    loop and the heartbeat both leave the key mapped to the empty set,
    where the close handler deletes the key. *)
Theorem failure_paths_keep_empty_entry :
  let w := {| orders := []; driver_locations := []; cache := ∅;
              sseConnections := {[ "17" := [1%nat] ]}; wire := [] |} in
  let frame := location_update_frame (int 40) (int (-74))
                 (Str "2024-05-01T12:00:00.000Z") (Str "17") in
  no_empty_entry (sseConnections w) ∧
  sseConnections (sse_push (λ _, false) frame (Str "17") w) !! "17"
    = Some [] ∧
  sseConnections (heartbeat_tick "2024-05-01T12:00:30.000Z" (λ _, false)
                    "17" 1%nat w) !! "17" = Some [] ∧
  on_close "17" 1%nat (sseConnections w) !! "17" = None.
Proof.
  intros w frame. split; [|split; [|split]].
  - intros k. cbn. destruct (decide (k = "17")) as [->|Hne].
    + by rewrite lookup_singleton_eq.
    + by rewrite lookup_singleton_ne.
  - unfold sse_push. subst w. cbn [sseConnections].
    rewrite lookup_singleton_eq.
    rewrite bool_decide_true by (cbn; lia).
    cbn [sseConnections]. rewrite lookup_insert_eq.
    by rewrite push_loop_eq.
  - unfold heartbeat_tick. subst w. cbn [sseConnections].
    rewrite lookup_singleton_eq. cbn [sseConnections].
    by rewrite lookup_insert_eq.
  - unfold on_close. subst w. cbn [sseConnections].
    rewrite lookup_singleton_eq.
    rewrite bool_decide_true by done. by rewrite lookup_delete_eq.
Qed.

(** The three frames the stream code builds have the two-field shape. *)
Lemma location_update_frame_shape (lat lng ts oid : value) :
  stream_frame_shape (location_update_frame lat lng ts oid).
Proof. repeat split; cbn; eauto. Qed.

Lemma connection_established_frame_shape (oid : value) :
  stream_frame_shape (connection_established_frame oid).
Proof. repeat split; cbn; eauto. Qed.

Lemma heartbeat_frame_shape (now : string) :
  stream_frame_shape (heartbeat_frame now).
Proof. repeat split; cbn; eauto. Qed.

(** What the push at the end of [PUT /location] adds to the wire. *)
Lemma sse_push_wire (write_ok : handle → bool) (frame : value) (oid : value)
    (w : world) :
  ∃ new, wire (sse_push write_ok frame oid w) = wire w ++ new ∧
         Forall (λ e, e.2 = frame) new.
Proof.
  assert (Hnone : ∃ new, wire w = wire w ++ new ∧ Forall (λ e, e.2 = frame) new).
  { exists []. by rewrite app_nil_r. }
  unfold sse_push. destruct oid as [| | | |key| |]; try exact Hnone.
  destruct (sseConnections w !! key) as [cs|]; [|exact Hnone].
  case_bool_decide; [|exact Hnone].
  eexists. split; [reflexivity|]. rewrite push_loop_eq. cbn.
  apply Forall_fmap, Forall_forall. done.
Qed.

(** C7, as the stream code has it.  Whatever [PUT /location], the
    heartbeat timer and the opening of a stream write to a consumer has
    exactly the two top-level fields [type] (a string) and [data] (an
    object), and no top-level [timestamp]; a heartbeat has type
    "heartbeat" and carries its timestamp as the one field of [data]; a
    location update carries its timestamp inside [data] too. *)
Theorem stream_frames_have_type_and_data :
  (∀ S2N pF TS now write_ok driverId req w,
     ∃ new, wire (put_location S2N pF TS now write_ok driverId req w).2
              = wire w ++ new ∧
            Forall (λ e, stream_frame_shape e.2 ∧
                         prop "timestamp" e.2 = None ∧
                         ∃ d, prop "data" e.2 = Some d ∧
                              prop "timestamp" d = Some (Str now)) new) ∧
  (∀ now write_ok oid res w,
     ∃ new, wire (heartbeat_tick now write_ok oid res w) = wire w ++ new ∧
            Forall (λ e, e.2 = heartbeat_frame now) new) ∧
  (∀ oid customerId res w,
     match open_stream oid customerId res w with
     | Some w' => ∃ new, wire w' = wire w ++ new ∧
                         Forall (λ e, stream_frame_shape e.2 ∧
                                      prop "timestamp" e.2 = None) new
     | None => True
     end) ∧
  (∀ now,
     stream_frame_shape (heartbeat_frame now) ∧
     prop "type" (heartbeat_frame now) = Some (Str "heartbeat") ∧
     prop "data" (heartbeat_frame now) = Some (Obj [("timestamp", Str now)]) ∧
     prop "timestamp" (heartbeat_frame now) = None).
Proof.
  split; [|split; [|split]].
  - intros S2N pF TS now write_ok driverId req w. unfold put_location.
    destruct (_ || _ || _).
    { exists []. by rewrite app_nil_r. }
    destruct (_ || _ || _ || _).
    { exists []. by rewrite app_nil_r. }
    destruct (driver_order_check _ _ _) as [order|].
    2:{ exists []. by rewrite app_nil_r. }
    cbn [snd].
    match goal with
    | |- context [sse_push ?a ?b ?c ?d] =>
        destruct (sse_push_wire a b c d) as (new & Hnew & Hall)
    end.
    exists new. split; [exact Hnew|].
    eapply Forall_impl; [exact Hall|]. intros [h f] Hf. cbn in Hf. subst f.
    cbn [snd]. split; [apply location_update_frame_shape|].
    split; [reflexivity|]. eexists. split; reflexivity.
  - intros now write_ok oid res w. unfold heartbeat_tick.
    destruct (write_ok res).
    + eexists. split; [reflexivity|]. by repeat constructor.
    + destruct (sseConnections w !! oid); exists []; by rewrite app_nil_r.
  - intros oid customerId res w. unfold open_stream.
    destruct (customer_order_check _ _ _); [|done].
    eexists. split; [reflexivity|].
    apply Forall_app. split.
    + repeat constructor; cbn; eauto.
    + destruct (cache w !! _) as [loc|]; [|constructor].
      destruct (truthy loc); [|constructor].
      repeat constructor; cbn; eauto.
  - intros now. split; [apply heartbeat_frame_shape|]. by repeat split.
Qed.

(** C7, as the specification words it, fails on the heartbeat frame: it
    has no top-level [timestamp], and its [data] is not empty. *)
Lemma heartbeat_frame_not_spec_shape :
  ¬ spec_frame_shape (heartbeat_frame "2024-05-01T12:00:30.000Z") ∧
  ¬ spec_heartbeat_shape (heartbeat_frame "2024-05-01T12:00:30.000Z").
Proof.
  split.
  - intros (_ & _ & ts & Hts). cbn in Hts. discriminate.
  - intros (_ & Hdata). cbn in Hdata. discriminate.
Qed.

(** Zero is inside both coordinate ranges: the range test of
    [PUT /location] does not reject it. *)
Lemma zero_in_range (S2N : string → number) (TS : value → string) (v : value) :
  is_zero v = true →
  lt (ToNumber S2N TS v) (Num (inject_Z (-90))) = false ∧
  lt (Num (inject_Z 90)) (ToNumber S2N TS v) = false ∧
  lt (ToNumber S2N TS v) (Num (inject_Z (-180))) = false ∧
  lt (Num (inject_Z 180)) (ToNumber S2N TS v) = false.
Proof.
  destruct v as [| | |[|q]| | |]; try discriminate. cbn.
  intros Hq%Qeq_bool_iff.
  rewrite !negb_false_iff, !Qle_bool_iff, Hq. repeat split; discriminate.
Qed.

Lemma is_zero_falsy (v : value) : is_zero v = true → truthy v = false.
Proof.
  destruct v as [| | |[|q]| | |]; try discriminate. cbn.
  intros ->. done.
Qed.

(** C9. A location update whose latitude or longitude is the number 0 is
    answered 400 "Order ID, latitude, and longitude are required", which
    is the answer to the same request without that field, although 0
    passes the range test; the tables, the cache, the registry and the
    wire are left as they were. *)
Theorem put_location_zero_rejected (S2N pF : string → number)
    (TS : value → string) (now : string) (write_ok : handle → bool)
    (driverId : Z) (req : location_request) (w : world) :
  is_zero (latitude req) = true ∨ is_zero (longitude req) = true →
  put_location S2N pF TS now write_ok driverId req w
  = ({| code := 400;
        body := error_body "Order ID, latitude, and longitude are required" |},
     w) ∧
  put_location S2N pF TS now write_ok driverId req w
  = put_location S2N pF TS now write_ok driverId
      {| orderId := orderId req;
         latitude := if is_zero (latitude req) then Undefined else latitude req;
         longitude := if is_zero (longitude req) then Undefined else longitude req |}
      w ∧
  (∀ v, is_zero v = true →
     lt (ToNumber S2N TS v) (Num (inject_Z (-90)))
     || lt (Num (inject_Z 90)) (ToNumber S2N TS v)
     || lt (ToNumber S2N TS v) (Num (inject_Z (-180)))
     || lt (Num (inject_Z 180)) (ToNumber S2N TS v) = false).
Proof.
  intros Hzero.
  assert (Hfirst : ∀ r, is_zero (latitude r) = true ∨ is_zero (longitude r) = true →
            put_location S2N pF TS now write_ok driverId r w
            = ({| code := 400;
                  body := error_body
                    "Order ID, latitude, and longitude are required" |}, w)).
  { intros r Hr. unfold put_location.
    destruct Hr as [Hr|Hr]; apply is_zero_falsy in Hr; rewrite Hr; cbn;
      by rewrite ?orb_true_r. }
  split; [by apply Hfirst|]. split.
  - rewrite Hfirst by done. unfold put_location. cbn [orderId latitude longitude].
    destruct Hzero as [Hz|Hz]; rewrite Hz; cbn; by rewrite ?orb_true_r.
  - intros v Hv. destruct (zero_in_range S2N TS v Hv) as (-> & -> & -> & ->).
    done.
Qed.

Lemma put_location_zero_rejected_witness :
  let req := {| orderId := Str "17"; latitude := int 0;
                longitude := Number (Num (-74006 # 1000)) |} in
  let w := {| orders := [{| id := "17"; status := "picked_up";
                            customer_id := 4; driver_id := Some 9%Z |}];
              driver_locations := []; cache := ∅;
              sseConnections := {[ "17" := [1%nat] ]}; wire := [] |} in
  (is_zero (latitude req) = true ∨ is_zero (longitude req) = true) ∧
  put_location (λ _, NaN) (λ _, NaN) (λ _, "") "2024-05-01T12:00:00.000Z"
               (λ _, true) 9 req w
  = ({| code := 400;
        body := error_body "Order ID, latitude, and longitude are required" |},
     w).
Proof.
  intros req w.
  assert (Hz : is_zero (latitude req) = true ∨ is_zero (longitude req) = true)
    by (left; reflexivity).
  split; [exact Hz|].
  exact (proj1 (put_location_zero_rejected (λ _, NaN) (λ _, NaN) (λ _, "")
                  "2024-05-01T12:00:00.000Z" (λ _, true) 9 req w Hz)).
Defined.

End DriverFacts.

(** ** Order status updates *)
Section OrdersFacts.
Import JS Orders.

(** An update that returns no row changed no row. *)
Lemma sql_update_rows (matches : order_row → bool) (set : order_row → order_row)
    (os : list order_row) :
  (sql_update matches set os).2 = [] ↔ ¬ Exists (λ o, matches o = true) os.
Proof.
  unfold sql_update. cbn [snd]. split.
  - intros Hnil%fmap_nil_inv Hex. apply Exists_exists in Hex as (o & Ho & Hm).
    exact (filter_nil_not_elem_of _ _ o Hnil Hm Ho).
  - intros Hnex.
    assert (Hnil : filter (λ o, matches o = true) os = []); [|by rewrite Hnil].
    induction os as [|o os IH]; [done|].
    rewrite filter_cons. case_decide as Hm.
    + exfalso. apply Hnex. by left.
    + apply IH. intros Hex. apply Hnex. by right.
Qed.

Lemma sql_update_unchanged (matches : order_row → bool)
    (set : order_row → order_row) (os : list order_row) :
  (sql_update matches set os).2 = [] → (sql_update matches set os).1 = os.
Proof.
  rewrite sql_update_rows. intros Hnex. unfold sql_update. cbn [fst].
  induction os as [|o os IH]; [done|]. cbn.
  destruct (matches o) eqn:Hm.
  - exfalso. apply Hnex. by left.
  - f_equal. apply IH. intros Hex. apply Hnex. by right.
Qed.

Lemma includes_subseteq (l1 l2 : list string) (v : value) :
  l1 ⊆ l2 → includes l1 v = true → includes l2 v = true.
Proof.
  intros Hsub. destruct v; cbn; try done.
  rewrite !bool_decide_eq_true. apply Hsub.
Qed.

Lemma put_status_cases (now : string) (req : status_request) (w : world) :
  let r := put_status now req w in
  (code r.1 = 200%Z ↔
     may_set (userType req) (new_status req) = true ∧
     Exists (λ o, row_matches (restaurants w) req o = true) (orders w)) ∧
  (code r.1 = 200%Z ∨
     (r.2 = w ∧ ∃ msg, prop "error" (body r.1) = Some (Str msg))) ∧
  (code r.1 = 200%Z →
     orders r.2 = (λ o, if row_matches (restaurants w) req o
                        then row_set req o else o) <$> orders w).
Proof.
  cbn zeta. unfold put_status, may_set, row_matches, row_set.
  destruct (includes validStatuses (new_status req)) eqn:Hvalid; cbn [negb].
  2:{ cbn. split; [|split]; [|right; eauto|done].
      split; [done|]. intros [Hset _]. exfalso.
      assert (includes validStatuses (new_status req) = true); [|congruence].
      destruct (String.eqb (userType req) "restaurant"); cbn in Hset.
      - rewrite orb_false_r in Hset.
        eapply includes_subseteq; [|exact Hset]. set_solver.
      - destruct (String.eqb (userType req) "driver"); [|done]. cbn in Hset.
        eapply includes_subseteq; [|exact Hset]. set_solver. }
  destruct (String.eqb (userType req) "restaurant") eqn:Hrest.
  - destruct (includes ["preparing"; "ready"] (new_status req)) eqn:Hinc; cbn -[sql_update].
    2:{ split; [|split]; [|right; eauto|done]. split; [done|]. by intros [? _]. }
    destruct (sql_update _ _ _) as [orders' rows] eqn:Hupd.
    pose proof (sql_update_rows
      (restaurant_match (restaurants w) (orderId req) (userId req))
      (with_status (status_text (new_status req))) (orders w)) as Hrows.
    pose proof (sql_update_unchanged
      (restaurant_match (restaurants w) (orderId req) (userId req))
      (with_status (status_text (new_status req))) (orders w)) as Hsame.
    rewrite Hupd in Hrows, Hsame. cbn [fst snd] in Hrows, Hsame.
    destruct rows as [|updatedOrder rows]; cbn -[sql_update].
    + split; [|split]; [|right|done].
      * split; [done|]. intros [_ Hex]. by apply Hrows in Hex.
      * rewrite Hsame by done. split; [by destruct w|eauto].
    + split; [|split]; [|by left|].
      * split; [|done]. intros _. split; [done|].
        destruct (decide (Exists (λ o, restaurant_match (restaurants w)
          (orderId req) (userId req) o = true) (orders w))) as [|Hn]; [done|].
        by apply Hrows in Hn.
      * intros _. unfold sql_update in Hupd. by injection Hupd as <- _.
  - destruct (String.eqb (userType req) "driver") eqn:Hdrv; cbn -[sql_update].
    2:{ split; [|split]; [|right; eauto|done]. split; [done|]. by intros [? _]. }
    destruct (includes ["picked_up"; "delivered"] (new_status req)) eqn:Hinc; cbn -[sql_update].
    2:{ split; [|split]; [|right; eauto|done]. split; [done|]. by intros [? _]. }
    destruct (sql_update _ _ _) as [orders' rows] eqn:Hupd.
    pose proof (sql_update_rows
      (driver_match (orderId req) (userId req))
      (with_status_driver (status_text (new_status req)) (userId req))
      (orders w)) as Hrows.
    pose proof (sql_update_unchanged
      (driver_match (orderId req) (userId req))
      (with_status_driver (status_text (new_status req)) (userId req))
      (orders w)) as Hsame.
    rewrite Hupd in Hrows, Hsame. cbn [fst snd] in Hrows, Hsame.
    destruct rows as [|updatedOrder rows]; cbn -[sql_update].
    + split; [|split]; [|right|done].
      * split; [done|]. intros [_ Hex]. by apply Hrows in Hex.
      * rewrite Hsame by done. split; [by destruct w|eauto].
    + split; [|split]; [|by left|].
      * split; [|done]. intros _. split; [done|].
        destruct (decide (Exists (λ o, driver_match (orderId req) (userId req) o
          = true) (orders w))) as [|Hn]; [done|].
        by apply Hrows in Hn.
      * intros _. unfold sql_update in Hupd. by injection Hupd as <- _.
Qed.

Lemma socket_update_cases (now : string) (sd : socket_data) (oid : string)
    (status_v estimatedTime : value) (w : world) :
  let sr := socket_update_status now sd oid status_v estimatedTime w in
  (refused sr.1 ↔
     ¬ ∃ rid uid, socket_ready sd = Some (rid, uid) ∧
         includes ["preparing"; "ready"; "cancelled"] status_v = true ∧
         Exists (λ o, restaurant_match (restaurants w) oid uid o = true)
                (orders w)) ∧
  (refused sr.1 ∨
     ∃ rid uid, socket_ready sd = Some (rid, uid) ∧
       orders sr.2 = (λ o, if restaurant_match (restaurants w) oid uid o
                           then with_status (status_text status_v) o else o)
                     <$> orders w) ∧
  (refused sr.1 → sr.2 = w).
Proof.
  cbn zeta. unfold socket_update_status.
  destruct (socket_ready sd) as [[rid uid]|] eqn:Hready.
  2:{ cbn. split; [|split]; [|left; by eexists|done].
      split; [|intros _; by eexists]. intros _ (? & ? & ? & _). done. }
  destruct (includes _ status_v) eqn:Hinc; cbn -[sql_update].
  2:{ split; [|split]; [|left; by eexists|done].
      split; [|intros _; by eexists].
      intros _ (? & ? & _ & ? & _). congruence. }
  destruct (sql_update _ _ _) as [orders' rows] eqn:Hupd.
  pose proof (sql_update_rows (restaurant_match (restaurants w) oid uid)
                (with_status (status_text status_v)) (orders w)) as Hrows.
  pose proof (sql_update_unchanged (restaurant_match (restaurants w) oid uid)
                (with_status (status_text status_v)) (orders w)) as Hsame.
  rewrite Hupd in Hrows, Hsame. cbn [fst snd] in Hrows, Hsame.
  destruct rows as [|order rows]; cbn -[sql_update].
  - split; [|split]; [|left; by eexists|].
    + split; [|intros _; by eexists].
      intros _ (? & ? & [= <- <-] & _ & Hex). by apply Hrows in Hex.
    + intros _. rewrite Hsame by done. by destruct w.
  - assert (Hnot : ¬ refused
      [{| dest := ToRoom ("restaurant-" +:+ rid);
          event := "order-status-updated";
          payload := Obj [("orderId", Str (id order));
                          ("status", Str (status order));
                          ("updatedBy", int uid); ("timestamp", Str now);
                          ("estimatedTime", estimatedTime)] |};
       {| dest := ToRoom ("customer-" +:+ pretty (customer_id order));
          event := "order-status-update";
          payload := Obj [("orderId", Str (id order));
                          ("status", Str (status order));
                          ("message", Str (getStatusMessage (status order)));
                          ("estimatedTime", estimatedTime);
                          ("timestamp", Str now)] |};
       {| dest := ToSocket; event := "status-update-confirmed";
          payload := Obj [("orderId", Str oid); ("status", status_v);
                          ("message", Str "Order status updated successfully")] |}]).
    { intros [p Hp]. discriminate. }
    split; [|split].
    + split; [done|]. intros Hn. exfalso. apply Hn. exists rid, uid.
      split; [done|]. split; [done|].
      destruct (decide (Exists (λ o, restaurant_match (restaurants w) oid uid o
        = true) (orders w))) as [|Hne]; [done|].
      by apply Hrows in Hne.
    + right. exists rid, uid. split; [done|].
      unfold sql_update in Hupd. by injection Hupd as <- _.
    + done.
Qed.

(** What decides a status update.  The route answers 200 exactly when
    the requested status is one the caller's role may set (restaurant:
    preparing, ready; driver: picked_up, delivered) and a row of the
    caller has the order id; otherwise it answers with an error and
    leaves the table and the cache as they were.  The socket event is
    refused with one [error] event, and the table left as it was, exactly
    when the socket has not joined a restaurant, the status is none of
    preparing, ready, cancelled, or no order of the restaurant's user has
    the id.  In both, an accepted request writes the requested status
    into every row it reaches: the status the order has does not enter
    the decision. *)
Theorem status_update_gate (now : string) (req : status_request) (w : world)
    (sd : socket_data) (oid : string) (status_v estimatedTime : value) :
  let r := put_status now req w in
  let sr := socket_update_status now sd oid status_v estimatedTime w in
  ((code r.1 = 200%Z ↔
      may_set (userType req) (new_status req) = true ∧
      Exists (λ o, row_matches (restaurants w) req o = true) (orders w)) ∧
   (code r.1 = 200%Z ∨
      (r.2 = w ∧ ∃ msg, prop "error" (body r.1) = Some (Str msg))) ∧
   (code r.1 = 200%Z →
      orders r.2 = (λ o, if row_matches (restaurants w) req o
                         then row_set req o else o) <$> orders w)) ∧
  ((refused sr.1 ↔
      ¬ ∃ rid uid, socket_ready sd = Some (rid, uid) ∧
          includes ["preparing"; "ready"; "cancelled"] status_v = true ∧
          Exists (λ o, restaurant_match (restaurants w) oid uid o = true)
                 (orders w)) ∧
   (refused sr.1 ∨
      ∃ rid uid, socket_ready sd = Some (rid, uid) ∧
        orders sr.2 = (λ o, if restaurant_match (restaurants w) oid uid o
                            then with_status (status_text status_v) o else o)
                      <$> orders w) ∧
   (refused sr.1 → sr.2 = w)).
Proof.
  split; [apply put_status_cases | apply socket_update_cases].
Qed.

(** C1.  A status update that is no step of the order state machine is
    not refused.  The comments of the route name the chain (restaurants:
    confirmed -> preparing -> ready; drivers: ready -> picked_up ->
    delivered), and the accept, ready and cancel routes test the status
    the order has; the status route and the socket event do not.  A
    driver moves a confirmed order straight to delivered: the answer is
    200, the row and the cached status say delivered.  A restaurant sets
    a preparing order to preparing again, by the route and by the
    socket: both are accepted. *)
Lemma invalid_transitions_accepted :
  let rests := [{| rest_id := 2; rest_user := 5 |}] in
  let order s := {| id := "1"; customer_id := 4; restaurant_id := 2;
                    driver_id := None; status := s |} in
  let cached s := Obj [("orderId", Str "1"); ("status", Str s);
                       ("lastUpdated", Str "2024-05-01T11:00:00.000Z")] in
  let w s := {| orders := [order s]; restaurants := rests;
                cache := {[ "order_status:1" := cached s ]} |} in
  let now := "2024-05-01T12:00:00.000Z" in
  let r1 := put_status now {| orderId := "1"; new_status := Str "delivered";
                              userId := 9; userType := "driver" |}
                       (w "confirmed") in
  let r2 := put_status now {| orderId := "1"; new_status := Str "preparing";
                              userId := 5; userType := "restaurant" |}
                       (w "preparing") in
  let r3 := socket_update_status now
              {| restaurantId := Some "2"; socket_userId := Some 5%Z |}
              "1" (Str "preparing") Undefined (w "preparing") in
  spec_valid_transition "driver" "confirmed" "delivered" = false ∧
  spec_valid_transition "restaurant" "preparing" "preparing" = false ∧
  (code r1.1 = 200%Z ∧ status_of "1" (orders r1.2) = Some "delivered" ∧
   (cache r1.2 !! "order_status:1") ≫= prop "status" = Some (Str "delivered")) ∧
  (code r2.1 = 200%Z ∧ status_of "1" (orders r2.2) = Some "preparing") ∧
  (¬ refused r3.1 ∧ status_of "1" (orders r3.2) = Some "preparing").
Proof.
  cbn zeta. split; [reflexivity|]. split; [reflexivity|].
  split; [|split].
  - split; [reflexivity|]. split; [reflexivity|].
    vm_compute. reflexivity.
  - split; reflexivity.
  - split; [|reflexivity]. intros [p Hp]. cbn in Hp. discriminate.
Qed.

End OrdersFacts.

(** ** Announcements *)
Section AnnouncementFacts.
Import JS SocketIO Announcements.

Lemma valid_userType_room (ut room : string) :
  ut ∈ validUserTypes → room ∈ tier_rooms → room ≠ "announcements-" +:+ ut.
Proof.
  unfold validUserTypes, tier_rooms. rewrite !elem_of_cons, !elem_of_nil.
  intros [->|[->|[->|[->|[]]]]] [->|[->|[->|[]]]]; cbn; discriminate.
Qed.

Lemma all_room_not_tier (room : string) :
  room ∈ tier_rooms → room ≠ "announcements-all".
Proof.
  unfold tier_rooms. rewrite !elem_of_cons, !elem_of_nil.
  intros [->|[->|[->|[]]]]; discriminate.
Qed.

Lemma join_other_room (sid : nat) (room room' : string) (s : io value) :
  room' ≠ room → rooms (join sid room s) !! room' = rooms s !! room'.
Proof. intros Hne. cbn. by rewrite lookup_insert_ne. Qed.

Lemma leave_other_room (sid : nat) (room room' : string) (s : io value) :
  room' ≠ room → rooms (leave sid room s) !! room' = rooms s !! room'.
Proof.
  intros Hne. unfold leave. destruct (rooms s !! room); [|done]. cbn.
  case_bool_decide; [by rewrite lookup_delete_ne|by rewrite lookup_insert_ne].
Qed.

Lemma includes_elem (l : list string) (v : value) :
  includes l v = true → ∃ s, v = Str s ∧ s ∈ l.
Proof.
  destruct v; cbn; try done. rewrite bool_decide_eq_true. eauto.
Qed.

Lemma join_NoDup (sid : nat) (room : string) (s : io value) :
  (∀ r ms, rooms s !! r = Some ms → NoDup ms) →
  ∀ r ms, rooms (join sid room s) !! r = Some ms → NoDup ms.
Proof.
  intros Hs r ms. cbn. destruct (decide (r = room)) as [->|Hne].
  - rewrite lookup_insert_eq. intros [= <-]. apply set_add_NoDup.
    unfold members. destruct (rooms s !! room) eqn:Hr; cbn.
    + by eapply Hs.
    + apply NoDup_nil_2.
  - rewrite lookup_insert_ne by done. apply Hs.
Qed.

Lemma leave_NoDup (sid : nat) (room : string) (s : io value) :
  (∀ r ms, rooms s !! r = Some ms → NoDup ms) →
  ∀ r ms, rooms (leave sid room s) !! r = Some ms → NoDup ms.
Proof.
  intros Hs r ms. unfold leave.
  destruct (rooms s !! room) as [ms0|] eqn:Hroom; [|apply Hs]. cbn.
  case_bool_decide.
  - destruct (decide (r = room)) as [->|Hne].
    + by rewrite lookup_delete_eq.
    + rewrite lookup_delete_ne by done. apply Hs.
  - destruct (decide (r = room)) as [->|Hne].
    + rewrite lookup_insert_eq. intros [= <-]. apply set_delete_NoDup.
      by eapply Hs.
    + rewrite lookup_insert_ne by done. apply Hs.
Qed.

Lemma step_tiers_empty (p : process) (e : event) :
  tiers_empty p → tiers_empty (step p e).
Proof.
  intros (Hrooms & Hsock & Hnd). destruct e as [sid userType token verified|sid].
  - cbn [step]. unfold subscribe_announcements.
    assert (Hkeep : ∀ ev pl, tiers_empty
      {| server := socket_emit sid ev pl (server p);
         sockets := <[sid := default fresh_socket (sockets p !! sid)]> (sockets p) |}).
    { intros ev pl. split; [exact Hrooms|]. split; [|exact Hnd].
      cbn. intros sid' sd ut.
      destruct (decide (sid' = sid)) as [->|Hne].
      - rewrite lookup_insert_eq. intros [= <-].
        destruct (sockets p !! sid) as [sd|] eqn:Hsd; cbn; [|done].
        by eapply Hsock.
      - rewrite lookup_insert_ne by done. apply Hsock. }
    destruct (truthy token); cbn [negb]; [|apply Hkeep].
    destruct verified as [uid|]; [|apply Hkeep].
    destruct (uid =? 0)%Z; [apply Hkeep|].
    destruct (includes validUserTypes userType) eqn:Hinc; cbn [negb];
      [|apply Hkeep].
    apply includes_elem in Hinc as (ut & -> & Hut).
    split; [|split]; cbn [server sockets fst snd socket_emit rooms].
    + intros room Hroom.
      rewrite join_other_room by (by apply all_room_not_tier).
      rewrite join_other_room by (by apply valid_userType_room).
      by apply Hrooms.
    + intros sid' sd ut'. destruct (decide (sid' = sid)) as [->|Hne].
      * rewrite lookup_insert_eq. by intros [= <-] [= <-].
      * rewrite lookup_insert_ne by done. apply Hsock.
    + by do 2 apply join_NoDup.
  - cbn [step]. split; [|split; [exact Hsock|]]; cbn [server].
    all: unfold unsubscribe_announcements.
    all: assert (Hsd : ∀ ut, socket_userType
                    (default fresh_socket (sockets p !! sid)) = Some ut →
                  ut ∈ validUserTypes)
           by (intros ut; destruct (sockets p !! sid) as [sd|] eqn:Hsd; cbn;
               [by eapply Hsock|done]).
    all: destruct (socket_userType _) as [ut|]; [|done].
    all: destruct (String.eqb ut ""); cbn [negb]; [done|].
    all: cbn [socket_emit rooms].
    + intros room Hroom.
      rewrite leave_other_room by (by apply all_room_not_tier).
      rewrite leave_other_room
        by (apply valid_userType_room; [by apply Hsd|done]).
      by apply Hrooms.
    + by do 2 apply leave_NoDup.
Qed.

Lemma run_tiers_empty (evs : list event) : tiers_empty (run evs).
Proof.
  unfold run. induction evs as [|e evs IH] using rev_ind.
  - split; [done|]. split; cbn.
    + intros sid sd ut Hsd. by rewrite lookup_empty in Hsd.
    + intros room ms Hroom. by rewrite lookup_empty in Hroom.
  - rewrite foldl_app. cbn. by apply step_tiers_empty.
Qed.

(** A message on a channel reaches the members of the room of the same
    name, for the four channels a process subscribes to. *)
Lemma on_message_outbox (channel : string) (data : value) (s : io value) :
  channel ∈ ["announcements-all"; "announcements-customers";
             "announcements-restaurants"; "announcements-drivers"] →
  on_message channel data s =
  io_to_emit channel "new-announcement" (new_announcement data) s.
Proof.
  rewrite !elem_of_cons, elem_of_nil.
  intros [->|[->|[->|[->|[]]]]]; reflexivity.
Qed.

Lemma io_to_emit_empty_room (room event : string) (p : value) (s : io value) :
  rooms s !! room = None → io_to_emit room event p s = s.
Proof.
  intros Hroom. unfold io_to_emit, members. rewrite Hroom. cbn.
  rewrite app_nil_r. by destruct s.
Qed.

(** An announcement for one audience tier is sent to no socket. *)
Lemma tier_announcement_reaches_nobody (now : string) (a : announcement_row)
    (p : process) :
  tiers_empty p →
  target_audience a ∈ ["customers"; "restaurants"; "drivers"] →
  deliver (broadcastAnnouncement now a) (server p) = server p.
Proof.
  intros (Hrooms & _ & _) Htarget. unfold broadcastAnnouncement.
  rewrite !elem_of_cons, elem_of_nil in Htarget.
  destruct Htarget as [->|[->|[->|[]]]]; cbn -[on_message].
  all: rewrite on_message_outbox by repeat constructor.
  all: apply io_to_emit_empty_room, Hrooms; repeat constructor.
Qed.

(** An announcement for everybody is sent once to each member of the room
    [announcements-all]: the three other channels it is published on have
    empty rooms. *)
Lemma all_announcement_outbox (now : string) (a : announcement_row)
    (p : process) :
  tiers_empty p →
  target_audience a = "all" →
  deliver (broadcastAnnouncement now a) (server p) =
  io_to_emit "announcements-all" "new-announcement"
             (new_announcement (announcementData now a)) (server p).
Proof.
  intros (Hrooms & _ & _) Htarget. unfold broadcastAnnouncement.
  rewrite Htarget. cbn -[on_message].
  rewrite !on_message_outbox by repeat constructor.
  rewrite (io_to_emit_empty_room "announcements-drivers")
    by (cbn; apply Hrooms; repeat constructor).
  rewrite (io_to_emit_empty_room "announcements-restaurants")
    by (cbn; apply Hrooms; repeat constructor).
  by rewrite (io_to_emit_empty_room "announcements-customers")
    by (cbn; apply Hrooms; repeat constructor).
Qed.

Lemma received_app (sid : nat) (event : string) (rs : gmap string (list nat))
    (out new : list (nat * (string * value))) :
  received sid event {| rooms := rs; outbox := out ++ new |} =
  received sid event {| rooms := rs; outbox := out |} ++
  received sid event {| rooms := rs; outbox := new |}.
Proof. unfold received. cbn. apply omap_app. Qed.

(** What a socket receives of one emit to a room: the payload, once, if
    it is a member, and nothing otherwise. *)
Lemma received_room_emit (sid : nat) (event : string) (p : value)
    (rs : gmap string (list nat)) (ms : list nat) :
  NoDup ms →
  received sid event {| rooms := rs; outbox := (λ m, (m, (event, p))) <$> ms |}
  = if bool_decide (sid ∈ ms) then [p] else [].
Proof.
  intros Hnd. unfold received. cbn.
  induction Hnd as [|m ms Hm Hms IH]; [done|].
  cbn. rewrite IH. destruct (decide (m = sid)) as [->|Hne].
  - rewrite (bool_decide_true (sid = sid ∧ event = event)) by done.
    rewrite (bool_decide_true (sid ∈ sid :: ms)) by left.
    by rewrite (bool_decide_false (sid ∈ ms)).
  - rewrite (bool_decide_false (m = sid ∧ event = event)) by tauto.
    destruct (decide (sid ∈ ms)) as [Hin|Hin].
    + rewrite (bool_decide_true (sid ∈ ms)) by done.
      by rewrite (bool_decide_true (sid ∈ m :: ms)) by (by right).
    + rewrite (bool_decide_false (sid ∈ ms)) by done.
      rewrite (bool_decide_false (sid ∈ m :: ms)); [done|].
      rewrite elem_of_cons. intros [->|?]; done.
Qed.

Lemma has_id_new_announcement (now : string) (a : announcement_row) :
  has_id (id a) (new_announcement (announcementData now a)) = true.
Proof. cbn. apply Qeq_bool_iff. reflexivity. Qed.

(** After any history of subscriptions, an announcement for everybody
    adds exactly one copy to what each socket of [announcements-all] has
    received, and none to the others. *)
Lemma all_announcement_once (now : string) (a : announcement_row)
    (evs : list event) (sid : nat) :
  target_audience a = "all" →
  let s := server (run evs) in
  copies (id a) sid (deliver (broadcastAnnouncement now a) s) =
  (copies (id a) sid s +
   if bool_decide (sid ∈ members "announcements-all" s) then 1 else 0)%nat.
Proof.
  intros Htarget s. pose proof (run_tiers_empty evs) as Hinv.
  subst s. rewrite all_announcement_outbox by done.
  destruct Hinv as (_ & _ & Hnd).
  unfold copies, io_to_emit. destruct (server (run evs)) as [rs out] eqn:Hs.
  cbn [rooms outbox] in *. rewrite received_app, filter_app, length_app.
  f_equal. rewrite received_room_emit.
  - case_bool_decide; [|done]. rewrite filter_cons_True; [done|].
    apply has_id_new_announcement.
  - unfold members. cbn. destruct (rs !! "announcements-all") eqn:Hr; cbn.
    + by eapply Hnd.
    + apply NoDup_nil_2.
Qed.

(** C2, at the announcement the code loses.  A customer subscribes with
    the user type the handler accepts, "customer", and is put in the rooms
    announcements-customer and announcements-all.  An announcement for the
    audience "customers" is published on announcements-customers, whose
    callback emits to the room announcements-customers: the subscriber is
    sent no copy.  The same subscriber is sent an announcement for
    everybody once. *)
Theorem customers_announcement_not_delivered :
  let p := run [Subscribe 1 (Str "customer") (Str "jwt") (Some 4%Z)] in
  let a audience := {| id := 7; title := "Notice"; message := "Free delivery";
                       announcement_type := "promotion";
                       target_audience := audience; expires_at := Null |} in
  let now := "2024-05-01T12:00:00.000Z" in
  members "announcements-customer" (server p) = [1%nat] ∧
  members "announcements-all" (server p) = [1%nat] ∧
  broadcastAnnouncement now (a "customers")
    = [("announcements-customers", announcementData now (a "customers"))] ∧
  copies 7 1 (deliver (broadcastAnnouncement now (a "customers")) (server p))
    = 0%nat ∧
  copies 7 1 (deliver (broadcastAnnouncement now (a "all")) (server p))
    = 1%nat.
Proof.
  cbn zeta. repeat split; vm_compute; reflexivity.
Qed.

End AnnouncementFacts.

(** ** Support chat *)
Section ChatFacts.
Import JS SocketIO Chat.

Lemma trim_start_length (t : text) : (length (trim_start t) ≤ length t)%nat.
Proof.
  induction t as [|c t IH]; [done|]. cbn. destruct (is_whitespace c); cbn; lia.
Qed.

Lemma trim_length (t : text) : (length (trim t) ≤ length t)%nat.
Proof.
  unfold trim, trim_end. rewrite length_reverse.
  etransitivity; [apply trim_start_length|].
  rewrite length_reverse. apply trim_start_length.
Qed.

(** *** Trimming, without reference to [trim] *)

Lemma whitespace_only_Forall (t : text) :
  whitespace_only t = true ↔ Forall (λ c, is_whitespace c = true) t.
Proof.
  unfold whitespace_only. induction t as [|c t IH]; cbn.
  - split; [constructor|done].
  - rewrite andb_true_iff, Forall_cons, IH. done.
Qed.

Lemma trim_start_split (t : text) :
  ∃ pre, t = pre ++ trim_start t ∧
         Forall (λ c, is_whitespace c = true) pre ∧
         (∀ c, head (trim_start t) = Some c → is_whitespace c = false).
Proof.
  induction t as [|c t IH].
  - exists []. split; [done|]. split; [constructor|done].
  - cbn [trim_start]. destruct (is_whitespace c) eqn:Hc.
    + destruct IH as (pre & Ht & Hpre & Hhead). exists (c :: pre).
      split; [cbn; by f_equal|]. split; [by constructor|done].
    + exists []. split; [done|]. split; [constructor|].
      cbn. by intros ? [= <-].
Qed.

Lemma trim_start_whitespace (t : text) :
  Forall (λ c, is_whitespace c = true) t → trim_start t = [].
Proof.
  induction 1 as [|c t Hc _ IH]; [done|]. cbn. by rewrite Hc.
Qed.

(** [trim] strips the white space of the two ends and nothing else. *)
Lemma trim_stripped (t : text) : stripped t (trim t).
Proof.
  unfold trim, trim_end.
  destruct (trim_start_split t) as (pre & Ht & Hpre & Hhead).
  destruct (trim_start_split (reverse (trim_start t)))
    as (rpost & Hr & Hrpost & Hrhead).
  assert (Hts : trim_start t
                = reverse (trim_start (reverse (trim_start t))) ++ reverse rpost).
  { rewrite <- reverse_app, <- Hr. by rewrite reverse_involutive. }
  exists pre, (reverse rpost). split; [|split; [done|split; [|split]]].
  - by rewrite <- Hts.
  - by apply Forall_reverse.
  - intros c Hc. apply Hhead. rewrite Hts.
    destruct (reverse (trim_start (reverse (trim_start t)))); [done|].
    exact Hc.
  - intros c Hc. apply Hrhead. by rewrite <- last_reverse.
Qed.

Lemma trim_nil_iff (t : text) : trim t = [] ↔ whitespace_only t = true.
Proof.
  rewrite whitespace_only_Forall. split.
  - intros Hnil. destruct (trim_stripped t) as (pre & post & Ht & Hpre & Hpost & _).
    rewrite Hnil in Ht. rewrite Ht. cbn. by apply Forall_app.
  - intros Hws. unfold trim. by rewrite trim_start_whitespace.
Qed.

Lemma nul_not_whitespace : is_whitespace 0%N = false.
Proof. by vm_compute. Qed.

Lemma stripped_nul (t b : text) : stripped t b → 0%N ∈ t ↔ 0%N ∈ b.
Proof.
  intros (pre & post & -> & Hpre & Hpost & _).
  assert (Hws : ∀ l, Forall (λ c, is_whitespace c = true) l → 0%N ∉ l).
  { intros l Hl Hin. rewrite Forall_forall in Hl. specialize (Hl _ Hin).
    by rewrite nul_not_whitespace in Hl. }
  rewrite !elem_of_app. split; [|tauto].
  intros [H|[H|H]]; [by apply Hws in H|done|by apply Hws in H].
Qed.

Lemma stripped_length (t b : text) : stripped t b → (length b ≤ length t)%nat.
Proof. intros (pre & post & -> & _). rewrite !length_app. lia. Qed.

(** *** What the store keeps *)

Lemma toWellFormed_cons (c : N) (rest : text) :
  toWellFormed (c :: rest)
  = if is_high_surrogate c then
      match rest with
      | d :: rest' =>
          if is_low_surrogate d then c :: d :: toWellFormed rest'
          else 65533%N :: toWellFormed rest
      | [] => [65533%N]
      end
    else if is_low_surrogate c then 65533%N :: toWellFormed rest
    else c :: toWellFormed rest.
Proof. done. Qed.

Lemma toWellFormed_length_both (t : text) :
  length (toWellFormed t) = length t ∧
  ∀ c, length (toWellFormed (c :: t)) = S (length t).
Proof.
  induction t as [|d t [IH1 IH2]].
  - split; [done|]. intros c. rewrite toWellFormed_cons.
    destruct (is_high_surrogate c); [done|]. by destruct (is_low_surrogate c).
  - split; [apply IH2|]. intros c. rewrite toWellFormed_cons.
    destruct (is_high_surrogate c).
    + destruct (is_low_surrogate d).
      * cbn [length]. by rewrite IH1.
      * cbn [length]. by rewrite IH2.
    + destruct (is_low_surrogate c); cbn [length]; by rewrite IH2.
Qed.

Lemma toWellFormed_length (t : text) : length (toWellFormed t) = length t.
Proof. apply toWellFormed_length_both. Qed.

Lemma toWellFormed_no_surrogate (t : text) :
  no_surrogate t → toWellFormed t = t.
Proof.
  induction 1 as [|c t [Hh Hl] _ IH]; [done|].
  rewrite toWellFormed_cons. by rewrite Hh, Hl, IH.
Qed.

(** The two ways [send-message] ends: one [error] event to the sender and
    nothing else, or the trimmed text stored, sent to the whole room and
    acknowledged to the sender. *)
Lemma send_message_cases (now : string) (sid : nat) (sd : socket_data)
    (data : message_request) (w : world) :
  let w' := send_message now sid sd data w in
  (∃ msg, w' = with_server (socket_emit sid "error" (Error msg) (server w)) w) ∨
  (rejected_input (message data) = false ∧
   ∃ t chatId row md,
     message data = Text t ∧
     socket_chatId sd = Some chatId ∧
     (1 ≤ length (trim t) ≤ 1000)%nat ∧
     msg_text row = toWellFormed (trim t) ∧
     md_message md = trim t ∧
     chat_messages w' = chat_messages w ++ [row] ∧
     outbox (server w') =
       outbox (server w) ++
       ((λ m, (m, ("new-message", NewMessage md)))
          <$> members ("chat-" +:+ chatId) (server w)) ++
       [(sid, ("message-sent", MessageSent (tempId data) (md_id md) now))] ∧
     (length t ≤ 1000)%nat ∧ 0%N ∉ trim t).
Proof.
  cbn zeta. unfold send_message.
  destruct (_ || _) eqn:Hconn; [left; by eexists|].
  apply orb_false_iff in Hconn as [Hchat _].
  destruct (socket_chatId sd) as [chatId|] eqn:Hc; [|done].
  destruct (message data) as [t|truthy] eqn:Hmsg.
  2:{ left. destruct truthy; by eexists. }
  destruct (_ || _) eqn:Hempty; [left; by eexists|].
  apply orb_false_iff in Hempty as [_ Htrim%bool_decide_eq_false].
  case_bool_decide as Hlong; [left; by eexists|].
  destruct (insert_message _ _ _ _ _ _) as [[newMessage w1]|] eqn:Hins;
    [|left; by eexists].
  right. unfold insert_message in Hins.
  destruct (column_type _) as [ty|]; [|discriminate].
  destruct (db_up w); [|discriminate]. cbn [andb] in Hins.
  case_bool_decide as Hnul; [discriminate|]. cbn [negb andb] in Hins.
  case_bool_decide; [|discriminate]. injection Hins as <- <-.
  pose proof (trim_length t).
  split.
  { cbn. apply orb_false_iff. by rewrite !bool_decide_eq_false. }
  exists t, chatId,
    {| msg_id := next_message_id w; msg_chat := chatId;
       msg_sender := default 0%Z (socket_userId sd);
       msg_text := toWellFormed (trim t);
       msg_type := ty; msg_created_at := now |},
    {| md_id := next_message_id w; md_chatId := chatId;
       senderId := default 0%Z (socket_userId sd);
       senderName := socket_userName sd; senderType := socket_userType sd;
       md_message := trim t; md_messageType := ty; createdAt := now;
       md_timestamp := now |}.
  split; [done|]. split; [done|]. split; [lia|]. split; [done|].
  split; [done|]. split; [done|]. split; [|split; [lia|done]].
  cbn. by rewrite <- app_assoc.
Qed.

(** An input refused for its text gets one [error] event and nothing
    else. *)
Lemma send_message_refused (now : string) (sid : nat) (sd : socket_data)
    (data : message_request) (w : world) :
  refused_input (message data) →
  ∃ msg, send_message now sid sd data w
         = with_server (socket_emit sid "error" (Error msg) (server w)) w.
Proof.
  intros Href.
  destruct (send_message_cases now sid sd data w)
    as [Herr|(_ & t & chatId & row & md & Hmsg & _ & Hlen & _ & _ & _ & _
              & Hlong & Hnul)]; [done|]. exfalso.
  rewrite Hmsg in Href. cbn in Href.
  destruct Href as [Hws|[Hl|H0]].
  - apply trim_nil_iff in Hws. rewrite Hws in Hlen. cbn in Hlen. lia.
  - lia.
  - apply Hnul. by apply (stripped_nul t (trim t) (trim_stripped t)).
Qed.

Lemma new_emits_error (sid : nat) (msg : string) (w : world) :
  new_emits w (with_server (socket_emit sid "error" (Error msg) (server w)) w)
  = [(sid, ("error", Error msg))].
Proof. unfold new_emits. cbn. by rewrite drop_app_length. Qed.

Lemma stored_texts_error (sid : nat) (msg : string) (w : world) :
  stored_texts w (with_server (socket_emit sid "error" (Error msg) (server w)) w)
  = [].
Proof. unfold stored_texts. cbn. by rewrite drop_all. Qed.

Lemma broadcast_texts_room (md : message_data) (ms : list nat)
    (rest : list (nat * (string * payload))) :
  broadcast_texts (((λ m, (m, ("new-message", NewMessage md))) <$> ms) ++ rest)
  = ((λ _, md_message md) <$> ms) ++ broadcast_texts rest.
Proof.
  unfold broadcast_texts. rewrite omap_app. f_equal.
  induction ms as [|m ms IH]; [done|]. cbn. by rewrite IH.
Qed.

Lemma recipients_app (event : string)
    (out1 out2 : list (nat * (string * payload))) :
  recipients event (out1 ++ out2) = recipients event out1 ++ recipients event out2.
Proof. apply omap_app. Qed.

Lemma recipients_room (event : string) (p : payload) (ms : list nat) :
  recipients event ((λ m, (m, (event, p))) <$> ms) = ms.
Proof.
  unfold recipients. induction ms as [|m ms IH]; [done|]. cbn.
  rewrite bool_decide_true by done. by rewrite IH.
Qed.

Lemma recipients_other_room (event event' : string) (p : payload)
    (ms : list nat) :
  event' ≠ event → recipients event ((λ m, (m, (event', p))) <$> ms) = [].
Proof.
  intros Hne. unfold recipients. induction ms as [|m ms IH]; [done|]. cbn.
  rewrite bool_decide_false by done. by rewrite IH.
Qed.

(** C10, as the code has it.  What [send-message] sends as a
    [new-message] is the input text without the white space at its two
    ends, of 1 to 1000 code units and free of U+0000; what it stores is
    that text as UTF-8 holds it, of the same length, every surrogate
    code unit outside a pair replaced by U+FFFD, and so the very text
    when it has no surrogate.  An input that is not a string, is white
    space only, is longer than 1000 code units or holds U+0000 gets one
    [error] event to the sender, and nothing is stored or broadcast. *)
Theorem send_message_text_bounds (now : string) (sid : nat) (sd : socket_data)
    (data : message_request) (w : world) :
  let w' := send_message now sid sd data w in
  Forall (stored_of (message data)) (stored_texts w w') ∧
  Forall (broadcast_of (message data)) (broadcast_texts (new_emits w w')) ∧
  (refused_input (message data) →
   stored_texts w w' = [] ∧
   broadcast_texts (new_emits w w') = [] ∧
   ∃ msg, new_emits w w' = [(sid, ("error", Error msg))]).
Proof.
  cbn zeta. split; [|split].
  3:{ intros Href.
      destruct (send_message_refused now sid sd data w Href) as [msg ->].
      rewrite stored_texts_error, new_emits_error. split; [done|].
      split; [done|]. by eexists. }
  all: destruct (send_message_cases now sid sd data w)
    as [[msg ->]|(_ & t & chatId & row & md & Hmsg & _ & Hlen & Htext
                  & Hmd & Hstored & Hout & Hlong & Hnul)].
  - rewrite stored_texts_error. constructor.
  - assert (Hb : broadcast_of (message data) (trim t)).
    { exists t. split; [done|]. split; [apply trim_stripped|done]. }
    unfold stored_texts. rewrite Hstored, drop_app_length. cbn.
    constructor; [|constructor]. exists (trim t). split; [done|].
    rewrite Htext. split; [done|]. split; [apply toWellFormed_length|].
    apply toWellFormed_no_surrogate.
  - rewrite new_emits_error. constructor.
  - assert (Hb : broadcast_of (message data) (trim t)).
    { exists t. split; [done|]. split; [apply trim_stripped|done]. }
    unfold new_emits. rewrite Hout, drop_app_length.
    rewrite broadcast_texts_room. cbn. rewrite app_nil_r, Hmd.
    apply Forall_fmap, Forall_forall. done.
Qed.

(** C10, as the specification words it, fails: a text that is one high
    surrogate is accepted, the room is sent that text, and the table
    holds U+FFFD in its place: what is stored is not the trimmed
    input. *)
Lemma lone_surrogate_stored_as_replacement :
  let w := {| users := [];
              support_chats := [{| chat_id := "5"; chat_customer := 4;
                                   chat_agent := Some 8%Z;
                                   chat_status := "active";
                                   chat_updated_at := "2024-05-01T11:00:00.000Z" |}];
              chat_messages := []; next_message_id := 1; db_up := true;
              server := {| rooms := {[ "chat-5" := [1%nat] ]};
                           outbox := [] |} |} in
  let sd := {| socket_userId := Some 4%Z; socket_userType := Some "customer";
               socket_userName := Some "John Doe";
               socket_chatId := Some "5" |} in
  let data := {| message := Text [55357]%N;
                 messageType := Undefined; tempId := Str "t1" |} in
  let w' := send_message "2024-05-01T12:00:00.000Z" 1 sd data w in
  trim [55357]%N = [55357]%N ∧
  broadcast_texts (new_emits w w') = [[55357]%N] ∧
  stored_texts w w' = [[65533]%N] ∧
  stored_texts w w' ≠ [trim [55357]%N].
Proof.
  cbn zeta. split; [by vm_compute|]. split; [by vm_compute|].
  split; [by vm_compute|]. vm_compute. discriminate.
Qed.

(** C3, as the code has it.  A message that [send-message] accepts, in a
    room of 10 that holds the sender: the [new-message] payload goes
    once to each of the 10 members, the sender among them, and then one
    [message-sent] acknowledgment goes to the sender alone. *)
Theorem send_message_reaches_whole_room (now : string) (sid : nat)
    (sd : socket_data) (data : message_request) (w : world)
    (chatId : string) (ms : list nat) :
  socket_chatId sd = Some chatId →
  members ("chat-" +:+ chatId) (server w) = ms →
  length ms = 10%nat →
  sid ∈ ms →
  chat_messages (send_message now sid sd data w) ≠ chat_messages w →
  let out := new_emits w (send_message now sid sd data w) in
  (∃ md, out = ((λ m, (m, ("new-message", NewMessage md))) <$> ms) ++
               [(sid, ("message-sent",
                       MessageSent (tempId data) (md_id md) now))]) ∧
  recipients "new-message" out = ms ∧
  sid ∈ recipients "new-message" out ∧
  length (recipients "new-message" out) = 10%nat ∧
  recipients "message-sent" out = [sid].
Proof.
  intros Hchat Hms Hlen Hsid Hstored out. subst out.
  destruct (send_message_cases now sid sd data w)
    as [[msg Hfail]|(_ & t & chatId' & row & md & _ & Hchat' & _ & _ & _ & _
                      & Hout & _)].
  { exfalso. apply Hstored. by rewrite Hfail. }
  rewrite Hchat in Hchat'. injection Hchat' as <-. rewrite Hms in Hout.
  unfold new_emits. rewrite Hout, drop_app_length.
  assert (Hnew : recipients "new-message"
            (((λ m, (m, ("new-message", NewMessage md))) <$> ms) ++
             [(sid, ("message-sent", MessageSent (tempId data) (md_id md) now))])
            = ms).
  { rewrite recipients_app, recipients_room. cbn. apply app_nil_r. }
  split; [by exists md|]. rewrite Hnew. repeat split; try done.
  rewrite recipients_app.
  by rewrite (recipients_other_room "message-sent" "new-message").
Qed.

Lemma send_message_reaches_whole_room_witness :
  let ms := [1; 2; 3; 4; 5; 6; 7; 8; 9; 10]%nat in
  let w := {| users := []; 
              support_chats := [{| chat_id := "5"; chat_customer := 4;
                                   chat_agent := Some 8%Z;
                                   chat_status := "active";
                                   chat_updated_at := "2024-05-01T11:00:00.000Z" |}];
              chat_messages := []; next_message_id := 1; db_up := true;
              server := {| rooms := {[ "chat-5" := ms ]}; outbox := [] |} |} in
  let sd := {| socket_userId := Some 4%Z; socket_userType := Some "customer";
               socket_userName := Some "John Doe";
               socket_chatId := Some "5" |} in
  let data := {| message := Text [32; 104; 105; 32]%N;
                 messageType := Undefined; tempId := Str "t1" |} in
  let out := new_emits w (send_message "2024-05-01T12:00:00.000Z" 1 sd data w) in
  recipients "new-message" out = ms ∧
  recipients "message-sent" out = [1%nat].
Proof.
  intros ms w sd data out.
  destruct (send_message_reaches_whole_room "2024-05-01T12:00:00.000Z" 1 sd
              data w "5" ms) as (_ & Hnew & _ & _ & Hack).
  - reflexivity.
  - reflexivity.
  - reflexivity.
  - apply (bool_decide_unpack _). vm_compute. exact I.
  - vm_compute. discriminate.
  - split; [exact Hnew | exact Hack].
Defined.

(** C3, as the specification words it, fails: in a room of 10 the sender
    of an accepted message is among the 10 sockets that are sent the
    [new-message] payload, so it is sent its own message back, and the
    payload goes to 10 sockets, not 9. *)
Lemma sender_receives_own_message :
  let ms := [1; 2; 3; 4; 5; 6; 7; 8; 9; 10]%nat in
  let w := {| users := []; 
              support_chats := [{| chat_id := "5"; chat_customer := 4;
                                   chat_agent := Some 8%Z;
                                   chat_status := "active";
                                   chat_updated_at := "2024-05-01T11:00:00.000Z" |}];
              chat_messages := []; next_message_id := 1; db_up := true;
              server := {| rooms := {[ "chat-5" := ms ]}; outbox := [] |} |} in
  let sd := {| socket_userId := Some 4%Z; socket_userType := Some "customer";
               socket_userName := Some "John Doe";
               socket_chatId := Some "5" |} in
  let data := {| message := Text [104; 105]%N;
                 messageType := Undefined; tempId := Str "t1" |} in
  let w' := send_message "2024-05-01T12:00:00.000Z" 1 sd data w in
  length (members "chat-5" (server w)) = 10%nat ∧
  length (recipients "new-message" (new_emits w w')) = 10%nat ∧
  ¬ (1%nat ∉ recipients "new-message" (new_emits w w')) ∧
  length (received 1 "new-message" (server w')) = 1%nat ∧
  length (received 1 "message-sent" (server w')) = 1%nat.
Proof.
  cbn zeta. split; [reflexivity|]. split; [vm_compute; reflexivity|].
  split; [|split; vm_compute; reflexivity].
  intros Hnot. apply Hnot. apply (bool_decide_unpack _). vm_compute. exact I.
Qed.

End ChatFacts.

(** ** Long polling *)
Section ImagesFacts.
Import JS Images.

Lemma turns_nonneg (r : Z) : (0 ≤ turns r)%Z.
Proof. unfold turns. lia. Qed.

Lemma turns_done (r : Z) : (r ≤ 0)%Z ↔ turns r = 0%Z.
Proof. unfold turns. split; intros H; Z.div_mod_to_equations; lia. Qed.

(** A turn of the loop uses up at least [pollInterval] of the wait. *)
Lemma turns_step (r r' : Z) :
  (0 < r)%Z → (r' ≤ r - pollInterval)%Z → (turns r' + 1 ≤ turns r)%Z.
Proof.
  unfold turns, pollInterval. intros Hr Hr'. Z.div_mod_to_equations. lia.
Qed.

(** The turns fit in the wait plus one poll interval. *)
Lemma turns_bound (r : Z) :
  (0 ≤ r)%Z → (turns r * pollInterval < r + pollInterval)%Z.
Proof.
  unfold turns, pollInterval. intros Hr. Z.div_mod_to_equations. lia.
Qed.

Section Loop.
Variable store : Z → option upload_row.
Variable latency : Z → Z.
Variable uploadId : string.
Variable upload : upload_row.
Variable D : Z.
Hypothesis store_quiet : quiet store upload.
Hypothesis latency_bound : ∀ t, (0 ≤ latency t ≤ D)%Z.

(** With nothing to wake it, the loop started at [t] ends in the timeout
    answer, built from the row read by the last query, after at most
    [turns] turns of at most [pollInterval + D] milliseconds each. *)
Lemma pollForChanges_quiet (startTime timeout : Z) (fuel : nat) :
  ∀ t, (Z.to_nat (turns (timeout - (t - startTime))) ≤ fuel)%nat →
    ∃ tq row,
      pollForChanges store latency uploadId fuel upload startTime timeout t
      = Some (timeout_response uploadId row, tq + latency tq)%Z ∧
      store tq = Some row ∧
      (t ≤ tq)%Z ∧
      (tq - t ≤ turns (timeout - (t - startTime)) * (pollInterval + D))%Z.
Proof.
  assert (HD : (0 ≤ D)%Z) by (specialize (latency_bound 0); lia).
  induction fuel as [|fuel IH]; intros t Hfuel.
  - destruct (store_quiet t) as (row & Hrow & _ & _).
    assert (Hdone : (timeout - (t - startTime) ≤ 0)%Z).
    { apply turns_done. pose proof (turns_nonneg (timeout - (t - startTime))). lia. }
    exists t, row. cbn.
    replace (t - startTime <? timeout)%Z with false
      by (symmetry; apply Z.ltb_ge; lia).
    unfold final_status. rewrite Hrow.
    split; [done|]. split; [done|]. split; [lia|].
    apply turns_done in Hdone. rewrite Hdone. lia.
  - cbn [pollForChanges]. destruct (t - startTime <? timeout)%Z eqn:Hin.
    + apply Z.ltb_lt in Hin.
      destruct (store_quiet t) as (current & Hcur & Hterm & Hprog).
      rewrite Hcur, Hterm.
      replace (5 <=? Z.abs (progress current - progress upload))%Z with false
        by (symmetry; apply Z.leb_gt; lia).
      pose proof (latency_bound t) as Hlat.
      pose proof (turns_step (timeout - (t - startTime))
                    (timeout - (t + latency t + pollInterval - startTime)))
        as Hstep.
      pose proof (turns_nonneg
                    (timeout - (t + latency t + pollInterval - startTime)))
        as Hnn.
      destruct (IH (t + latency t + pollInterval)%Z)
        as (tq & row & Hloop & Hrow & Hle & Hbound); [lia|].
      exists tq, row. rewrite Hloop. unfold pollInterval in *.
      split; [done|]. split; [done|]. split; [lia|]. nia.
    + apply Z.ltb_ge in Hin.
      destruct (store_quiet t) as (row & Hrow & _ & _).
      exists t, row. unfold final_status. rewrite Hrow.
      split; [done|]. split; [done|]. split; [lia|].
      pose proof (turns_nonneg (timeout - (t - startTime))).
      unfold pollInterval. nia.
Qed.

End Loop.
Lemma pollTimeout_capped (parsed : option Z) :
  (pollTimeout parsed ≤ maxTimeout)%Z.
Proof. unfold pollTimeout. lia. Qed.

(** C4, as the code has it.  A request with a positive [timeout] waits
    for the smaller of that value and 60000 ms.  When nothing wakes the
    loop, and a query takes at most [D] ms, the handler answers with the
    row its last query read and [timeout: true]; 61 turns of fuel are
    enough for any request; the answer leaves at most [turns] poll
    intervals and queries, plus the two queries outside the loop, after
    the request came in.  With an instantaneous store that is less than
    the effective timeout plus one poll interval, and for a request of
    5000 ms it is within 5100 ms as long as a query takes no more than
    14 ms. *)
Theorem long_poll_bounded (store : Z → option upload_row) (owner : Z)
    (latency : Z → Z) (uploadId : string) (userId requested t0 D : Z)
    (upload : upload_row) (fuel : nat) :
  (0 < requested)%Z →
  owner = userId →
  store t0 = Some upload →
  terminal (status upload) = false →
  quiet store upload →
  (∀ t, 0 ≤ latency t ≤ D)%Z →
  (61 ≤ fuel)%nat →
  let P := pollTimeout (Some requested) in
  P = Z.min requested 60000 ∧
  ∃ tq row,
    get_status store owner latency uploadId fuel userId (Some requested) t0
    = Some (timeout_response uploadId row, tq + latency tq)%Z ∧
    store tq = Some row ∧
    prop "timeout" (body (timeout_response uploadId row)) = Some (Bool true) ∧
    (tq + latency tq - t0 ≤ turns P * (pollInterval + D) + 2 * D)%Z ∧
    (D = 0 → tq + latency tq - t0 < P + pollInterval)%Z ∧
    (requested = 5000 → D ≤ 14 → tq + latency tq - t0 ≤ 5100)%Z.
Proof.
  intros Hpos Howner Hstore Hterm Hquiet Hlat Hfuel P.
  assert (HP : P = Z.min requested 60000).
  { subst P. unfold pollTimeout, requested_timeout, maxTimeout.
    destruct (requested =? 0)%Z eqn:H0; [apply Z.eqb_eq in H0; lia|done]. }
  split; [exact HP|].
  pose proof (Hlat t0) as Hlat0.
  destruct (pollForChanges_quiet store latency uploadId upload D Hquiet Hlat
              (t0 + latency t0) P fuel (t0 + latency t0))
    as (tq & row & Hloop & Hrow & Hle & Hbound).
  { replace (P - (t0 + latency t0 - (t0 + latency t0)))%Z with P by lia.
    assert (turns P ≤ 60)%Z; [|lia].
    unfold turns. Z.div_mod_to_equations. lia. }
  replace (P - (t0 + latency t0 - (t0 + latency t0)))%Z with P in Hbound by lia.
  exists tq, row. unfold get_status.
  rewrite bool_decide_true by done. rewrite Hstore, Hterm.
  pose proof (Hlat tq) as Hlatq.
  split; [exact Hloop|]. split; [exact Hrow|]. split; [reflexivity|].
  split; [lia|]. split.
  - intros ->. pose proof (turns_bound P). nia.
  - intros -> HD. assert (turns P = 5)%Z as Hturns.
    { rewrite HP. reflexivity. }
    rewrite Hturns in Hbound. unfold pollInterval in Hbound. lia.
Qed.

Lemma long_poll_bounded_witness :
  let row := {| status := "processing"; progress := 30;
                error_message := Str "Resizing image...";
                updated_at := "2024-05-01T12:00:02.000Z" |} in
  ∃ tq, get_status (λ _, Some row) 5 (λ _, 7%Z) "u1" 61 5 (Some 5000%Z) 0
        = Some (timeout_response "u1" row, tq + 7)%Z ∧
        (tq + 7 - 0 ≤ 5100)%Z.
Proof.
  intros row.
  destruct (long_poll_bounded (λ _, Some row) 5 (λ _, 7%Z) "u1" 5 5000 0 7
              row 61) as (_ & tq & row' & Hget & Hrow & _ & _ & _ & H5100).
  - lia.
  - reflexivity.
  - reflexivity.
  - reflexivity.
  - intros t. exists row. split; [reflexivity|]. split; [reflexivity|].
    cbn. lia.
  - intros t. cbn. lia.
  - lia.
  - injection Hrow as <-. exists tq. split; [exact Hget|].
    apply H5100; [reflexivity|lia].
Defined.

(** C4, as the specification words it, fails twice.  For a requested
    wait of 0, [0 || 30000] selects the default: with an instantaneous
    store the answer leaves after 30000 ms, not within 0 ms plus one poll
    interval.  For a requested wait of 5000 ms and a store that takes
    20 ms per query, the loop makes its five turns and the answer leaves
    5140 ms after the request came in. *)
Lemma long_poll_bound_fails :
  let row := {| status := "processing"; progress := 30;
                error_message := Str "Resizing image...";
                updated_at := "2024-05-01T12:00:02.000Z" |} in
  (pollTimeout (Some 0%Z) = 30000%Z ∧
   get_status (λ _, Some row) 5 (λ _, 0%Z) "u1" 61 5 (Some 0%Z) 0
   = Some (timeout_response "u1" row, 30000%Z) ∧
   ¬ (30000 - 0 ≤ 0 + pollInterval)%Z) ∧
  (get_status (λ _, Some row) 5 (λ _, 20%Z) "u1" 61 5 (Some 5000%Z) 0
   = Some (timeout_response "u1" row, 5140%Z) ∧
   ¬ (5140 - 0 ≤ 5100)%Z).
Proof.
  cbn zeta. split.
  - split; [reflexivity|]. split; [vm_compute; reflexivity|].
    unfold pollInterval. lia.
  - split; [vm_compute; reflexivity|]. lia.
Qed.

(** The progress test of the loop, at a turn inside the wait. *)
Lemma pollForChanges_wakes (store : Z → option upload_row)
    (latency : Z → Z) (uploadId : string) (fuel : nat)
    (upload current : upload_row) (startTime timeout t : Z) :
  (t - startTime < timeout)%Z →
  store t = Some current →
  terminal (status current) = false →
  (5 ≤ Z.abs (progress current - progress upload))%Z →
  pollForChanges store latency uploadId (S fuel) upload startTime timeout t
  = Some (progress_response uploadId current, t + latency t)%Z.
Proof.
  intros Hin Hcur Hterm Hjump. cbn [pollForChanges].
  replace (t - startTime <? timeout)%Z with true
    by (symmetry; apply Z.ltb_lt; lia).
  rewrite Hcur, Hterm.
  replace (5 <=? Z.abs (progress current - progress upload))%Z with true
    by (symmetry; apply Z.leb_le; lia).
  reflexivity.
Qed.

(** C8. At a turn of the loop at which the stored status is not terminal
    and the stored progress is 5 or more away from the progress read at
    the start, above or below, the loop answers at once, when its query
    returns, with the stored progress and [completed: false]. *)
Theorem progress_jump_wakes_wait (store : Z → option upload_row)
    (latency : Z → Z) (uploadId : string) (fuel : nat)
    (upload current : upload_row) (startTime timeout t : Z) :
  (t - startTime < timeout)%Z →
  store t = Some current →
  terminal (status current) = false →
  (5 ≤ progress current - progress upload ∨
   5 ≤ progress upload - progress current)%Z →
  pollForChanges store latency uploadId (S fuel) upload startTime timeout t
  = Some (progress_response uploadId current, t + latency t)%Z ∧
  prop "progress" (body (progress_response uploadId current))
  = Some (int (progress current)) ∧
  prop "completed" (body (progress_response uploadId current))
  = Some (Bool false).
Proof.
  intros Hin Hcur Hterm Hjump.
  split; [apply pollForChanges_wakes; try done; lia|]. split; reflexivity.
Qed.

Lemma progress_jump_wakes_wait_witness :
  let upload := {| status := "processing"; progress := 60;
                   error_message := Str "Optimizing image...";
                   updated_at := "2024-05-01T12:00:03.000Z" |} in
  let current := {| status := "processing"; progress := 10;
                    error_message := Null;
                    updated_at := "2024-05-01T12:00:09.000Z" |} in
  pollForChanges (λ _, Some current) (λ _, 3%Z) "u1" 1 upload 100 30000 2100
  = Some (progress_response "u1" current, 2103%Z) ∧
  prop "progress" (body (progress_response "u1" current)) = Some (int 10).
Proof.
  intros upload current.
  destruct (progress_jump_wakes_wait (λ _, Some current) (λ _, 3%Z) "u1" 0
              upload current 100 30000 2100) as (Hloop & Hprog & _).
  - lia.
  - reflexivity.
  - reflexivity.
  - right. cbn. lia.
  - split; [exact Hloop | exact Hprog].
Defined.

(** The same at the first poll of the handler: whatever timeout was
    asked for, the answer carries the stored progress and
    [completed: false], and leaves when the first status query returns. *)
Lemma get_status_first_poll_wakes (store : Z → option upload_row) (owner : Z)
    (latency : Z → Z) (uploadId : string) (fuel : nat) (userId : Z)
    (parsed : option Z) (t0 : Z) (upload current : upload_row) :
  owner = userId →
  store t0 = Some upload →
  terminal (status upload) = false →
  store (t0 + latency t0)%Z = Some current →
  terminal (status current) = false →
  (5 ≤ Z.abs (progress current - progress upload))%Z →
  ∃ r, get_status store owner latency uploadId (S fuel) userId parsed t0
       = Some (r, t0 + latency t0 + latency (t0 + latency t0))%Z ∧
       prop "progress" (body r) = Some (int (progress current)) ∧
       prop "completed" (body r) = Some (Bool false).
Proof.
  intros Howner Hstore Hterm Hcur Hterm' Hjump. unfold get_status.
  rewrite bool_decide_true by done. rewrite Hstore, Hterm.
  destruct (decide (0 < pollTimeout parsed)%Z) as [Hpos|Hneg].
  - rewrite (pollForChanges_wakes store latency uploadId fuel upload current)
      by (try done; lia).
    by eexists.
  - cbn [pollForChanges].
    replace (t0 + latency t0 - (t0 + latency t0) <? pollTimeout parsed)%Z
      with false by (symmetry; apply Z.ltb_ge; lia).
    unfold final_status. rewrite Hcur. eexists. split; [reflexivity|].
    cbn. by rewrite Hterm'.
Qed.

End ImagesFacts.

(** ** More on the SSE registry *)
Section StreamRegistryFacts.
Import JS Driver StreamRegistry.

Lemma set_delete_absent (h : nat) (s : list nat) :
  h ∉ s → set_delete h s = s.
Proof.
  intros Hh. unfold set_delete. apply filter_all. intros x Hx ->. done.
Qed.

Lemma set_delete_twice (h : nat) (s : list nat) :
  set_delete h (set_delete h s) = set_delete h s.
Proof. apply set_delete_absent, set_delete_not_elem. Qed.

Lemma set_delete_added (h : nat) (s : list nat) :
  h ∉ s → set_delete h (set_add h s) = s.
Proof.
  intros Hh. unfold set_add. rewrite bool_decide_false by done.
  unfold set_delete. rewrite filter_app, filter_cons_False by tauto.
  rewrite filter_nil, app_nil_r. by apply set_delete_absent.
Qed.

(** X1. Closing a stream a second time changes nothing. *)
Theorem on_close_idempotent (oid : string) (res : handle)
    (reg : gmap string (list handle)) :
  on_close oid res (on_close oid res reg) = on_close oid res reg.
Proof.
  unfold on_close at 2 3.
  destruct (reg !! oid) as [connections|] eqn:Hoid.
  - case_bool_decide as Hlen.
    + unfold on_close. by rewrite lookup_delete_eq.
    + unfold on_close. rewrite lookup_insert_eq, set_delete_twice.
      rewrite bool_decide_false by done. by rewrite insert_insert_eq.
  - unfold on_close. by rewrite Hoid.
Qed.

(** X2. Opening a stream and closing it again gives back the registry,
    when the stream was not registered before and no key was mapped to an
    empty set. *)
Theorem open_then_close_restores (oid : string) (customerId : Z)
    (res : handle) (w w' : world) :
  open_stream oid customerId res w = Some w' →
  res ∉ default [] (sseConnections w !! oid) →
  no_empty_entry (sseConnections w) →
  on_close oid res (sseConnections w') = sseConnections w.
Proof.
  unfold open_stream. destruct (customer_order_check _ _ _); [|done].
  intros [= <-] Hres Hreg. cbn [sseConnections]. unfold on_close.
  rewrite lookup_insert_eq, set_delete_added by done.
  destruct (sseConnections w !! oid) as [connections|] eqn:Hoid; cbn.
  - rewrite bool_decide_false.
    + rewrite insert_insert_eq. by apply insert_id.
    + intros Hlen. apply (Hreg oid). rewrite Hoid.
      by destruct connections.
  - rewrite bool_decide_true by done. rewrite delete_insert_eq.
    by apply delete_id.
Qed.

Lemma open_then_close_restores_witness :
  let w := {| orders := [{| id := "17"; status := "picked_up";
                            customer_id := 4; driver_id := Some 9%Z |}];
              driver_locations := []; cache := ∅;
              sseConnections := {[ "17" := [1%nat] ]}; wire := [] |} in
  ∃ w', open_stream "17" 4 2%nat w = Some w' ∧
        sseConnections w' !! "17" = Some [1; 2]%nat ∧
        on_close "17" 2%nat (sseConnections w') = sseConnections w.
Proof.
  intros w. eexists. split; [reflexivity|]. split; [vm_compute; reflexivity|].
  apply (open_then_close_restores "17" 4 2%nat w).
  - reflexivity.
  - apply (bool_decide_unpack _). vm_compute. exact I.
  - intros k. cbn. destruct (decide (k = "17")) as [->|Hne].
    + by rewrite lookup_singleton_eq.
    + by rewrite lookup_singleton_ne.
Defined.

Lemma registry_sets_insert (oid : string) (connections : list handle)
    (reg : gmap string (list handle)) :
  registry_sets reg → NoDup connections →
  registry_sets (<[oid := connections]> reg).
Proof.
  intros Hreg Hnd k cs. destruct (decide (k = oid)) as [->|Hne].
  - rewrite lookup_insert_eq. by intros [= <-].
  - rewrite lookup_insert_ne by done. apply Hreg.
Qed.

Lemma sse_push_registry (write_ok : handle → bool) (frame oid : value)
    (w : world) :
  registry_sets (sseConnections w) →
  registry_sets (sseConnections (sse_push write_ok frame oid w)).
Proof.
  intros Hreg. unfold sse_push. destruct oid as [| | | |key| |]; try done.
  destruct (sseConnections w !! key) as [cs|] eqn:Hkey; [|done].
  case_bool_decide; [|done]. cbn [sseConnections].
  apply registry_sets_insert; [done|]. rewrite push_loop_eq. cbn.
  apply NoDup_filter. by eapply Hreg.
Qed.

(** X3. No handler of the stream code ever registers a stream twice under
    an order: if every set of the registry is duplicate-free, it is so
    after a location update, after a heartbeat, after a stream is opened
    and after one is closed. *)
Theorem registry_sets_preserved (S2N pF : string → number)
    (TS : value → string) (now : string) (write_ok : handle → bool)
    (driverId customerId : Z) (req : location_request) (oid : string)
    (res : handle) (w : world) :
  registry_sets (sseConnections w) →
  registry_sets
    (sseConnections (put_location S2N pF TS now write_ok driverId req w).2) ∧
  registry_sets (sseConnections (heartbeat_tick now write_ok oid res w)) ∧
  registry_sets (on_close oid res (sseConnections w)) ∧
  match open_stream oid customerId res w with
  | Some w' => registry_sets (sseConnections w')
  | None => True
  end.
Proof.
  intros Hreg. split; [|split; [|split]].
  - unfold put_location. destruct (_ || _ || _); [done|].
    destruct (_ || _ || _ || _); [done|].
    destruct (driver_order_check _ _ _); [|done]. cbn [snd].
    by apply sse_push_registry.
  - unfold heartbeat_tick. destruct (write_ok res); [done|].
    destruct (sseConnections w !! oid) as [cs|] eqn:Hoid; [|done].
    cbn [sseConnections]. apply registry_sets_insert; [done|].
    apply set_delete_NoDup. by eapply Hreg.
  - unfold on_close.
    destruct (sseConnections w !! oid) as [cs|] eqn:Hoid; [|done].
    case_bool_decide.
    + intros k cs'. destruct (decide (k = oid)) as [->|Hne].
      * by rewrite lookup_delete_eq.
      * rewrite lookup_delete_ne by done. apply Hreg.
    + apply registry_sets_insert; [done|]. apply set_delete_NoDup.
      by eapply Hreg.
  - unfold open_stream. destruct (customer_order_check _ _ _); [|done].
    cbn [sseConnections]. apply registry_sets_insert; [done|].
    apply set_add_NoDup.
    destruct (sseConnections w !! oid) as [cs|] eqn:Hoid; cbn.
    + by eapply Hreg.
    + apply NoDup_nil_2.
Qed.

Lemma registry_sets_preserved_witness :
  let w := {| orders := [{| id := "17"; status := "picked_up";
                            customer_id := 4; driver_id := Some 9%Z |}];
              driver_locations := []; cache := ∅;
              sseConnections := {[ "17" := [1; 2]%nat ]}; wire := [] |} in
  ∃ w', open_stream "17" 4 2%nat w = Some w' ∧
        registry_sets (sseConnections w') ∧
        sseConnections w' !! "17" = Some [1; 2]%nat.
Proof.
  intros w.
  assert (Hreg : registry_sets (sseConnections w)).
  { intros k cs. cbn. destruct (decide (k = "17")) as [->|Hne].
    - rewrite lookup_singleton_eq. intros [= <-].
      apply (bool_decide_unpack _). vm_compute. exact I.
    - by rewrite lookup_singleton_ne. }
  pose proof (registry_sets_preserved (λ _, NaN) (λ _, NaN) (λ _, "")
                "2024-05-01T12:00:00.000Z" (λ _, true) 9 4
                {| orderId := Str "17"; latitude := int 40;
                   longitude := int (-74) |} "17" 2%nat w Hreg)
    as (_ & _ & _ & Hopen).
  eexists. split; [reflexivity|]. split; [exact Hopen|].
  vm_compute. reflexivity.
Defined.

(** X4. The push of a location update, whatever writes fail: the streams
    whose write throws leave the order's set, the others stay in their
    order and are written the frame once each, in that order; the sets of
    the other orders, the tables and the cache are not touched. *)
Theorem sse_push_removes_failed (write_ok : handle → bool) (frame : value)
    (oid : string) (w : world) (connections : list handle) :
  sseConnections w !! oid = Some connections →
  connections ≠ [] →
  let w' := sse_push write_ok frame (Str oid) w in
  sseConnections w' !! oid
    = Some (filter (λ h, write_ok h = true) connections) ∧
  wire w' = wire w ++ ((λ h, (h, frame))
                         <$> filter (λ h, write_ok h = true) connections) ∧
  (∀ other, other ≠ oid →
            sseConnections w' !! other = sseConnections w !! other) ∧
  orders w' = orders w ∧ driver_locations w' = driver_locations w ∧
  cache w' = cache w.
Proof.
  intros Hoid Hne w'. subst w'. unfold sse_push. rewrite Hoid.
  rewrite bool_decide_true by (destruct connections; [done|cbn; lia]).
  rewrite push_loop_eq. cbn. split; [apply lookup_insert_eq|].
  split; [done|]. split; [|done].
  intros other Hother. by rewrite lookup_insert_ne.
Qed.

Lemma sse_push_removes_failed_witness :
  let w := {| orders := []; driver_locations := []; cache := ∅;
              sseConnections := {[ "17" := [1; 2; 3; 4]%nat ]}; wire := [] |} in
  let frame := heartbeat_frame "2024-05-01T12:00:00.000Z" in
  let w' := sse_push (λ h, Nat.even h) frame (Str "17") w in
  sseConnections w' !! "17" = Some [2; 4]%nat ∧
  wire w' = [(2%nat, frame); (4%nat, frame)].
Proof.
  intros w frame w'.
  destruct (sse_push_removes_failed (λ h, Nat.even h) frame "17" w
              [1; 2; 3; 4]%nat) as (Hreg & Hwire & _).
  - reflexivity.
  - discriminate.
  - split; [exact Hreg | exact Hwire].
Defined.

Lemma sse_push_cache (write_ok : handle → bool) (frame oid : value) (w : world) :
  cache (sse_push write_ok frame oid w) = cache w ∧
  orders (sse_push write_ok frame oid w) = orders w.
Proof.
  unfold sse_push. destruct oid as [| | | |key| |]; try done.
  destruct (sseConnections w !! key); [|done]. by case_bool_decide.
Qed.

(** X5. The cached location is replayed: after a location update was
    accepted for order [oid], a customer who opens the stream of that
    order is written the connection frame and then a location update
    carrying the latitude, longitude and timestamp of that update. *)
Theorem accepted_location_replayed (S2N pF : string → number)
    (TS : value → string) (now : string) (write_ok : handle → bool)
    (driverId customerId : Z) (oid : string) (lat lng : value)
    (res : handle) (w : world) :
  let r := put_location S2N pF TS now write_ok driverId
             {| orderId := Str oid; latitude := lat; longitude := lng |} w in
  code r.1 = 200%Z →
  is_Some (customer_order_check oid customerId (orders w)) →
  ∃ w', open_stream oid customerId res r.2 = Some w' ∧
        wire w' = wire r.2 ++
                  [(res, connection_established_frame (Str oid));
                   (res, location_update_frame
                           (Number (parseFloat pF TS lat))
                           (Number (parseFloat pF TS lng))
                           (Str now) (Str oid))].
Proof.
  cbn zeta. unfold put_location. cbn [orderId latitude longitude].
  destruct (_ || _ || _); [done|]. destruct (_ || _ || _ || _); [done|].
  destruct (driver_order_check _ _ _) as [order|]; [|done].
  cbn [fst snd code]. intros _ [o Ho].
  match goal with
  | |- context [sse_push ?a ?b ?c ?d] =>
      destruct (sse_push_cache a b c d) as [Hcache Horders];
      set (w2 := sse_push a b c d) in *
  end.
  cbn [cache orders] in Hcache, Horders.
  unfold open_stream. rewrite Horders, Ho, Hcache. cbn [key_of].
  rewrite lookup_insert_eq. eexists. split; [reflexivity|]. reflexivity.
Qed.

Lemma accepted_location_replayed_witness :
  let w := {| orders := [{| id := "17"; status := "picked_up";
                            customer_id := 4; driver_id := Some 9%Z |}];
              driver_locations := []; cache := ∅;
              sseConnections := ∅; wire := [] |} in
  let r := put_location (λ _, NaN) (λ _, NaN) (λ _, "")
             "2024-05-01T12:00:00.000Z" (λ _, true) 9
             {| orderId := Str "17"; latitude := int 40;
                longitude := int (-74) |} w in
  ∃ w', open_stream "17" 4 1%nat r.2 = Some w' ∧
        wire w' = [(1%nat, connection_established_frame (Str "17"));
                   (1%nat, location_update_frame (int 40) (int (-74))
                             (Str "2024-05-01T12:00:00.000Z") (Str "17"))].
Proof.
  intros w r.
  destruct (accepted_location_replayed (λ _, NaN) (λ _, NaN) (λ _, "")
              "2024-05-01T12:00:00.000Z" (λ _, true) 9 4 "17"
              (int 40) (int (-74)) 1%nat w) as (w' & Hopen & Hwire).
  - reflexivity.
  - eexists. reflexivity.
  - exists w'. split; [exact Hopen|]. rewrite Hwire. reflexivity.
Defined.

(** X6. An order id sent as a JSON number finds no stream: the update
    may be stored and cached, but nothing is written to any stream and
    the registry is left alone, whatever streams are open. *)
Theorem numeric_order_id_reaches_no_stream (S2N pF : string → number)
    (TS : value → string) (now : string) (write_ok : handle → bool)
    (driverId : Z) (n : number) (lat lng : value) (w : world) :
  let r := put_location S2N pF TS now write_ok driverId
             {| orderId := Number n; latitude := lat; longitude := lng |} w in
  wire r.2 = wire w ∧ sseConnections r.2 = sseConnections w.
Proof.
  cbn zeta. unfold put_location. cbn [orderId latitude longitude].
  destruct (_ || _ || _); [done|]. destruct (_ || _ || _ || _); [done|].
  by destruct (driver_order_check _ _ _).
Qed.

(** X7. The range test: a request whose order id is present and whose
    coordinates are two non-zero numbers is answered 400 "Invalid
    coordinates" exactly when the latitude is outside [-90, 90] or the
    longitude outside [-180, 180], bounds included in the range; and then
    nothing is stored, cached or pushed. *)
Theorem coordinates_range_gate (S2N pF : string → number)
    (TS : value → string) (now : string) (write_ok : handle → bool)
    (driverId : Z) (oid : value) (lat lng : Q) (w : world) :
  truthy oid = true → ¬ (lat == 0)%Q → ¬ (lng == 0)%Q →
  let r := put_location S2N pF TS now write_ok driverId
             {| orderId := oid; latitude := Number (Num lat);
                longitude := Number (Num lng) |} w in
  (out_of_range lat lng ↔
     r.1 = {| code := 400; body := error_body "Invalid coordinates" |}) ∧
  (out_of_range lat lng → r.2 = w).
Proof.
  intros Hoid Hlat Hlng. cbn zeta. unfold put_location.
  cbn [orderId latitude longitude truthy ToNumber lt].
  assert (Hlat0 : Qeq_bool lat 0 = false).
  { apply not_true_iff_false. intros H. by apply Qeq_bool_iff in H. }
  assert (Hlng0 : Qeq_bool lng 0 = false).
  { apply not_true_iff_false. intros H. by apply Qeq_bool_iff in H. }
  rewrite Hoid, Hlat0, Hlng0. cbn [negb orb].
  assert (Hlt : ∀ a b : Q, negb (Qle_bool b a) = true ↔ (a < b)%Q).
  { intros a b. rewrite negb_true_iff, <- not_true_iff_false, Qle_bool_iff.
    split; [apply Qnot_le_lt | apply Qlt_not_le]. }
  destruct (_ || _ || _ || _) eqn:Hrange.
  - split; [|done]. split; [done|]. intros _.
    rewrite !orb_true_iff, !Hlt in Hrange. unfold out_of_range.
    change (inject_Z (-90)) with (-90)%Q in Hrange.
    change (inject_Z 90) with 90%Q in Hrange.
    change (inject_Z (-180)) with (-180)%Q in Hrange.
    change (inject_Z 180) with 180%Q in Hrange. tauto.
  - assert (Hin : ¬ out_of_range lat lng).
    { unfold out_of_range. intros Hout.
      apply not_true_iff_false in Hrange. apply Hrange.
      rewrite !orb_true_iff, !Hlt.
      change (inject_Z (-90)) with (-90)%Q.
      change (inject_Z 90) with 90%Q.
      change (inject_Z (-180)) with (-180)%Q.
      change (inject_Z 180) with 180%Q. tauto. }
    split; [|done]. split; [done|].
    by destruct (driver_order_check _ _ _).
Qed.

Lemma coordinates_range_gate_witness :
  let w := {| orders := [{| id := "17"; status := "picked_up";
                            customer_id := 4; driver_id := Some 9%Z |}];
              driver_locations := []; cache := ∅;
              sseConnections := {[ "17" := [1%nat] ]}; wire := [] |} in
  put_location (λ _, NaN) (λ _, NaN) (λ _, "") "2024-05-01T12:00:00.000Z"
               (λ _, true) 9
               {| orderId := Str "17"; latitude := Number (Num (901 # 10));
                  longitude := Number (Num 10) |} w
  = ({| code := 400; body := error_body "Invalid coordinates" |}, w) ∧
  ¬ out_of_range 90 (-180).
Proof.
  intros w.
  destruct (coordinates_range_gate (λ _, NaN) (λ _, NaN) (λ _, "")
              "2024-05-01T12:00:00.000Z" (λ _, true) 9 (Str "17")
              (901 # 10) 10 w) as [Hiff Hw].
  - reflexivity.
  - discriminate.
  - discriminate.
  - assert (Hout : out_of_range (901 # 10) 10) by (right; left; reflexivity).
    split.
    + apply injective_projections; [by apply Hiff | by apply Hw].
    + unfold out_of_range. intros [H|[H|[H|H]]]; discriminate H.
Defined.

End StreamRegistryFacts.

(** ** The restaurant's routes and the driver's assignment *)
Section RestaurantRoutesFacts.
Import JS Orders RestaurantRoutes Requests.

(** The common shape of the three routes after the body check. *)
Lemma guarded_update_cases (rs : list restaurant_row) (oid : string) (user : Z)
    (from : list string) (to : string) (os : list order_row)
    (orders' rows : list order_row) :
  sql_update (guarded_match rs oid user from) (with_status to) os
  = (orders', rows) →
  orders' = (λ o, if guarded_match rs oid user from o
                  then with_status to o else o) <$> os ∧
  (rows = [] ↔ ¬ Exists (λ o, guarded_match rs oid user from o = true) os) ∧
  (rows = [] → orders' = os).
Proof.
  intros Hupd.
  pose proof (sql_update_rows (guarded_match rs oid user from)
                (with_status to) os) as Hrows.
  pose proof (sql_update_unchanged (guarded_match rs oid user from)
                (with_status to) os) as Hsame.
  rewrite Hupd in Hrows, Hsame. cbn [fst snd] in Hrows, Hsame.
  split; [|done]. unfold sql_update in Hupd. by injection Hupd as <- _.
Qed.

Lemma run_route_cases (r : route) (oid : string) (user : Z) (w : world) :
  let res := run_route r oid user w in
  let reached := guarded_match (restaurants w) oid user (route_from r) in
  (code res.1 = 200%Z ↔
     route_body_ok r = true ∧ Exists (λ o, reached o = true) (orders w)) ∧
  (code res.1 = 200%Z ∨ res.2 = w) ∧
  (if route_body_ok r then code res.1 = 200%Z ∨ code res.1 = 404%Z
   else code res.1 = 400%Z) ∧
  orders res.2 = (if decide (code res.1 = 200%Z)
                  then (λ o, if reached o then with_status (route_to r) o
                             else o) <$> orders w
                  else orders w) ∧
  restaurants res.2 = restaurants w ∧ cache res.2 = cache w.
Proof.
  cbn zeta.
  assert (Hmain : ∀ from to (ok missing : response),
    code ok = 200%Z → code missing = 404%Z →
    let res :=
      (let '(orders', rows) :=
         sql_update (guarded_match (restaurants w) oid user from)
                    (with_status to) (orders w) in
       match rows with
       | [] => (missing, same_tables orders' w)
       | order :: _ => (ok, same_tables orders' w)
       end) in
    ∀ (mk : order_row → response),
    (∀ o, code (mk o) = 200%Z) →
    let res' :=
      (let '(orders', rows) :=
         sql_update (guarded_match (restaurants w) oid user from)
                    (with_status to) (orders w) in
       match rows with
       | [] => (missing, same_tables orders' w)
       | order :: _ => (mk order, same_tables orders' w)
       end) in
    (code res'.1 = 200%Z ↔
       Exists (λ o, guarded_match (restaurants w) oid user from o = true)
              (orders w)) ∧
    (code res'.1 = 200%Z ∨ res'.2 = w) ∧
    (code res'.1 = 200%Z ∨ code res'.1 = 404%Z) ∧
    orders res'.2 = (if decide (code res'.1 = 200%Z)
                     then (λ o, if guarded_match (restaurants w) oid user from o
                                then with_status to o else o) <$> orders w
                     else orders w) ∧
    restaurants res'.2 = restaurants w ∧ cache res'.2 = cache w).
  { intros from to ok missing _ Hmissing _ mk Hmk. cbn zeta.
    destruct (sql_update _ _ _) as [orders' rows] eqn:Hupd.
    apply guarded_update_cases in Hupd as (Horders & Hrows & Hsame).
    destruct rows as [|order rows]; cbn [fst snd same_tables orders restaurants cache].
    - rewrite Hmissing. rewrite decide_False by done.
      split; [|split; [|split; [|split; [|done]]]].
      + split; [done|]. intros Hex. by apply Hrows in Hex.
      + right. rewrite Hsame by done. by destruct w.
      + by right.
      + by apply Hsame.
    - rewrite Hmk. rewrite decide_True by done.
      split; [|split; [|split; [|split; [|done]]]]; [|by left|by left|done].
      split; [|done]. intros _.
      destruct (decide (Exists (λ o, guarded_match (restaurants w) oid user
                                       from o = true) (orders w)))
        as [|Hn]; [done|]. by apply Hrows in Hn. }
  destruct r as [estimatedPrepTime| |reason]; cbn [run_route route_from route_to route_body_ok].
  - unfold accept_order.
    destruct (Hmain ["confirmed"] "preparing"
                {| code := 200; body := Null |}
                {| code := 404;
                   body := error_body
                     "Order not found, access denied, or already processed" |}
                eq_refl eq_refl
                (λ order,
                   {| code := 200;
                      body := Obj [("message", Str "Order accepted and preparation started");
                                   ("orderId", Str (id order));
                                   ("status", Str "preparing");
                                   ("estimatedPrepTime",
                                    if truthy estimatedPrepTime
                                    then estimatedPrepTime else int 25)] |})
                (λ _, eq_refl)) as (H1 & H2 & H2' & H3 & H4 & H5).
    split; [|split; [|split]]; [|done|done|done].
    rewrite H1. tauto.
  - unfold ready_order.
    destruct (Hmain ["preparing"] "ready"
                {| code := 200; body := Null |}
                {| code := 404;
                   body := error_body
                     "Order not found, access denied, or not in preparing state" |}
                eq_refl eq_refl
                (λ order,
                   {| code := 200;
                      body := Obj [("message", Str "Order marked as ready for pickup");
                                   ("orderId", Str (id order));
                                   ("status", Str "ready");
                                   ("instruction",
                                    Str "Order is now available for driver pickup")] |})
                (λ _, eq_refl)) as (H1 & H2 & H2' & H3 & H4 & H5).
    split; [|split; [|split]]; [|done|done|done].
    rewrite H1. tauto.
  - unfold cancel_order. destruct (truthy reason) eqn:Hreason; cbn [negb].
    + destruct (Hmain ["confirmed"; "preparing"; "ready"] "cancelled"
                {| code := 200; body := Null |}
                {| code := 404;
                   body := error_body
                     "Order not found, access denied, or cannot be cancelled (already picked up/delivered)" |}
                eq_refl eq_refl
                (λ order,
                   {| code := 200;
                      body := Obj [("message", Str "Order cancelled successfully");
                                   ("orderId", Str (id order));
                                   ("status", Str "cancelled");
                                   ("reason", reason);
                                   ("instruction",
                                    Str "Customer will be notified of cancellation")] |})
                (λ _, eq_refl)) as (H1 & H2 & H2' & H3 & H4 & H5).
      split; [|split; [|split]]; [|done|done|done].
      rewrite H1. tauto.
    + cbn. split; [|split; [|split]]; [|by right|done|done].
      split; [done|]. by intros [? _].
Qed.

Lemma guarded_match_inv (rs : list restaurant_row) (oid : string) (user : Z)
    (from : list string) (o : order_row) :
  guarded_match rs oid user from o = true →
  id o = oid ∧ restaurant_match rs oid user o = true ∧ status o ∈ from.
Proof.
  unfold guarded_match. intros [Hm Hs]%andb_true_iff.
  apply bool_decide_eq_true in Hs. split; [|done].
  unfold restaurant_match in Hm. apply andb_true_iff in Hm as [Hid _].
  by apply bool_decide_eq_true in Hid.
Qed.

Lemma restaurant_match_with_status (rs : list restaurant_row) (oid : string)
    (user : Z) (s : string) (o : order_row) :
  restaurant_match rs oid user (with_status s o) = restaurant_match rs oid user o.
Proof. done. Qed.

Lemma route_moves_are_valid (r : route) (s : string) :
  s ∈ route_from r → spec_valid_transition "restaurant" s (route_to r) = true.
Proof.
  destruct r; cbn [route_from route_to]; intros Hs;
    repeat (apply elem_of_cons in Hs as [->|Hs]; [by vm_compute|]);
    by apply elem_of_nil in Hs.
Qed.

Lemma unique_ids_eq (os : list order_row) (o o' : order_row) :
  unique_ids os → o ∈ os → o' ∈ os → id o = id o' → o = o'.
Proof.
  unfold unique_ids. induction os as [|x os IH]; [by intros _ ?%elem_of_nil|].
  rewrite fmap_cons, NoDup_cons.
  intros [Hx Hnd] [->|Ho]%elem_of_cons [->|Ho']%elem_of_cons Hid.
  - done.
  - exfalso. apply Hx. rewrite Hid. by apply list_elem_of_fmap_2.
  - exfalso. apply Hx. rewrite <- Hid. by apply list_elem_of_fmap_2.
  - by apply IH.
Qed.

Lemma unique_ids_update (matches : order_row → bool)
    (set : order_row → order_row) (os : list order_row) :
  (∀ o, id (set o) = id o) →
  unique_ids os → unique_ids ((λ o, if matches o then set o else o) <$> os).
Proof.
  intros Hset. unfold unique_ids.
  assert (Heq : id <$> ((λ o, if matches o then set o else o) <$> os)
                = id <$> os); [|by rewrite Heq].
  induction os as [|o os IH]; [done|]. cbn. rewrite IH. f_equal.
  destruct (matches o); [apply Hset|done].
Qed.

(** The rows a route reaches, spelled out. *)
Lemma guarded_match_exists (rs : list restaurant_row) (oid : string)
    (user : Z) (from : list string) (os : list order_row) :
  Exists (λ o, guarded_match rs oid user from o = true) os ↔
  ∃ o rest, o ∈ os ∧ rest ∈ rs ∧ id o = oid ∧
            rest_id rest = restaurant_id o ∧ rest_user rest = user ∧
            status o ∈ from.
Proof.
  rewrite Exists_exists. split.
  - intros (o & Ho & Hm). unfold guarded_match, restaurant_match in Hm.
    apply andb_true_iff in Hm as [[Hid Hrest]%andb_true_iff Hs].
    apply bool_decide_eq_true in Hid, Hrest, Hs.
    apply Exists_exists in Hrest as (rest & Hin & Hrid & Huser).
    by exists o, rest.
  - intros (o & rest & Ho & Hin & Hid & Hrid & Huser & Hs).
    exists o. split; [done|]. unfold guarded_match, restaurant_match.
    rewrite !andb_true_iff, !bool_decide_eq_true.
    split; [split; [done|]|done]. apply Exists_exists. by exists rest.
Qed.

(** X8. The gate of the restaurant's three routes.  Accept, ready and
    cancel answer 200 exactly when the body is acceptable (cancel needs a
    reason), the store answers, the id of the URL denotes an integer, and
    the table holds the order of that id, of a restaurant of the calling
    user, in a status the route starts from: confirmed for accept,
    preparing for ready, confirmed, preparing or ready for cancel.  A
    cancel without reason is answered 400; a request whose query raises
    an error, because the store is down or the id denotes no integer of
    the column, is answered 500; every other refusal is 404.  A request
    that is not answered 200 leaves the tables and the cache as they
    were. *)
Theorem restaurant_route_gate (int4_in : string → option Z) (store_up : bool)
    (r : route) (orderId : string) (user : Z) (w : world) :
  let res := restaurant_request int4_in store_up r orderId user w in
  (code res.1 = 200%Z ↔
     route_body_ok r = true ∧ store_up = true ∧
     ∃ n o rest, int4_in orderId = Some n ∧
                 o ∈ orders w ∧ rest ∈ restaurants w ∧ id o = pretty n ∧
                 rest_id rest = restaurant_id o ∧ rest_user rest = user ∧
                 status o ∈ route_from r) ∧
  (code res.1 = 400%Z ↔ route_body_ok r = false) ∧
  (code res.1 = 500%Z ↔
     route_body_ok r = true ∧ (store_up = false ∨ int4_in orderId = None)) ∧
  (code res.1 = 200%Z ∨ code res.1 = 400%Z ∨ code res.1 = 404%Z
   ∨ code res.1 = 500%Z) ∧
  (code res.1 ≠ 200%Z → res.2 = w).
Proof.
  cbn zeta. unfold restaurant_request, query_id.
  destruct (route_body_ok r) eqn:Hbody; cbn [negb].
  2:{ destruct (run_route_cases r orderId user w) as (Hok & Hsame & Hcode & _).
      rewrite Hbody in Hcode, Hok.
      split; [|split; [|split; [|split]]].
      - rewrite Hok. split; [by intros [? _]|by intros [? _]].
      - done.
      - rewrite Hcode. split; [done|by intros [? _]].
      - by right; left.
      - intros Hne. by destruct Hsame. }
  destruct store_up.
  2:{ cbn. split; [|split; [|split; [|split]]]; try done.
      - split; [done|]. by intros (_ & ? & _).
      - split; [|done]. intros _. split; [done|by left].
      - by right; right; right. }
  destruct (int4_in orderId) as [n|] eqn:Hparse.
  2:{ cbn. split; [|split; [|split; [|split]]]; try done.
      - split; [done|]. by intros (_ & _ & ? & ? & ? & ? & _).
      - split; [|done]. intros _. split; [done|by right].
      - by right; right; right. }
  destruct (run_route_cases r (pretty n) user w) as (Hok & Hsame & Hcode & _).
  rewrite Hbody in Hcode, Hok.
  split; [|split; [|split; [|split]]].
  - rewrite Hok, guarded_match_exists. split.
    + intros (_ & o & rest & ?). split; [done|]. split; [done|].
      by exists n, o, rest.
    + intros (_ & _ & n' & o & rest & [= <-] & ?). split; [done|].
      by exists o, rest.
  - split; [|done]. intros H400. destruct Hcode as [H|H]; rewrite H in H400; done.
  - split.
    + intros H500. destruct Hcode as [H|H]; rewrite H in H500; done.
    + intros (_ & [?|?]); done.
  - destruct Hcode; [by left|by right; right; left].
  - intros Hne. by destruct Hsame.
Qed.

(** X9. The restaurant's routes keep to the order state machine.
    Whatever the request, every row of the table is either left as it
    was or is a row with the requested id whose status alone was changed,
    by a move the state machine allows a restaurant: confirmed to
    preparing, preparing to ready, or one of confirmed, preparing, ready
    to cancelled.  An order that is picked up, delivered or cancelled is
    therefore never changed by these routes; nor is the restaurants table
    or the status cache. *)
Theorem restaurant_routes_follow_state_machine (r : route) (oid : string)
    (user : Z) (w : world) :
  let w' := (run_route r oid user w).2 in
  Forall2 (λ o o',
             o' = o ∨
             (id o = oid ∧ same_but_status o o' ∧ status o' = route_to r ∧
              spec_valid_transition "restaurant" (status o) (status o') = true))
          (orders w) (orders w') ∧
  (∀ o, o ∈ orders w →
        status o ∈ ["picked_up"; "delivered"; "cancelled"] → o ∈ orders w') ∧
  restaurants w' = restaurants w ∧ cache w' = cache w.
Proof.
  cbn zeta.
  destruct (run_route_cases r oid user w) as (_ & _ & _ & Horders & Hrs & Hc).
  assert (Hmoves : Forall2 (λ o o',
             o' = o ∨
             (id o = oid ∧ same_but_status o o' ∧ status o' = route_to r ∧
              spec_valid_transition "restaurant" (status o) (status o') = true))
          (orders w) (orders (run_route r oid user w).2)).
  { rewrite Horders. case_decide as Hcode.
    - apply Forall2_fmap_r, Forall_Forall2_diag, Forall_forall.
      intros o _. unfold compose.
      destruct (guarded_match (restaurants w) oid user (route_from r) o)
        eqn:Hm; [|by left]. right.
      apply guarded_match_inv in Hm as (Hid & _ & Hs).
      split; [done|]. split; [done|]. split; [done|].
      by apply route_moves_are_valid.
    - apply Forall_Forall2_diag, Forall_forall. intros o _. by left. }
  split; [done|]. split; [|done].
  intros o Ho Hsettled.
  apply list_elem_of_lookup in Ho as [i Hi].
  destruct (Forall2_lookup_l _ _ _ _ _ Hmoves Hi) as (o' & Hi' & Hrel).
  apply (list_elem_of_lookup_2 _ i).
  destruct Hrel as [->|(_ & _ & Hto & Hvalid)]; [done|]. exfalso.
  rewrite Hto in Hvalid.
  repeat (apply elem_of_cons in Hsettled as [Hs|Hsettled];
          [rewrite Hs in Hvalid; destruct r; by vm_compute in Hvalid|]).
  by apply elem_of_nil in Hsettled.
Qed.

(** X10. How the routes follow one another.  After one of the three
    routes has answered 200 for an order, and the order table has one row
    per id, a further request of the same user for that order is answered
    200 exactly when its body is acceptable and the status just set is
    one the requested route starts from.  So a second accept is refused
    ("already processed"), ready succeeds after accept, cancel succeeds
    after accept or ready, and nothing succeeds after cancel. *)
Theorem restaurant_routes_in_sequence (r r' : route) (oid : string)
    (user : Z) (w : world) :
  unique_ids (orders w) →
  code (run_route r oid user w).1 = 200%Z →
  let w1 := (run_route r oid user w).2 in
  unique_ids (orders w1) ∧
  (code (run_route r' oid user w1).1 = 200%Z ↔
     route_body_ok r' = true ∧ route_to r ∈ route_from r').
Proof.
  intros Huniq H200. cbn zeta.
  destruct (run_route_cases r oid user w) as (Hok & _ & _ & Horders & Hrs & _).
  destruct (run_route_cases r' oid user (run_route r oid user w).2)
    as (Hok' & _).
  rewrite decide_True in Horders by done.
  apply Hok in H200 as [_ Hex]. apply Exists_exists in Hex as (o & Ho & Hm).
  split.
  { rewrite Horders. by apply unique_ids_update. }
  rewrite Hok'. apply and_iff_compat_l. rewrite Hrs, Horders.
  rewrite Exists_exists. split.
  - intros (o1 & Ho1 & Hm1).
    apply list_elem_of_fmap in Ho1 as (o0 & -> & Ho0).
    destruct (guarded_match (restaurants w) oid user (route_from r) o0) eqn:Hm0.
    + by apply guarded_match_inv in Hm1 as (_ & _ & Hs).
    + apply guarded_match_inv in Hm1 as (Hid1 & _ & _).
      pose proof (guarded_match_inv _ _ _ _ _ Hm) as (Hid & _ & _).
      assert (o = o0) as <-.
      { apply (unique_ids_eq (orders w)); [done..|]. by rewrite Hid, Hid1. }
      congruence.
  - intros Hto. exists (with_status (route_to r) o). split.
    + apply list_elem_of_fmap. exists o. by rewrite Hm.
    + apply guarded_match_inv in Hm as (_ & Hrm & _).
      unfold guarded_match. rewrite restaurant_match_with_status, Hrm.
      cbn. by apply bool_decide_eq_true.
Qed.

Lemma restaurant_routes_in_sequence_witness :
  let w := {| orders := [{| id := "17"; customer_id := 4; restaurant_id := 2;
                            driver_id := None; status := "confirmed" |}];
              restaurants := [{| rest_id := 2; rest_user := 5 |}];
              cache := ∅ |} in
  let w1 := (run_route (Accept Undefined) "17" 5 w).2 in
  code (run_route (Accept Undefined) "17" 5 w).1 = 200%Z ∧
  code (run_route Ready "17" 5 w1).1 = 200%Z ∧
  code (run_route (Accept Undefined) "17" 5 w1).1 ≠ 200%Z.
Proof.
  intros w w1.
  assert (Huniq : unique_ids (orders w)).
  { apply (bool_decide_unpack _). vm_compute. exact I. }
  assert (H200 : code (run_route (Accept Undefined) "17" 5 w).1 = 200%Z)
    by reflexivity.
  split; [exact H200|]. split.
  - apply (restaurant_routes_in_sequence (Accept Undefined) Ready "17" 5 w
             Huniq H200).
    split; [reflexivity|]. apply (bool_decide_unpack _). vm_compute. exact I.
  - intros Hagain.
    apply (restaurant_routes_in_sequence (Accept Undefined) (Accept Undefined)
             "17" 5 w Huniq H200) in Hagain as [_ Hin].
    revert Hin. apply (bool_decide_unpack _). vm_compute. exact I.
Defined.

Lemma assign_order_cases (delivery_address : string → value) (oid : string)
    (driverId : Z) (w : world) :
  let res := assign_order delivery_address oid driverId w in
  (code res.1 = 200%Z ↔ Exists (λ o, assign_match oid o = true) (orders w)) ∧
  (code res.1 = 200%Z ∨ (code res.1 = 400%Z ∧ res.2 = w)) ∧
  orders res.2 = (λ o, if assign_match oid o then with_driver driverId o else o)
                 <$> orders w ∧
  restaurants res.2 = restaurants w ∧ cache res.2 = cache w.
Proof.
  cbn zeta. unfold assign_order.
  destruct (sql_update _ _ _) as [orders' rows] eqn:Hupd.
  pose proof (sql_update_rows (assign_match oid) (with_driver driverId)
                (orders w)) as Hrows.
  pose proof (sql_update_unchanged (assign_match oid) (with_driver driverId)
                (orders w)) as Hsame.
  rewrite Hupd in Hrows, Hsame. cbn [fst snd] in Hrows, Hsame.
  assert (Horders : orders' = (λ o, if assign_match oid o
                                    then with_driver driverId o else o)
                              <$> orders w).
  { unfold sql_update in Hupd. by injection Hupd as <- _. }
  destruct rows as [|order rows]; cbn [fst snd same_tables orders restaurants cache code].
  - split; [|split; [|done]].
    + split; [done|]. intros Hex. by apply Hrows in Hex.
    + right. split; [done|]. rewrite Hsame by done. by destruct w.
  - split; [|split; [by left|done]]. split; [|done]. intros _.
    destruct (decide (Exists (λ o, assign_match oid o = true) (orders w)))
      as [|Hn]; [done|]. by apply Hrows in Hn.
Qed.

Lemma assign_match_inv (oid : string) (o : order_row) :
  assign_match oid o = true ↔
  id o = oid ∧ driver_id o = None ∧ status o = "ready".
Proof.
  unfold assign_match. rewrite !andb_true_iff, !bool_decide_eq_true. tauto.
Qed.

(** X11. The driver's self-assignment.  The route answers 200 exactly
    when the store answers, the id of the URL denotes an integer, and
    the table holds the order of that id, ready and without a driver.  A
    request whose query raises an error, because the store is down or
    the id denotes no integer of the column, is answered 500, every
    other refusal 400, and a request that is not answered 200 changes
    nothing.  The route writes the driver into the rows it reaches and
    nothing else: no status changes, and an order that already has a
    driver, or is not ready, stays as it is. *)
Theorem assign_order_gate (int4_in : string → option Z)
    (delivery_address : string → value) (store_up : bool) (orderId : string)
    (driverId : Z) (w : world) :
  let res := assign_request int4_in delivery_address store_up orderId
               driverId w in
  (code res.1 = 200%Z ↔
     store_up = true ∧
     ∃ n o, int4_in orderId = Some n ∧ o ∈ orders w ∧ id o = pretty n ∧
            driver_id o = None ∧ status o = "ready") ∧
  (code res.1 = 500%Z ↔ store_up = false ∨ int4_in orderId = None) ∧
  (code res.1 = 200%Z ∨ code res.1 = 400%Z ∨ code res.1 = 500%Z) ∧
  (code res.1 ≠ 200%Z → res.2 = w) ∧
  Forall2 (λ o o',
             o' = o ∨
             (driver_id o = None ∧ status o = "ready" ∧
              o' = with_driver driverId o))
          (orders w) (orders res.2) ∧
  restaurants res.2 = restaurants w ∧ cache res.2 = cache w.
Proof.
  cbn zeta. unfold assign_request, query_id.
  assert (Hsame : Forall2 (λ o o',
             o' = o ∨
             (driver_id o = None ∧ status o = "ready" ∧
              o' = with_driver driverId o)) (orders w) (orders w)).
  { apply Forall_Forall2_diag, Forall_forall. intros o _. by left. }
  destruct store_up.
  2:{ cbn. split; [|split; [|split; [|split; [done|]]]]; try done.
      - split; [done|]. by intros [? _].
      - split; [|done]. intros _. by left.
      - by right; right. }
  destruct (int4_in orderId) as [n|] eqn:Hparse.
  2:{ cbn. split; [|split; [|split; [|split; [done|]]]]; try done.
      - split; [done|]. by intros (_ & ? & ? & ? & _).
      - split; [|done]. intros _. by right.
      - by right; right. }
  destruct (assign_order_cases delivery_address (pretty n) driverId w)
    as (Hok & Hcode & Horders & Hrs & Hc).
  split; [|split; [|split; [|split; [|split; [|done]]]]].
  - rewrite Hok, Exists_exists. split.
    + intros (o & Ho & (? & ? & ?)%assign_match_inv). split; [done|].
      by exists n, o.
    + intros (_ & n' & o & [= <-] & Ho & ? & ? & ?). exists o.
      split; [done|]. by apply assign_match_inv.
  - split.
    + intros H500. destruct Hcode as [H|[H _]]; rewrite H in H500; done.
    + intros [?|?]; done.
  - destruct Hcode as [?|[? _]]; [by left|by right; left].
  - intros Hne. by destruct Hcode as [?|[_ ?]].
  - rewrite Horders.
    apply Forall2_fmap_r, Forall_Forall2_diag, Forall_forall.
    intros o _. unfold compose.
    destruct (assign_match (pretty n) o) eqn:Hm; [|by left]. right.
    apply assign_match_inv in Hm as (? & ? & ?). done.
Qed.

(** X12. An assignment is exclusive.  Once a driver's assignment of an
    order was answered 200, and the order table has one row per id, every
    further assignment of that order, by any driver, is answered 400 and
    changes nothing; a status update of the order by another driver is
    refused and changes nothing; and the assigned driver's own update to
    picked_up or delivered is accepted. *)
Theorem assignment_is_exclusive (delivery_address : string → value)
    (oid : string) (driverId : Z) (w : world) :
  unique_ids (orders w) →
  code (assign_order delivery_address oid driverId w).1 = 200%Z →
  let w1 := (assign_order delivery_address oid driverId w).2 in
  (∀ other,
     code (assign_order delivery_address oid other w1).1 = 400%Z ∧
     (assign_order delivery_address oid other w1).2 = w1) ∧
  (∀ other now s,
     other ≠ driverId →
     let p := put_status now {| orderId := oid; new_status := s;
                                userId := other; userType := "driver" |} w1 in
     code p.1 ≠ 200%Z ∧ p.2 = w1) ∧
  (∀ now s,
     includes ["picked_up"; "delivered"] s = true →
     code (put_status now {| orderId := oid; new_status := s;
                             userId := driverId; userType := "driver" |} w1).1
     = 200%Z).
Proof.
  intros Huniq H200. cbn zeta.
  destruct (assign_order_cases delivery_address oid driverId w)
    as (Hok & _ & Horders & Hrs & _).
  apply Hok in H200. apply Exists_exists in H200 as (o & Ho & Hm).
  pose proof Hm as (Hid & Hnone & Hready)%assign_match_inv.
  set (w1 := (assign_order delivery_address oid driverId w).2) in *.
  assert (Hrow : ∀ o1, o1 ∈ orders w1 → id o1 = oid →
                       o1 = with_driver driverId o).
  { intros o1 Ho1 Hid1. rewrite Horders in Ho1.
    apply list_elem_of_fmap in Ho1 as (o0 & -> & Ho0).
    assert (o = o0) as <-.
    { apply (unique_ids_eq (orders w)); [done..|].
      rewrite Hid, <- Hid1. by destruct (assign_match oid o0). }
    by rewrite Hm. }
  assert (Hin : with_driver driverId o ∈ orders w1).
  { rewrite Horders. apply list_elem_of_fmap. exists o. by rewrite Hm. }
  split; [|split].
  - intros other.
    destruct (assign_order_cases delivery_address oid other w1)
      as (Hok1 & Hsame1 & _).
    destruct Hsame1 as [H200|]; [|done]. exfalso.
    apply Hok1, Exists_exists in H200 as (o1 & Ho1 & Hm1).
    apply assign_match_inv in Hm1 as (Hid1 & Hnone1 & _).
    by rewrite (Hrow o1 Ho1 Hid1) in Hnone1.
  - intros other now s Hother. cbn zeta.
    destruct (put_status_cases now {| orderId := oid; new_status := s;
                userId := other; userType := "driver" |} w1)
      as (Hok1 & Hsame1 & _).
    assert (Hne : code (put_status now {| orderId := oid; new_status := s;
                userId := other; userType := "driver" |} w1).1 ≠ 200%Z).
    { intros H200. apply Hok1 in H200 as [_ Hex].
      apply Exists_exists in Hex as (o1 & Ho1 & Hm1).
      unfold row_matches, driver_match in Hm1. cbn in Hm1.
      apply andb_true_iff in Hm1 as [Hid1 Hdrv].
      apply bool_decide_eq_true in Hid1, Hdrv.
      rewrite (Hrow o1 Ho1 Hid1) in Hdrv. cbn in Hdrv.
      destruct Hdrv as [|[= ?]]; done. }
    split; [done|]. by destruct Hsame1 as [|[? _]].
  - intros now s Hs.
    apply (put_status_cases now {| orderId := oid; new_status := s;
             userId := driverId; userType := "driver" |} w1).
    split.
    + unfold may_set. cbn. by rewrite Hs.
    + apply Exists_exists. exists (with_driver driverId o). split; [done|].
      unfold row_matches, driver_match. cbn.
      rewrite andb_true_iff, !bool_decide_eq_true. split; [done|by right].
Qed.

Lemma assignment_is_exclusive_witness :
  let w := {| orders := [{| id := "17"; customer_id := 4; restaurant_id := 2;
                            driver_id := None; status := "ready" |}];
              restaurants := [{| rest_id := 2; rest_user := 5 |}];
              cache := ∅ |} in
  let w1 := (assign_order (λ _, Str "1 Main Street") "17" 9 w).2 in
  code (assign_order (λ _, Str "1 Main Street") "17" 9 w).1 = 200%Z ∧
  code (assign_order (λ _, Str "1 Main Street") "17" 8 w1).1 = 400%Z ∧
  code (put_status "2024-05-01T12:00:00.000Z"
          {| orderId := "17"; new_status := Str "delivered";
             userId := 8; userType := "driver" |} w1).1 ≠ 200%Z ∧
  code (put_status "2024-05-01T12:00:00.000Z"
          {| orderId := "17"; new_status := Str "picked_up";
             userId := 9; userType := "driver" |} w1).1 = 200%Z.
Proof.
  intros w w1.
  assert (Huniq : unique_ids (orders w)).
  { apply (bool_decide_unpack _). vm_compute. exact I. }
  assert (H200 : code (assign_order (λ _, Str "1 Main Street") "17" 9 w).1
                 = 200%Z) by reflexivity.
  destruct (assignment_is_exclusive (λ _, Str "1 Main Street") "17" 9 w
              Huniq H200) as (Hassign & Hother & Hown).
  split; [exact H200|]. split; [apply Hassign|]. split.
  - apply (Hother 8%Z "2024-05-01T12:00:00.000Z" (Str "delivered")). lia.
  - apply Hown. reflexivity.
Defined.

End RestaurantRoutesFacts.

(** ** Short polling of the order status *)
Section TrackingFacts.
Import JS Orders RestaurantRoutes Requests OrderTracking.

Lemma assoc_set_eq (k : string) (v : value) (fields : list (string * value)) :
  assoc k (assoc_set k v fields) = Some v.
Proof.
  induction fields as [|[k' v'] fields IH]; cbn.
  - by rewrite String.eqb_refl.
  - destruct (String.eqb k k') eqn:Hk; cbn; rewrite ?String.eqb_refl, ?Hk; done.
Qed.

Lemma assoc_set_ne (k k' : string) (v : value)
    (fields : list (string * value)) :
  k ≠ k' → assoc k (assoc_set k' v fields) = assoc k fields.
Proof.
  intros Hne. induction fields as [|[k0 v0] fields IH]; cbn.
  - by rewrite (proj2 (String.eqb_neq k k')).
  - destruct (String.eqb k' k0) eqn:Hk0; cbn.
    + apply String.eqb_eq in Hk0 as <-.
      by rewrite (proj2 (String.eqb_neq k k')).
    + destruct (String.eqb k k0); [done|apply IH].
Qed.

Lemma prop_set_prop_eq (k : string) (v : value)
    (fields : list (string * value)) :
  prop k (set_prop k v (Obj fields)) = Some v.
Proof. apply assoc_set_eq. Qed.

Lemma prop_set_prop_ne (k k' : string) (v o : value) :
  k ≠ k' → prop k (set_prop k' v o) = prop k o.
Proof. intros Hne. destruct o; try done. by apply assoc_set_ne. Qed.

Section WithClock.
Variable getTime : value → number.
Variable toISOString : Z → string.
Variable columns_of : order_row → columns.

Lemma usable_fields (now : Z) (c : value) :
  usable getTime now c = true → ∃ fields, c = Obj fields.
Proof.
  unfold usable. destruct c; cbn; try by rewrite ?andb_false_r.
  intros _. by eexists.
Qed.

(** An object stamped at [t] is usable for 30 seconds. *)
Lemma usable_stamped (t now : Z) (fields : list (string * value)) :
  getTime (Str (toISOString t)) = Num (inject_Z t) →
  toISOString t ≠ "" →
  (now - t < 30000)%Z →
  assoc "lastUpdated" fields = Some (Str (toISOString t)) →
  usable getTime now (Obj fields) = true.
Proof.
  intros Hround Hiso Hage Hstamp. unfold usable. cbn [truthy prop andb].
  rewrite Hstamp. cbn [truthy]. rewrite Hround. cbn [minus lt].
  rewrite (proj2 (String.eqb_neq _ _) Hiso). cbn [negb andb].
  apply negb_true_iff, not_true_iff_false. rewrite Qle_bool_iff.
  unfold Qminus. rewrite <- inject_Z_opp, <- inject_Z_plus, <- Zle_Qle. lia.
Qed.

Lemma orderStatus_fields (now : Z) (order : order_row) :
  ∃ fields,
    orderStatus toISOString columns_of now order = Obj fields ∧
    assoc "lastUpdated" fields = Some (Str (toISOString now)) ∧
    assoc "status" fields = Some (Str (status order)).
Proof.
  unfold orderStatus. eexists. split; [reflexivity|].
  by destruct (estimatedDelivery columns_of order).
Qed.

Lemma answer_cached (oid : string) (fromCache : bool)
    (fields : list (string * value)) :
  code (answer oid fromCache (Obj fields)) = 200%Z ∧
  reported_status (answer oid fromCache (Obj fields)) = assoc "status" fields ∧
  served_from_cache (answer oid fromCache (Obj fields))
  = Some (Bool fromCache).
Proof.
  split; [done|]. unfold reported_status, served_from_cache, answer.
  cbn [body]. rewrite prop_set_prop_eq. split; [|done].
  by rewrite prop_set_prop_ne.
Qed.

(** A poll that finds a usable cache entry answers from it. *)
Lemma get_order_status_hit (now : Z) (oid : string) (userId : Z)
    (userType : string) (w : world) (c : value) :
  cache w !! ("order_status:" +:+ oid) = Some c →
  usable getTime now c = true →
  get_order_status getTime toISOString columns_of now oid userId userType w
  = (answer oid true c, w).
Proof. intros Hc Hu. unfold get_order_status. by rewrite Hc, Hu. Qed.

(** A poll answered 200 from the table has cached what it answered. *)
Lemma get_order_status_fetched (now : Z) (oid : string) (userId : Z)
    (userType : string) (w : world) :
  let r := get_order_status getTime toISOString columns_of now oid userId userType w in
  code r.1 = 200%Z →
  served_from_cache r.1 = Some (Bool false) →
  ∃ order,
    order ∈ orders w ∧ id order = oid ∧
    r = (answer oid false (orderStatus toISOString columns_of now order),
         {| orders := orders w; restaurants := restaurants w;
            cache := <[("order_status:" +:+ oid) :=
                         orderStatus toISOString columns_of now order]>
                       (cache w) |}).
Proof.
  cbn zeta. unfold get_order_status.
  assert (Hhit : ∀ c, usable getTime now c = true →
                      served_from_cache (answer oid true c)
                      ≠ Some (Bool false)).
  { intros c [fields ->]%usable_fields.
    destruct (answer_cached oid true fields) as (_ & _ & ->). done. }
  assert (Hrow : ∀ order rows,
            filter (λ o, id o = oid) (orders w) = order :: rows →
            order ∈ orders w ∧ id order = oid).
  { intros order rows Hf.
    assert (Hin : order ∈ filter (λ o, id o = oid) (orders w))
      by (rewrite Hf; left).
    by apply list_elem_of_filter in Hin as [? ?]. }
  destruct (cache w !! ("order_status:" +:+ oid)) as [c|] eqn:Hc.
  - destruct (usable getTime now c) eqn:Hu.
    + intros _ Hmiss. by apply Hhit in Hmiss.
    + destruct (filter _ (orders w)) as [|order rows] eqn:Hf; [done|].
      destruct (_ && _); [done|]. destruct (_ && _); [done|].
      intros _ _. exists order. by destruct (Hrow order rows).
  - destruct (filter _ (orders w)) as [|order rows] eqn:Hf; [done|].
    destruct (_ && _); [done|]. destruct (_ && _); [done|].
    intros _ _. exists order. by destruct (Hrow order rows).
Qed.

(** X13. Authorization is checked on a cache miss only.  Once a poll of
    an order was answered 200 from the table, every poll of that order in
    the next 30 seconds is answered 200 from the cache with the same
    status, whoever asks: the caller's id and role are not consulted, and
    the table is not read. *)
Theorem cached_status_skips_authorization (now now' : Z) (oid : string)
    (userId : Z) (userType : string) (w : world) :
  let r := get_order_status getTime toISOString columns_of now oid userId userType w in
  code r.1 = 200%Z →
  served_from_cache r.1 = Some (Bool false) →
  getTime (Str (toISOString now)) = Num (inject_Z now) →
  toISOString now ≠ "" →
  (now' - now < 30000)%Z →
  ∀ (otherId : Z) (otherType : string),
    let r' := get_order_status getTime toISOString columns_of now' oid
                otherId otherType r.2 in
    code r'.1 = 200%Z ∧
    reported_status r'.1 = reported_status r.1 ∧
    served_from_cache r'.1 = Some (Bool true) ∧
    r'.2 = r.2.
Proof.
  cbn zeta. intros H200 Hmiss Hround Hiso Hage otherId otherType.
  destruct (get_order_status_fetched now oid userId userType w H200 Hmiss)
    as (order & _ & _ & ->). cbn [fst snd].
  destruct (orderStatus_fields now order) as (fields & Hos & Hstamp & Hst).
  rewrite Hos.
  rewrite (get_order_status_hit now' oid otherId otherType _ (Obj fields));
    [|cbn [cache]; apply lookup_insert_eq|by apply (usable_stamped now)].
  cbn [fst snd].
  destruct (answer_cached oid true fields) as (H1 & H2 & H3).
  destruct (answer_cached oid false fields) as (_ & H2' & _).
  by rewrite H1, H2, H2', H3.
Qed.

(** The route for an id spelled as the rows carry it, with the store and
    the cache answering, is [put_status]. *)
Lemma put_status_request_canonical (int4_in : string → option Z)
    (stamp : string) (req : status_request) (w : world) (n : Z) :
  int4_in (orderId req) = Some n → pretty n = orderId req →
  put_status_request int4_in true true stamp req w = put_status stamp req w.
Proof.
  intros Hparse Hpretty. unfold put_status_request, put_status, query_id.
  destruct (includes validStatuses (new_status req)); cbn [negb]; [|done].
  destruct (String.eqb (userType req) "restaurant").
  - destruct (includes ["preparing"; "ready"] (new_status req));
      cbn [negb]; [|done].
    rewrite Hparse. cbn beta. by rewrite Hpretty.
  - destruct (String.eqb (userType req) "driver"); [|done].
    destruct (includes ["picked_up"; "delivered"] (new_status req));
      cbn [negb]; [|done].
    rewrite Hparse. cbn beta. by rewrite Hpretty.
Qed.

(** The cache after an accepted status update: refreshed under the text
    of the parameter. *)
Lemma put_status_request_cache (int4_in : string → option Z)
    (store_up cache_up : bool) (stamp : string) (req : status_request)
    (w : world) :
  code (put_status_request int4_in store_up cache_up stamp req w).1 = 200%Z →
  new_status req = Str (status_text (new_status req)) ∧
  cache (put_status_request int4_in store_up cache_up stamp req w).2
  = refresh_cache stamp (orderId req) (status_text (new_status req)) (cache w).
Proof.
  unfold put_status_request.
  destruct (includes validStatuses (new_status req)) eqn:Hvalid;
    cbn [negb]; [|done].
  assert (Hstr : new_status req = Str (status_text (new_status req))).
  { by destruct (new_status req). }
  assert (Hhead : ∀ (matches : order_row → bool) (set : order_row → order_row)
                    (P : order_row → Prop),
            (∀ o, P (set o)) →
            ∀ o rows, (sql_update matches set (orders w)).2 = o :: rows → P o).
  { intros matches set P HP o rows. unfold sql_update. cbn [snd].
    destruct (filter _ (orders w)) as [|o0 l]; [done|].
    cbn. intros [= <- _]. apply HP. }
  destruct (String.eqb (userType req) "restaurant").
  - destruct (includes ["preparing"; "ready"] (new_status req));
      cbn -[sql_update]; [|done].
    destruct (query_id _ _ _) as [n|]; [|done].
    destruct (sql_update _ _ _) as [orders' rows] eqn:Hupd.
    destruct rows as [|updatedOrder rows]; cbn -[sql_update]; [done|].
    destruct cache_up; [|done]. cbn.
    intros _. split; [done|]. f_equal.
    eapply (Hhead _ _ (λ o, status o = status_text (new_status req)));
      [|by rewrite Hupd]. done.
  - destruct (String.eqb (userType req) "driver"); cbn -[sql_update]; [|done].
    destruct (includes ["picked_up"; "delivered"] (new_status req));
      cbn -[sql_update]; [|done].
    destruct (query_id _ _ _) as [n|]; [|done].
    destruct (sql_update _ _ _) as [orders' rows] eqn:Hupd.
    destruct rows as [|updatedOrder rows]; cbn -[sql_update]; [done|].
    destruct cache_up; [|done]. cbn.
    intros _. split; [done|]. f_equal.
    eapply (Hhead _ _ (λ o, status o = status_text (new_status req)));
      [|by rewrite Hupd]. done.
Qed.

Lemma socket_update_cache (stamp : string) (sd : socket_data) (oid : string)
    (status_v estimatedTime : value) (w : world) :
  cache (socket_update_status stamp sd oid status_v estimatedTime w).2
  = cache w.
Proof.
  unfold socket_update_status. destruct (socket_ready sd) as [[rid uid]|]; [|done].
  destruct (includes _ status_v); cbn -[sql_update]; [|done].
  destruct (sql_update _ _ _) as [orders' rows]. by destruct rows.
Qed.

(** X14. A status update through [PUT /status] is seen by the polls that
    spell the order id as the update did.  The route refreshes the cache
    under the text of its parameter: when the status is cached as an
    object under that text and the update was answered 200, every poll
    of that spelling in the following 30 seconds reports the status just
    set, from the cache, whoever asks.  The entry of another spelling of
    the id (01 for 1) is not touched: a poll of that spelling that finds
    a usable entry is answered from it as before the update. *)
Theorem status_update_then_poll (int4_in : string → option Z)
    (store_up cache_up : bool) (t now : Z) (req : status_request)
    (w : world) (fields : list (string * value)) :
  cache w !! ("order_status:" +:+ orderId req) = Some (Obj fields) →
  code (put_status_request int4_in store_up cache_up (toISOString t) req w).1
  = 200%Z →
  getTime (Str (toISOString t)) = Num (inject_Z t) →
  toISOString t ≠ "" →
  (now - t < 30000)%Z →
  let w' := (put_status_request int4_in store_up cache_up (toISOString t)
               req w).2 in
  (∀ (userId : Z) (userType : string),
     let r := get_order_status getTime toISOString columns_of now (orderId req)
                userId userType w' in
     code r.1 = 200%Z ∧
     reported_status r.1 = Some (new_status req) ∧
     served_from_cache r.1 = Some (Bool true)) ∧
  (∀ (other : string) (c : value) (userId : Z) (userType : string),
     other ≠ orderId req →
     cache w !! ("order_status:" +:+ other) = Some c →
     usable getTime now c = true →
     get_order_status getTime toISOString columns_of now other
       userId userType w'
     = (answer other true c, w')).
Proof.
  intros Hc H200 Hround Hiso Hage. cbn zeta.
  apply put_status_request_cache in H200 as [Hstr Hcache].
  unfold refresh_cache in Hcache. rewrite Hc in Hcache. cbn in Hcache.
  split.
  - intros userId userType.
    rewrite (get_order_status_hit now (orderId req) userId userType _
               (Obj (assoc_set "lastUpdated" (Str (toISOString t))
                       (assoc_set "status"
                          (Str (status_text (new_status req))) fields)))).
    + cbn [fst].
      destruct (answer_cached (orderId req) true
                  (assoc_set "lastUpdated" (Str (toISOString t))
                     (assoc_set "status"
                        (Str (status_text (new_status req))) fields)))
        as (H1 & H2 & H3).
      split; [done|]. split; [|done].
      rewrite H2, assoc_set_ne, assoc_set_eq by done. by rewrite <- Hstr.
    + rewrite Hcache. apply lookup_insert_eq.
    + apply (usable_stamped t); [done..|]. apply assoc_set_eq.
  - intros other c userId userType Hother Hcother Husable.
    apply get_order_status_hit; [|done].
    rewrite Hcache, lookup_insert_ne; [done|].
    intros Heq. apply Hother. symmetry.
    by apply (inj (String.app "order_status:")) in Heq.
Qed.

(** X15. The other writers do not refresh the cache.  While a usable
    cache entry exists for an order, a poll after the restaurant's accept,
    ready or cancel route, after the socket's [update-order-status], or
    after a driver's assignment is answered from that entry as before:
    the change of the table is invisible to polls until the entry is 30
    seconds old. *)
Theorem unrefreshed_writes_invisible_to_polls (now : Z) (oid : string)
    (w : world) (c : value) (userId : Z) (userType : string) :
  cache w !! ("order_status:" +:+ oid) = Some c →
  usable getTime now c = true →
  let poll := get_order_status getTime toISOString columns_of now oid
                userId userType in
  (∀ r user,
     let w' := (run_route r oid user w).2 in
     poll w' = (answer oid true c, w')) ∧
  (∀ stamp sd status_v estimatedTime,
     let w' := (socket_update_status stamp sd oid status_v estimatedTime w).2 in
     poll w' = (answer oid true c, w')) ∧
  (∀ address driverId,
     let w' := (assign_order address oid driverId w).2 in
     poll w' = (answer oid true c, w')).
Proof.
  intros Hc Hu. cbn zeta. split; [|split].
  - intros r user. apply get_order_status_hit; [|done].
    destruct (run_route_cases r oid user w) as (_ & _ & _ & _ & _ & ->). done.
  - intros stamp sd status_v estimatedTime. apply get_order_status_hit; [|done].
    by rewrite socket_update_cache.
  - intros address driverId. apply get_order_status_hit; [|done].
    destruct (assign_order_cases address oid driverId w)
      as (_ & _ & _ & _ & ->). done.
Qed.

End WithClock.

Lemma cached_status_skips_authorization_witness :
  let getTime := λ _ : value, Num (inject_Z 1000) in
  let toISOString := λ _ : Z, "1970-01-01T00:00:01.000Z" in
  let columns_of := λ _ : order_row,
    {| restaurant_name := Str "Luigi"; driver_name := Null;
       total_amount := Str "12.50"; delivery_address := Str "1 Main Street";
       created_at := Some 0%Z; updated_at := Some 0%Z |} in
  let w := {| orders := [{| id := "17"; customer_id := 4; restaurant_id := 2;
                            driver_id := None; status := "confirmed" |}];
              restaurants := [{| rest_id := 2; rest_user := 5 |}];
              cache := ∅ |} in
  let r := get_order_status getTime toISOString columns_of 1000 "17" 4 "customer" w in
  code (get_order_status getTime toISOString columns_of 1000 "17" 99 "customer" w).1
  = 403%Z ∧
  code (get_order_status getTime toISOString columns_of 2000 "17" 99 "customer" r.2).1
  = 200%Z ∧
  reported_status
    (get_order_status getTime toISOString columns_of 2000 "17" 99 "customer" r.2).1
  = Some (Str "confirmed").
Proof.
  intros getTime toISOString columns_of w r.
  split; [reflexivity|].
  destruct (cached_status_skips_authorization getTime toISOString columns_of
              1000 2000 "17" 4 "customer" w) with (otherId := 99%Z)
              (otherType := "customer") as (Hcode & Hstatus & _ & _).
  - reflexivity.
  - reflexivity.
  - reflexivity.
  - discriminate.
  - lia.
  - split; [exact Hcode|]. etransitivity; [exact Hstatus|reflexivity].
Defined.

Lemma status_update_then_poll_witness :
  let int4_in := λ s : string,
    if bool_decide (s ∈ ["1"; "01"]) then Some 1%Z else None in
  let getTime := λ _ : value, Num (inject_Z 1000) in
  let toISOString := λ _ : Z, "1970-01-01T00:00:01.000Z" in
  let columns_of := λ _ : order_row,
    {| restaurant_name := Str "Luigi"; driver_name := Null;
       total_amount := Str "12.50"; delivery_address := Str "1 Main Street";
       created_at := Some 0%Z; updated_at := Some 0%Z |} in
  let cached := Obj [("orderId", Str "1"); ("status", Str "confirmed");
                     ("lastUpdated", Str "1970-01-01T00:00:00.900Z")] in
  let w := {| orders := [{| id := "1"; customer_id := 4; restaurant_id := 2;
                            driver_id := None; status := "confirmed" |}];
              restaurants := [{| rest_id := 2; rest_user := 5 |}];
              cache := {[ "order_status:01" := cached;
                          "order_status:1" := cached ]} |} in
  let req := {| orderId := "01"; new_status := Str "preparing";
                userId := 5; userType := "restaurant" |} in
  let w' := (put_status_request int4_in true true (toISOString 1000%Z)
               req w).2 in
  status <$> orders w' = ["preparing"] ∧
  reported_status
    (get_order_status getTime toISOString columns_of 2000 "01" 4 "customer"
       w').1
  = Some (Str "preparing") ∧
  reported_status
    (get_order_status getTime toISOString columns_of 2000 "1" 4 "customer"
       w').1
  = Some (Str "confirmed").
Proof.
  intros int4_in getTime toISOString columns_of cached w req w'.
  split; [vm_compute; reflexivity|].
  destruct (status_update_then_poll getTime toISOString columns_of int4_in
              true true 1000 2000 req w
              [("orderId", Str "1"); ("status", Str "confirmed");
               ("lastUpdated", Str "1970-01-01T00:00:00.900Z")])
    as (Hsame & Hother).
  - vm_compute. reflexivity.
  - vm_compute. reflexivity.
  - reflexivity.
  - discriminate.
  - lia.
  - split.
    + destruct (Hsame 4%Z "customer") as (_ & Hstatus & _). exact Hstatus.
    + unfold w'. rewrite (Hother "1" cached 4%Z "customer").
      * vm_compute. reflexivity.
      * discriminate.
      * vm_compute. reflexivity.
      * reflexivity.
Defined.

Lemma unrefreshed_writes_invisible_to_polls_witness :
  let getTime := λ _ : value, Num (inject_Z 1000) in
  let toISOString := λ _ : Z, "1970-01-01T00:00:01.000Z" in
  let columns_of := λ _ : order_row,
    {| restaurant_name := Str "Luigi"; driver_name := Null;
       total_amount := Str "12.50"; delivery_address := Str "1 Main Street";
       created_at := Some 0%Z; updated_at := Some 0%Z |} in
  let w := {| orders := [{| id := "17"; customer_id := 4; restaurant_id := 2;
                            driver_id := None; status := "confirmed" |}];
              restaurants := [{| rest_id := 2; rest_user := 5 |}];
              cache := {[ "order_status:17" :=
                            Obj [("orderId", Str "17");
                                 ("status", Str "confirmed");
                                 ("lastUpdated",
                                  Str "1970-01-01T00:00:01.000Z")] ]} |} in
  let w' := (run_route (Accept Undefined) "17" 5 w).2 in
  status <$> orders w' = ["preparing"] ∧
  reported_status
    (get_order_status getTime toISOString columns_of 2000 "17" 4 "customer" w').1
  = Some (Str "confirmed").
Proof.
  intros getTime toISOString columns_of w w'.
  split; [reflexivity|].
  destruct (unrefreshed_writes_invisible_to_polls getTime toISOString
              columns_of 2000 "17" w
              (Obj [("orderId", Str "17"); ("status", Str "confirmed");
                    ("lastUpdated", Str "1970-01-01T00:00:01.000Z")])
              4 "customer") as (Hroute & _ & _).
  - vm_compute. reflexivity.
  - reflexivity.
  - unfold w'. rewrite (Hroute (Accept Undefined) 5%Z). reflexivity.
Defined.

End TrackingFacts.

(** ** Joining, taking and closing a support chat *)
Section SupportDeskFacts.
Import JS SocketIO Chat SupportDesk.

Lemma filter_nonempty_elem {A} (P : A → Prop) `{∀ x, Decision (P x)}
    (l : list A) :
  filter P l ≠ [] ↔ ∃ x, x ∈ l ∧ P x.
Proof.
  split.
  - destruct (filter P l) as [|x l'] eqn:Hf; [done|]. intros _.
    assert (Hx : x ∈ filter P l) by (rewrite Hf; left).
    apply list_elem_of_filter in Hx as [? ?]. by exists x.
  - intros (x & Hx & HP) Hnil.
    by apply (filter_nil_not_elem_of _ _ x Hnil HP).
Qed.

(** The two outcomes of [join-support-chat]. *)
Lemma join_support_chat_cases (now : string) (sid : nat) (chatId : string)
    (token : value) (verified : option Z) (sd : socket_data) (w : world) :
  let res := join_support_chat now sid chatId token verified sd w in
  (¬ join_accepted chatId token verified w ∧
   ∃ msg, res = (sd, with_server
                       (socket_emit sid "error" (Error msg) (server w)) w)) ∨
  (join_accepted chatId token verified w ∧
   ∃ userId userName userType chatStatus,
     verified = Some userId ∧
     res = ({| socket_userId := Some userId;
               socket_userType := Some userType;
               socket_userName := Some userName;
               socket_chatId := Some chatId |},
            with_server
              (socket_to_emit sid ("chat-" +:+ chatId) "user-joined-chat"
                 (UserJoinedChat userId userName userType now)
                 (socket_emit sid "joined-chat"
                    (JoinedChat chatId ("chat-" +:+ chatId) userType userName
                                chatStatus)
                    (join sid ("chat-" +:+ chatId) (server w)))) w)).
Proof.
  cbn zeta. unfold join_support_chat.
  destruct (truthy token) eqn:Htoken; cbn [negb].
  2:{ left. split; [|eexists; reflexivity]. intros (? & _). congruence. }
  destruct (truthy_id verified) eqn:Hver; cbn [negb].
  2:{ left. split; [|eexists; reflexivity]. intros (_ & _ & userId & -> & Hnz & _).
      cbn in Hver. apply negb_false_iff, Z.eqb_eq in Hver. done. }
  destruct verified as [userId|]; [|done]. cbn in Hver.
  apply negb_true_iff, Z.eqb_neq in Hver.
  destruct (db_up w) eqn:Hdb; cbn [negb].
  2:{ left. split; [|eexists; reflexivity]. intros (_ & ? & _). congruence. }
  change (default 0%Z (Some userId)) with userId.
  destruct (head (filter (λ u, user_id u = userId) (users w)))
    as [user|] eqn:Huser.
  2:{ left. split; [|eexists; reflexivity].
      intros (_ & _ & ? & [= <-] & _ & user & Hu & _). congruence. }
  destruct (String.eqb (user_type user) "customer") eqn:Hcust.
  - apply String.eqb_eq in Hcust.
    destruct (filter _ (support_chats w)) as [|chat chats] eqn:Hf.
    + left. split; [|eexists; reflexivity].
      intros (_ & _ & ? & [= <-] & _ & user' & Hu & Hrule).
      assert (user' = user) as -> by congruence.
      destruct Hrule as [(_ & c & Hc & Hid & Hown)|(Hsup & _)];
        [|congruence].
      by apply (filter_nil_not_elem_of _ _ c Hf).
    + right. split.
      * split; [done|]. split; [done|]. exists userId.
        split; [done|]. split; [done|]. exists user. split; [done|]. left.
        split; [done|]. exists chat.
        assert (Hin : chat ∈ filter (λ c, chat_id c = chatId ∧
                        chat_customer c = userId) (support_chats w))
          by (rewrite Hf; left).
        apply list_elem_of_filter in Hin as [[? ?] ?]. done.
      * eexists _, _, _, _. split; reflexivity.
  - apply String.eqb_neq in Hcust.
    destruct (String.eqb (user_type user) "support") eqn:Hsup.
    + apply String.eqb_eq in Hsup.
      destruct (filter _ (support_chats w)) as [|chat chats] eqn:Hf.
      * left. split; [|eexists; reflexivity].
        intros (_ & _ & ? & [= <-] & _ & user' & Hu & Hrule).
        assert (user' = user) as -> by congruence.
        destruct Hrule as [(? & _)|(_ & c & Hc & Hid & Hag)]; [done|].
        by apply (filter_nil_not_elem_of _ _ c Hf).
      * right. split.
        -- split; [done|]. split; [done|]. exists userId.
           split; [done|]. split; [done|]. exists user. split; [done|]. right.
           split; [done|]. exists chat.
           assert (Hin : chat ∈ filter (λ c, chat_id c = chatId ∧
                           (chat_agent c = Some userId ∨ chat_agent c = None))
                           (support_chats w))
             by (rewrite Hf; left).
           apply list_elem_of_filter in Hin as [[? ?] ?]. done.
        -- eexists _, _, _, _. split; reflexivity.
    + apply String.eqb_neq in Hsup.
      left. split; [|eexists; reflexivity].
      intros (_ & _ & ? & [= <-] & _ & user' & Hu & Hrule).
      assert (user' = user) as -> by congruence.
      destruct Hrule as [(? & _)|(? & _)]; done.
Qed.


Lemma members_join (sid : nat) (room room' : string) (s : io payload) :
  members room' (join sid room s)
  = if decide (room' = room) then set_add sid (members room s)
    else members room' s.
Proof.
  unfold members, join. cbn [rooms]. case_decide as Hr.
  - subst. by rewrite lookup_insert_eq.
  - by rewrite lookup_insert_ne.
Qed.

Lemma members_join_same (sid : nat) (room : string) (s : io payload) :
  members room (join sid room s) = set_add sid (members room s).
Proof. by rewrite members_join, decide_True. Qed.


Lemma recipients_one (event event' : string) (sid : nat) (p : payload) :
  recipients event [(sid, (event', p))]
  = if decide (event' = event) then [sid] else [].
Proof.
  unfold recipients. cbn. case_decide.
  - by rewrite bool_decide_true.
  - by rewrite bool_decide_false.
Qed.


Lemma members_with_server_rooms (room : string) (s s' : io payload) :
  rooms s' = rooms s → members room s' = members room s.
Proof. unfold members. by intros ->. Qed.

Lemma elem_of_set_add (h x : nat) (s : list nat) :
  x ∈ set_add h s ↔ x = h ∨ x ∈ s.
Proof.
  unfold set_add. case_bool_decide as Hin.
  - split; [by right|]. by intros [->|?].
  - rewrite elem_of_app, list_elem_of_singleton. tauto.
Qed.

(** The rooms after a join, whatever its outcome. *)
Lemma join_support_chat_members (now : string) (sid : nat) (chatId : string)
    (token : value) (verified : option Z) (sd : socket_data) (w : world)
    (room : string) (m : nat) :
  m ∈ members room (server w) →
  m ∈ members room
        (server (join_support_chat now sid chatId token verified sd w).2).
Proof.
  intros Hm.
  destruct (join_support_chat_cases now sid chatId token verified sd w)
    as [(_ & msg & ->)|(_ & userId & userName & userType & chatStatus
                        & _ & ->)]; [done|].
  cbn [snd server with_server].
  rewrite (members_with_server_rooms room
             (join sid ("chat-" +:+ chatId) (server w))) by done.
  rewrite members_join. case_decide as Hr; [|done].
  subst. apply elem_of_set_add. by right.
Qed.

Lemma join_accepted_result (now : string) (sid : nat) (chatId : string)
    (token : value) (verified : option Z) (sd : socket_data) (w : world) :
  join_accepted chatId token verified w →
  let res := join_support_chat now sid chatId token verified sd w in
  socket_chatId res.1 = Some chatId ∧
  socket_userId res.1 = verified ∧
  truthy_id verified = true ∧
  members ("chat-" +:+ chatId) (server res.2)
  = set_add sid (members ("chat-" +:+ chatId) (server w)) ∧
  users res.2 = users w ∧ support_chats res.2 = support_chats w ∧
  chat_messages res.2 = chat_messages w ∧ db_up res.2 = db_up w.
Proof.
  intros Hyes. cbn zeta.
  destruct (join_support_chat_cases now sid chatId token verified sd w)
    as [(Hno & _)|(_ & userId & userName & userType & chatStatus
                   & -> & ->)]; [done|].
  cbn [fst snd socket_chatId socket_userId].
  split; [done|]. split; [done|]. split.
  { destruct Hyes as (_ & _ & u & [= <-] & Hnz & _). cbn.
    by apply negb_true_iff, Z.eqb_neq. }
  split; [|done].
  rewrite (members_with_server_rooms _
             (join sid ("chat-" +:+ chatId) (server w))) by done.
  apply members_join_same.
Qed.

(** X17. Joining a chat never takes a socket out of a room.  A socket
    that joins one chat and then another is in both rooms afterwards,
    while its data name the second chat only: what it sends goes to the
    second chat, and what is sent in the first still reaches it. *)
Theorem second_join_keeps_first_room (now now' : string) (sid : nat)
    (first second : string) (token token' : value)
    (verified verified' : option Z) (sd : socket_data) (w : world) :
  let r1 := join_support_chat now sid first token verified sd w in
  let r2 := join_support_chat now' sid second token' verified' r1.1 r1.2 in
  join_accepted first token verified w →
  join_accepted second token' verified' r1.2 →
  socket_chatId r2.1 = Some second ∧
  sid ∈ members ("chat-" +:+ first) (server r2.2) ∧
  sid ∈ members ("chat-" +:+ second) (server r2.2).
Proof.
  cbn zeta. intros H1 H2.
  destruct (join_accepted_result now sid first token verified sd w H1)
    as (_ & _ & _ & Hroom1 & _).
  destruct (join_accepted_result now' sid second token' verified'
              (join_support_chat now sid first token verified sd w).1
              (join_support_chat now sid first token verified sd w).2 H2)
    as (Hchat & _ & _ & Hroom2 & _).
  split; [done|]. split.
  - apply join_support_chat_members. rewrite Hroom1.
    apply elem_of_set_add. by left.
  - rewrite Hroom2. apply elem_of_set_add. by left.
Qed.

Lemma second_join_keeps_first_room_witness :
  let w := {| users := [{| user_id := 4; user_type := "customer";
                           first_name := "John"; last_name := "Doe" |}];
              support_chats :=
                [{| chat_id := "5"; chat_customer := 4; chat_agent := None;
                    chat_status := "active";
                    chat_updated_at := "2024-05-01T11:00:00.000Z" |};
                 {| chat_id := "6"; chat_customer := 4; chat_agent := None;
                    chat_status := "active";
                    chat_updated_at := "2024-05-01T11:30:00.000Z" |}];
              chat_messages := []; next_message_id := 1; db_up := true;
              server := {| rooms := ∅; outbox := [] |} |} in
  let sd := {| socket_userId := None; socket_userType := None;
               socket_userName := None; socket_chatId := None |} in
  let r1 := join_support_chat "2024-05-01T12:00:00.000Z" 1 "5" (Str "jwt")
              (Some 4%Z) sd w in
  let r2 := join_support_chat "2024-05-01T12:01:00.000Z" 1 "6" (Str "jwt")
              (Some 4%Z) r1.1 r1.2 in
  socket_chatId r2.1 = Some "6" ∧
  1%nat ∈ members "chat-5" (server r2.2) ∧
  1%nat ∈ members "chat-6" (server r2.2).
Proof.
  intros w sd r1 r2.
  assert (Hjoin : ∀ chatId w0,
            users w0 = users w → support_chats w0 = support_chats w →
            db_up w0 = true → chatId ∈ ["5"; "6"] →
            join_accepted chatId (Str "jwt") (Some 4%Z) w0).
  { intros chatId w0 Hu Hc Hdb Hid. split; [reflexivity|]. split; [exact Hdb|].
    exists 4%Z. split; [reflexivity|]. split; [lia|].
    exists {| user_id := 4; user_type := "customer";
              first_name := "John"; last_name := "Doe" |}.
    split; [rewrite Hu; reflexivity|]. left. split; [reflexivity|].
    rewrite Hc.
    apply elem_of_cons in Hid as [->|Hid].
    - eexists. split; [left|]. split; reflexivity.
    - apply elem_of_cons in Hid as [->|Hid]; [|by apply elem_of_nil in Hid].
      eexists. split; [right; left|]. split; reflexivity. }
  apply (second_join_keeps_first_room "2024-05-01T12:00:00.000Z"
           "2024-05-01T12:01:00.000Z" 1 "5" "6" (Str "jwt") (Str "jwt")
           (Some 4%Z) (Some 4%Z) sd w).
  - apply Hjoin; [reflexivity..|]. left.
  - apply Hjoin; [reflexivity..|]. right. left.
Defined.

(** A request that [send-message] accepts. *)
Lemma send_message_accepts (now : string) (sid : nat) (sd : socket_data)
    (data : message_request) (w : world) (chatId : string) (userId : Z)
    (t : text) :
  socket_chatId sd = Some chatId → chatId ≠ "" →
  socket_userId sd = Some userId → userId ≠ 0%Z →
  message data = Text t →
  whitespace_only t = false → (length t ≤ 1000)%nat → 0%N ∉ t →
  is_Some (column_type (match messageType data with
                        | Undefined => Str "text"
                        | v => v
                        end)) →
  db_up w = true →
  (∃ c, c ∈ support_chats w ∧ chat_id c = chatId) →
  let w' := send_message now sid sd data w in
  stored_texts w w' = [toWellFormed (trim t)] ∧
  broadcast_texts (new_emits w w')
  = (λ _, trim t) <$> members ("chat-" +:+ chatId) (server w) ∧
  recipients "new-message" (new_emits w w')
  = members ("chat-" +:+ chatId) (server w) ∧
  recipients "message-sent" (new_emits w w') = [sid] ∧
  recipients "error" (new_emits w w') = [].
Proof.
  intros Hchat Hne Huser Hnz Hmsg Hws Hlen2 Hnul [ty Hty] Hdb (c & Hc & Hid).
  cbn zeta. unfold send_message.
  rewrite Hchat, Huser, Hmsg. cbn [truthy_text truthy_id default].
  rewrite (proj2 (String.eqb_neq _ _) Hne), (proj2 (Z.eqb_neq _ _) Hnz).
  cbn [negb orb].
  assert (Hlen1 : length (trim t) ≠ 0%nat).
  { intros H0. apply length_zero_iff_nil, trim_nil_iff in H0. congruence. }
  pose proof (trim_length t).
  rewrite !(bool_decide_false (length _ = 0%nat)) by lia.
  rewrite bool_decide_false by lia. cbn [orb].
  unfold insert_message. rewrite Hty, Hdb.
  rewrite (bool_decide_false (0%N ∈ trim t))
    by (by rewrite <- (stripped_nul t (trim t) (trim_stripped t))).
  rewrite bool_decide_true by (apply Exists_exists; by exists c).
  cbn [andb negb]. unfold stored_texts, new_emits.
  cbn [chat_messages touch_chat server with_server socket_emit io_to_emit
       outbox rooms].
  rewrite drop_app_length. split; [done|].
  rewrite <- app_assoc, drop_app_length.
  split; [by rewrite broadcast_texts_room, app_nil_r|].
  rewrite !recipients_app, !recipients_one.
  rewrite recipients_room.
  rewrite (recipients_other_room "message-sent" "new-message") by done.
  rewrite (recipients_other_room "error" "new-message") by done.
  rewrite decide_False by done. rewrite app_nil_r. split; [done|].
  rewrite decide_True by done. split; [done|].
  by rewrite decide_False.
Qed.

(** X18. Join, then send.  A socket whose join was accepted can send at
    once.  A text of at most 1000 code units that is not white space
    only and holds no U+0000, of a type the column allows, is accepted:
    the text without the white space at its two ends goes as
    [new-message] to every socket of the room, the sender among them, it
    is stored as UTF-8 holds it (a surrogate outside a pair as U+FFFD),
    and the sender gets [message-sent]; no [error] is raised. *)
Theorem join_then_send_message (now now' : string) (sid : nat)
    (chatId : string) (token : value) (verified : option Z)
    (sd : socket_data) (w : world) (data : message_request) (t : text) :
  join_accepted chatId token verified w →
  chatId ≠ "" →
  message data = Text t →
  whitespace_only t = false → (length t ≤ 1000)%nat → 0%N ∉ t →
  (messageType data = Undefined ∨ messageType data = Null ∨
   ∃ ty, messageType data = Str ty ∧ ty ∈ ["text"; "image"; "file"]) →
  let r := join_support_chat now sid chatId token verified sd w in
  let w' := send_message now' sid r.1 data r.2 in
  let room := set_add sid (members ("chat-" +:+ chatId) (server w)) in
  ∃ b,
    stripped t b ∧ (1 ≤ length b ≤ 1000)%nat ∧
    stored_texts r.2 w' = [toWellFormed b] ∧
    broadcast_texts (new_emits r.2 w') = (λ _, b) <$> room ∧
    recipients "new-message" (new_emits r.2 w') = room ∧
    sid ∈ recipients "new-message" (new_emits r.2 w') ∧
    recipients "message-sent" (new_emits r.2 w') = [sid] ∧
    recipients "error" (new_emits r.2 w') = [].
Proof.
  intros Hyes Hne Hmsg Hws Hlen2 Hnul Htype. cbn zeta.
  destruct (join_accepted_result now sid chatId token verified sd w Hyes)
    as (Hchat & Huser & Hver & Hroom & _ & Hchats & _ & Hdb).
  pose proof Hyes as (_ & Hup & userId & -> & Hnz & user & _ & Hrule).
  assert (Hex : ∃ c, c ∈ support_chats w ∧ chat_id c = chatId).
  { destruct Hrule as [(_ & c & ? & ? & _)|(_ & c & ? & ? & _)]; by exists c. }
  assert (Hty : is_Some (column_type (match messageType data with
                                      | Undefined => Str "text"
                                      | v => v
                                      end))).
  { destruct Htype as [->|[->|(ty & -> & Hin)]]; [by eexists..|].
    cbn. rewrite bool_decide_true by done. by eexists. }
  destruct (send_message_accepts now' sid
              (join_support_chat now sid chatId token (Some userId) sd w).1
              data
              (join_support_chat now sid chatId token (Some userId) sd w).2
              chatId userId t)
    as (Hstored & Hbroadcast & Hnew & Hack & Herr); try done.
  - by rewrite Hdb.
  - by rewrite Hchats.
  - exists (trim t). split; [apply trim_stripped|].
    pose proof (trim_length t) as Hle.
    assert (length (trim t) ≠ 0%nat).
    { intros H0. apply length_zero_iff_nil, trim_nil_iff in H0. congruence. }
    split; [lia|].
    rewrite Hstored, Hbroadcast, Hnew, Hack, Herr, Hroom.
    split; [done|]. split; [done|]. split; [done|]. split; [|done].
    apply elem_of_set_add. by left.
Qed.

Lemma join_then_send_message_witness :
  let w := {| users := [{| user_id := 4; user_type := "customer";
                           first_name := "John"; last_name := "Doe" |}];
              support_chats :=
                [{| chat_id := "5"; chat_customer := 4; chat_agent := Some 8%Z;
                    chat_status := "active";
                    chat_updated_at := "2024-05-01T11:00:00.000Z" |}];
              chat_messages := []; next_message_id := 1; db_up := true;
              server := {| rooms := {[ "chat-5" := [2%nat] ]};
                           outbox := [] |} |} in
  let sd := {| socket_userId := None; socket_userType := None;
               socket_userName := None; socket_chatId := None |} in
  let data := {| message := Text [32; 104; 105; 32]%N;
                 messageType := Undefined; tempId := Str "t1" |} in
  let r := join_support_chat "2024-05-01T12:00:00.000Z" 1 "5" (Str "jwt")
             (Some 4%Z) sd w in
  let w' := send_message "2024-05-01T12:00:05.000Z" 1 r.1 data r.2 in
  stored_texts r.2 w' = [[104; 105]%N] ∧
  recipients "new-message" (new_emits r.2 w') = [2; 1]%nat ∧
  ∃ b, stripped [32; 104; 105; 32]%N b ∧ stored_texts r.2 w' = [toWellFormed b].
Proof.
  intros w sd data r w'.
  destruct (join_then_send_message "2024-05-01T12:00:00.000Z"
              "2024-05-01T12:00:05.000Z" 1 "5" (Str "jwt") (Some 4%Z) sd w
              data [32; 104; 105; 32]%N)
    as (b & Hb & _ & Hstored & _ & Hnew & _).
  - split; [reflexivity|]. split; [reflexivity|].
    exists 4%Z. split; [reflexivity|]. split; [lia|].
    eexists. split; [reflexivity|]. left. split; [reflexivity|].
    eexists. split; [left|]. split; reflexivity.
  - discriminate.
  - reflexivity.
  - reflexivity.
  - vm_compute. lia.
  - intros Hin. revert Hin. apply (bool_decide_unpack _). vm_compute. exact I.
  - by left.
  - split; [vm_compute; reflexivity|]. split; [exact Hnew|].
    exists b. split; [exact Hb | exact Hstored].
Defined.

(** *** What a write to the chat table leaves to the sockets *)

Lemma exists_chat_fmap (f : chat_row → chat_row) (R : chat_row → Prop)
    (l : list chat_row) :
  (∀ c, R (f c) ↔ R c) →
  (∃ c, c ∈ f <$> l ∧ R c) ↔ (∃ c, c ∈ l ∧ R c).
Proof.
  intros HR. split.
  - intros (c & (c0 & -> & Hc0)%list_elem_of_fmap & Hc).
    exists c0. split; [done|]. by apply HR.
  - intros (c & Hc & HRc). exists (f c).
    split; [by apply list_elem_of_fmap_2|]. by apply HR.
Qed.

Lemma send_message_stored_ext (now : string) (sid : nat) (sd : socket_data)
    (data : message_request) (w w' : world) :
  db_up w' = db_up w →
  (∀ chat, (∃ c, c ∈ support_chats w' ∧ chat_id c = chat) ↔
           (∃ c, c ∈ support_chats w ∧ chat_id c = chat)) →
  stored_texts w' (send_message now sid sd data w')
  = stored_texts w (send_message now sid sd data w).
Proof.
  intros Hdb Hchats. unfold send_message.
  destruct (_ || _); [by rewrite !stored_texts_error|].
  destruct (message data) as [t|is_truthy].
  2:{ destruct is_truthy; cbn [negb]; by rewrite !stored_texts_error. }
  destruct (_ || _); [by rewrite !stored_texts_error|].
  case_bool_decide; [by rewrite !stored_texts_error|].
  unfold insert_message.
  destruct (column_type _) as [ty|]; [|by rewrite !stored_texts_error].
  rewrite Hdb.
  rewrite (bool_decide_ext
             (Exists (λ c, chat_id c = default "" (socket_chatId sd))
                     (support_chats w'))
             (Exists (λ c, chat_id c = default "" (socket_chatId sd))
                     (support_chats w))).
  2:{ rewrite !Exists_exists. apply Hchats. }
  destruct (_ && _ && _); [|by rewrite !stored_texts_error].
  unfold stored_texts. cbn. by rewrite !drop_app_length.
Qed.

(** *** The agent takes a chat *)

Lemma take_count_cases (agentId : Z) (w : world) :
  (take_count agentId w = None ↔
     db_up w = true ∧ (length (active_chats agentId w) < 10)%nat) ∧
  (∀ answer, take_count agentId w = Some answer → code answer ≠ 200%Z).
Proof.
  unfold take_count. destruct (db_up w); cbn [negb].
  2:{ split; [split; [done|by intros [? _]]|]. by intros ? [= <-]. }
  destruct (10 <=? length (active_chats agentId w))%nat eqn:Hcount.
  - apply Nat.leb_le in Hcount.
    split; [split; [done|intros [_ ?]; lia]|]. by intros ? [= <-].
  - apply Nat.leb_gt in Hcount. by split.
Qed.

Lemma take_update_cases (int4_in : string → option Z) (now : string)
    (chatId : string) (agentId : Z) (w : world) :
  let res := take_update int4_in now chatId agentId w in
  (code res.1 = 200%Z ↔
     db_up w = true ∧
     ∃ n, int4_in chatId = Some n ∧
          ∃ c, c ∈ support_chats w ∧ takeable (pretty n) c = true) ∧
  (code res.1 ≠ 200%Z → res.2 = w) ∧
  (∀ n, code res.1 = 200%Z → int4_in chatId = Some n →
     res.2 = with_chats ((λ c, if takeable (pretty n) c
                               then taken_by now agentId c else c)
                         <$> support_chats w) w).
Proof.
  cbn zeta. unfold take_update.
  destruct (db_up w).
  2:{ split; [|done]. split; [done|]. by intros [? _]. }
  destruct (int4_in chatId) as [n|].
  2:{ split; [|done]. split; [done|]. by intros (_ & ? & ? & _). }
  destruct (filter _ (support_chats w)) as [|chat chats] eqn:Hf.
  - split; [|done]. split; [done|]. intros (_ & ? & [= <-] & c & Hc & Ht).
    exfalso. by apply (filter_nil_not_elem_of _ _ c Hf Ht).
  - split; [|split; [done|by intros ? _ [= <-]]].
    split; [|done]. intros _. split; [done|]. exists n. split; [done|].
    exists chat.
    assert (Hin : chat ∈ filter (λ c, takeable (pretty n) c = true)
                           (support_chats w)) by (rewrite Hf; left).
    by apply list_elem_of_filter in Hin as [? ?].
Qed.

Lemma take_chat_cases (int4_in : string → option Z) (now : string)
    (chatId : string) (agentId : Z) (seen w : world) :
  let res := take_chat int4_in now chatId agentId seen w in
  (code res.1 = 200%Z ↔
     take_count agentId seen = None ∧
     code (take_update int4_in now chatId agentId w).1 = 200%Z) ∧
  (code res.1 ≠ 200%Z → res.2 = w) ∧
  (code res.1 = 200%Z → res = take_update int4_in now chatId agentId w).
Proof.
  cbn zeta. unfold take_chat.
  destruct (take_count_cases agentId seen) as [_ Hanswer].
  destruct (take_count agentId seen) as [answer|].
  - specialize (Hanswer answer eq_refl).
    split; [|done]. split; [done|]. by intros [? _].
  - split; [|split; [|done]]; [by split; [|intros [_ ?]]|].
    intros Hne.
    by apply (take_update_cases int4_in now chatId agentId w).
Qed.

Lemma unique_chat_eq (w : world) (c c' : chat_row) :
  unique_chats w → c ∈ support_chats w → c' ∈ support_chats w →
  chat_id c = chat_id c' → c = c'.
Proof.
  unfold unique_chats. induction (support_chats w) as [|x l IH];
    [by intros _ ?%elem_of_nil|].
  rewrite fmap_cons, NoDup_cons.
  intros [Hx Hnd] [->|Hc]%elem_of_cons [->|Hc']%elem_of_cons Hid.
  - done.
  - exfalso. apply Hx. rewrite Hid. by apply list_elem_of_fmap_2.
  - exfalso. apply Hx. rewrite <- Hid. by apply list_elem_of_fmap_2.
  - by apply IH.
Qed.

(** At most one row answers to a chat id. *)
Lemma takeable_at_most_one (chatId : string) (l : list chat_row) :
  NoDup (chat_id <$> l) →
  (length (filter (λ c, takeable chatId c = true) l) ≤ 1)%nat.
Proof.
  induction l as [|c l IH]; [cbn; lia|].
  rewrite fmap_cons, NoDup_cons. intros [Hc Hnd].
  rewrite filter_cons. case_decide as Ht; [|by apply IH].
  assert (Hnone : filter (λ c, takeable chatId c = true) l = []).
  { destruct (filter (λ c, takeable chatId c = true) l) as [|c' l'] eqn:Hfl;
      [done|]. exfalso.
    assert (Hin : c' ∈ filter (λ c, takeable chatId c = true) l)
      by (rewrite Hfl; left).
    apply list_elem_of_filter in Hin as [Ht' Hc']. apply Hc.
    unfold takeable in Ht, Ht'.
    apply bool_decide_eq_true in Ht as (-> & _).
    apply bool_decide_eq_true in Ht' as (<- & _).
    by apply list_elem_of_fmap_2. }
  rewrite Hnone. cbn. lia.
Qed.

(** A row that answers is counted. *)
Lemma takeable_at_least_one (chatId : string) (l : list chat_row)
    (c : chat_row) :
  c ∈ l → takeable chatId c = true →
  (1 ≤ length (filter (λ c, takeable chatId c = true) l))%nat.
Proof.
  intros Hc Ht.
  assert (Hin : c ∈ filter (λ c, takeable chatId c = true) l)
    by by apply list_elem_of_filter.
  destruct (filter _ l); [by apply elem_of_nil in Hin|cbn; lia].
Qed.

Lemma filter_fmap_length {A} (P T : A → Prop)
    `{∀ x, Decision (P x)} `{∀ x, Decision (T x)} (f : A → A) (l : list A) :
  (∀ x, T x → ¬ P x ∧ P (f x)) →
  (∀ x, ¬ T x → f x = x) →
  length (filter P (f <$> l))
  = (length (filter P l) + length (filter T l))%nat.
Proof.
  intros HT Hf. induction l as [|x l IH]; [done|].
  rewrite fmap_cons, !filter_cons.
  destruct (decide (T x)) as [HTx|HTx].
  - destruct (HT x HTx) as [HnP HPf].
    rewrite decide_True, decide_False by done. cbn. lia.
  - rewrite (Hf x HTx).
    destruct (decide (P x)); cbn; lia.
Qed.

Lemma filter_fmap_untouched {A} (P : A → Prop) `{∀ x, Decision (P x)}
    (f : A → A) (l : list A) :
  (∀ x, P x → f x = x) → (∀ x, P (f x) → P x) →
  filter P (f <$> l) = filter P l.
Proof.
  intros Hfix Hback. induction l as [|x l IH]; [done|].
  rewrite fmap_cons, !filter_cons.
  destruct (decide (P (f x))) as [HPf|HPf];
    destruct (decide (P x)) as [HP|HP].
  - by rewrite IH, (Hfix x).
  - by destruct HP; apply Hback.
  - rewrite (Hfix x HP) in HPf. done.
  - done.
Qed.

Lemma fmap_key_update {A B} (key : A → B) (f : A → A) (l : list A) :
  (∀ x, key (f x) = key x) → key <$> (f <$> l) = key <$> l.
Proof.
  intros Hkey. induction l as [|x l IH]; [done|]. cbn. by rewrite IH, Hkey.
Qed.

(** X19. The limit of ten chats is tested by the [COUNT] only.  With one
    row per chat id in the table the [UPDATE] finds: an accepted take
    had fewer than ten active chats of the agent in the table its
    [COUNT] saw, and adds exactly one to those of the table its [UPDATE]
    finds, whatever their number; a refused take changes nothing.  So a
    take that no other request overlaps (the [UPDATE] finds the table
    the [COUNT] saw) leaves an agent who had at most ten with at most
    ten, and a take whose [COUNT] ran before another take of the agent
    was written leaves one more than the table had, without a bound.
    The active chats of every other agent are the same rows as before,
    and the table keeps one row per id. *)
Theorem take_chat_respects_limit (int4_in : string → option Z)
    (now : string) (chatId : string) (agentId : Z) (seen w : world) :
  unique_chats w →
  let res := take_chat int4_in now chatId agentId seen w in
  (code res.1 = 200%Z →
     (length (active_chats agentId seen) < 10)%nat ∧
     length (active_chats agentId res.2)
     = S (length (active_chats agentId w))) ∧
  (code res.1 ≠ 200%Z → res.2 = w) ∧
  (seen = w → (length (active_chats agentId w) ≤ 10)%nat →
     (length (active_chats agentId res.2) ≤ 10)%nat) ∧
  (∀ other, other ≠ agentId →
     active_chats other res.2 = active_chats other w) ∧
  unique_chats res.2.
Proof.
  intros Huniq. cbn zeta.
  destruct (take_chat_cases int4_in now chatId agentId seen w)
    as (Hok & Hsame & Hnew).
  destruct (take_update_cases int4_in now chatId agentId w)
    as (Hup & _ & Hrows).
  assert (Hgrow :
    code (take_chat int4_in now chatId agentId seen w).1 = 200%Z →
    (length (active_chats agentId seen) < 10)%nat ∧
    length (active_chats agentId
              (take_chat int4_in now chatId agentId seen w).2)
    = S (length (active_chats agentId w))).
  { intros H200. rewrite (Hnew H200).
    apply Hok in H200 as (Hcount & H200).
    apply take_count_cases in Hcount as (_ & Hcount). split; [done|].
    pose proof H200 as (_ & n & Hn & c & Hc & Ht)%Hup.
    rewrite (Hrows n H200 Hn).
    unfold active_chats. cbn [support_chats with_chats].
    rewrite (filter_fmap_length
      (λ c, chat_agent c = Some agentId ∧ chat_status c = "active")
      (λ c, takeable (pretty n) c = true)).
    - pose proof (takeable_at_most_one (pretty n) (support_chats w) Huniq).
      pose proof (takeable_at_least_one (pretty n) (support_chats w) c Hc Ht).
      lia.
    - intros c' Ht'. rewrite Ht'. unfold takeable in Ht'.
      apply bool_decide_eq_true in Ht' as (_ & Hnone & Hact).
      split; [intros [? _]; congruence|done].
    - intros c' Ht'. by destruct (takeable (pretty n) c'). }
  split; [done|]. split; [done|].
  destruct (decide (code (take_chat int4_in now chatId agentId seen w).1
                    = 200%Z)) as [H200|Hne].
  2:{ rewrite (Hsame Hne). done. }
  split.
  { intros -> Hlimit. destruct (Hgrow H200) as [Hcount ->]. lia. }
  rewrite (Hnew H200). apply Hok in H200 as (_ & H200).
  pose proof H200 as (_ & n & Hn & _)%Hup.
  rewrite (Hrows n H200 Hn).
  unfold active_chats, unique_chats. cbn [support_chats with_chats].
  split.
  - intros other Hother. apply filter_fmap_untouched.
    + intros c [Hag _]. destruct (takeable (pretty n) c) eqn:Ht; [|done].
      unfold takeable in Ht.
      apply bool_decide_eq_true in Ht as (_ & Hnone & _). congruence.
    + intros c. destruct (takeable (pretty n) c); [|done].
      cbn. intros [[= ?] _]. done.
  - assert (Heq : chat_id <$> ((λ c, if takeable (pretty n) c
                                     then taken_by now agentId c else c)
                               <$> support_chats w)
                  = chat_id <$> support_chats w); [|by rewrite Heq].
    apply fmap_key_update. intros c. by destruct (takeable (pretty n) c).
Qed.

Lemma take_chat_respects_limit_witness :
  let chat := λ (k : nat) (agent : option Z),
    {| chat_id := pretty k; chat_customer := 4; chat_agent := agent;
       chat_status := "active";
       chat_updated_at := "2024-05-01T11:00:00.000Z" |} in
  let table := λ chats,
    {| users := []; support_chats := chats;
       chat_messages := []; next_message_id := 1; db_up := true;
       server := {| rooms := ∅; outbox := [] |} |} in
  let int4_in := λ s, if bool_decide (s = "10") then Some 10%Z
                      else if bool_decide (s = "11") then Some 11%Z
                      else None in
  let w9 := table (((λ k, chat k (Some 8%Z)) <$> seq 1 9)
                   ++ [chat 10%nat None; chat 11%nat None]) in
  let first := take_chat int4_in "2024-05-01T12:00:00.000Z" "10" 8 w9 w9 in
  let second := take_chat int4_in "2024-05-01T12:00:01.000Z" "11" 8 w9
                  first.2 in
  code first.1 = 200%Z ∧ length (active_chats 8 first.2) = 10%nat ∧
  code second.1 = 200%Z ∧ length (active_chats 8 second.2) = 11%nat ∧
  code (take_chat int4_in "2024-05-01T12:00:01.000Z" "11" 8 first.2
          first.2).1 = 400%Z.
Proof.
  intros chat table int4_in w9 first second.
  assert (Huniq : unique_chats first.2).
  { apply (bool_decide_unpack _). vm_compute. exact I. }
  assert (H200 : code second.1 = 200%Z) by (vm_compute; reflexivity).
  destruct (take_chat_respects_limit int4_in "2024-05-01T12:00:01.000Z" "11"
              8 w9 first.2 Huniq) as (Hgrow & _).
  destruct (Hgrow H200) as [_ Hlen].
  split; [vm_compute; reflexivity|]. split; [vm_compute; reflexivity|].
  split; [exact H200|]. split; [|vm_compute; reflexivity].
  etransitivity; [exact Hlen|]. vm_compute. reflexivity.
Defined.

(** X20. What a take closes and what it leaves open.  Once a take of a
    chat was answered 200, and the table had one row per chat id: no
    later take of that chat is accepted, and it changes nothing; a
    [join-support-chat] that another support agent sends afterwards for
    that chat is refused with an [error] event; the agent who took it
    may join.  The take writes the chat table only: the rooms, and so
    the sockets that joined the chat's room before, are as they were,
    and [send-message] stores for every socket what it stored before the
    take, for an agent who joined the unassigned chat too. *)
Theorem taken_chat_refuses_later_takes_and_joins
    (int4_in : string → option Z) (now : string) (chatId : string)
    (agentId : Z) (seen w : world) :
  unique_chats w →
  code (take_chat int4_in now chatId agentId seen w).1 = 200%Z →
  let w1 := (take_chat int4_in now chatId agentId seen w).2 in
  ∃ n, int4_in chatId = Some n ∧
  (∀ now' other seen',
     code (take_chat int4_in now' chatId other seen' w1).1 ≠ 200%Z ∧
     (take_chat int4_in now' chatId other seen' w1).2 = w1) ∧
  (∀ now' sid token sd other user,
     other ≠ agentId →
     head (filter (λ u, user_id u = other) (users w)) = Some user →
     user_type user = "support" →
     ∃ msg,
       join_support_chat now' sid (pretty n) token (Some other) sd w1
       = (sd, with_server
                (socket_emit sid "error" (Error msg) (server w1)) w1)) ∧
  (∀ user,
     head (filter (λ u, user_id u = agentId) (users w)) = Some user →
     user_type user = "support" →
     may_join (pretty n) agentId w1) ∧
  server w1 = server w ∧
  chat_messages w1 = chat_messages w ∧
  (∀ now' sid sd data,
     stored_texts w1 (send_message now' sid sd data w1)
     = stored_texts w (send_message now' sid sd data w)).
Proof.
  intros Huniq H200. cbn zeta.
  destruct (take_chat_cases int4_in now chatId agentId seen w)
    as (Hok & _ & Hnew).
  destruct (take_update_cases int4_in now chatId agentId w)
    as (Hup & _ & Hrows).
  rewrite (Hnew H200). apply Hok in H200 as (_ & H200).
  pose proof H200 as (Hdb & n & Hn & c0 & Hc0 & Ht0)%Hup.
  rewrite (Hrows n H200 Hn). exists n. split; [done|].
  pose proof Ht0 as Ht0'. unfold takeable in Ht0'.
  apply bool_decide_eq_true in Ht0' as (Hid0 & Hnone0 & Hact0).
  set (w1 := with_chats ((λ c, if takeable (pretty n) c
                               then taken_by now agentId c else c)
                         <$> support_chats w) w).
  assert (Hrow : ∀ c, c ∈ support_chats w1 → chat_id c = pretty n →
                      c = taken_by now agentId c0).
  { intros c Hc Hid. cbn in Hc.
    apply list_elem_of_fmap in Hc as (c1 & -> & Hc1).
    assert (c0 = c1) as <-.
    { apply (unique_chat_eq w); [done..|].
      rewrite Hid0, <- Hid. by destruct (takeable (pretty n) c1). }
    by rewrite Ht0. }
  assert (Hin : taken_by now agentId c0 ∈ support_chats w1).
  { cbn. apply list_elem_of_fmap. exists c0. by rewrite Ht0. }
  split; [|split; [|split; [|split; [done|split; [done|]]]]].
  - intros now' other seen'.
    destruct (take_chat_cases int4_in now' chatId other seen' w1)
      as (Hok1 & Hsame1 & _).
    destruct (take_update_cases int4_in now' chatId other w1)
      as (Hup1 & _).
    assert (Hne : code (take_chat int4_in now' chatId other seen' w1).1
                  ≠ 200%Z).
    { intros (_ & (_ & n' & Hn' & c & Hc & Ht)%Hup1)%Hok1.
      assert (n' = n) as -> by congruence.
      unfold takeable in Ht.
      apply bool_decide_eq_true in Ht as (Hid & Hnone & _).
      by rewrite (Hrow c Hc Hid) in Hnone. }
    split; [done|]. by apply Hsame1.
  - intros now' sid token sd other user Hother Huser Htype.
    destruct (join_support_chat_cases now' sid (pretty n) token (Some other)
                sd w1)
      as [(_ & msg & ->)|(Hyes & _)]; [by exists msg|]. exfalso.
    destruct Hyes as (_ & _ & ? & [= <-] & _ & user' & Hu & Hrule).
    cbn [users with_chats w1] in Hu.
    assert (user' = user) as -> by congruence.
    destruct Hrule as [(Hcust & _)|(_ & c & Hc & Hid & Hag)];
      [congruence|].
    rewrite (Hrow c Hc Hid) in Hag. cbn in Hag.
    destruct Hag as [[= ?]|?]; done.
  - intros user Huser Htype. exists user. split; [done|]. right.
    split; [done|]. exists (taken_by now agentId c0).
    split; [done|]. split; [done|]. by left.
  - intros now' sid sd data. apply send_message_stored_ext; [done|].
    intros chat. cbn [support_chats with_chats w1].
    apply (exists_chat_fmap _ (λ c, chat_id c = chat)).
    intros c. by destruct (takeable (pretty n) c).
Qed.

Lemma taken_chat_refuses_later_takes_and_joins_witness :
  let w := {| users := [{| user_id := 8; user_type := "support";
                           first_name := "Ann"; last_name := "Lee" |};
                        {| user_id := 9; user_type := "support";
                           first_name := "Bob"; last_name := "Ray" |}];
              support_chats :=
                [{| chat_id := "5"; chat_customer := 4; chat_agent := None;
                    chat_status := "active";
                    chat_updated_at := "2024-05-01T11:00:00.000Z" |}];
              chat_messages := []; next_message_id := 1; db_up := true;
              server := {| rooms := ∅; outbox := [] |} |} in
  let sd := {| socket_userId := None; socket_userType := None;
               socket_userName := None; socket_chatId := None |} in
  let int4_in := λ s, if bool_decide (s ∈ ["5"; "05"]) then Some 5%Z
                      else None in
  let early := join_support_chat "2024-05-01T11:59:00.000Z" 2 "5" (Str "jwt")
                 (Some 9%Z) sd w in
  let w1 := (take_chat int4_in "2024-05-01T12:00:00.000Z" "05" 8 early.2
               early.2).2 in
  let data := {| message := Text [104; 105]%N; messageType := Undefined;
                 tempId := Undefined |} in
  code (take_chat int4_in "2024-05-01T12:00:00.000Z" "05" 8 early.2
          early.2).1 = 200%Z ∧
  code (take_chat int4_in "2024-05-01T12:01:00.000Z" "5" 9 w1 w1).1 = 404%Z ∧
  (∃ msg, join_support_chat "2024-05-01T12:02:00.000Z" 3 "5" (Str "jwt")
            (Some 9%Z) sd w1
          = (sd, with_server (socket_emit 3 "error" (Error msg) (server w1))
                   w1)) ∧
  stored_texts w1 (send_message "2024-05-01T12:03:00.000Z" 2 early.1 data w1)
  = [[104; 105]%N].
Proof.
  intros w sd int4_in early w1 data.
  assert (Huniq : unique_chats early.2).
  { apply (bool_decide_unpack _). vm_compute. exact I. }
  assert (H200 : code (take_chat int4_in "2024-05-01T12:00:00.000Z" "05" 8
                         early.2 early.2).1 = 200%Z) by reflexivity.
  destruct (taken_chat_refuses_later_takes_and_joins int4_in
              "2024-05-01T12:00:00.000Z" "05" 8 early.2 early.2 Huniq H200)
    as (n & Hn & _ & Hjoin & _ & _ & _ & Hsend).
  assert (n = 5%Z) as -> by (vm_compute in Hn; congruence).
  split; [exact H200|]. split; [vm_compute; reflexivity|]. split.
  - apply (Hjoin "2024-05-01T12:02:00.000Z" 3%nat (Str "jwt") sd 9%Z
             {| user_id := 9; user_type := "support";
                first_name := "Bob"; last_name := "Ray" |}).
    + lia.
    + reflexivity.
    + reflexivity.
  - etransitivity; [apply Hsend|]. vm_compute. reflexivity.
Defined.

(** *** Closing a chat *)

Lemma close_chat_world (ToString : value → text) (parseInt : value → number)
    (now : string) (chatId : string) (userId : Z) (userType : string)
    (resolution rating : value) (w : world) :
  let res := close_chat ToString parseInt now chatId userId userType
               resolution rating w in
  let s := if String.eqb userType "support" then "resolved" else "closed" in
  users res.2 = users w ∧ db_up res.2 = db_up w ∧ server res.2 = server w ∧
  (support_chats res.2 = support_chats w ∨
   support_chats res.2
   = (λ c, if closes chatId userId userType c then closed_as now s c else c)
     <$> support_chats w) ∧
  (code res.1 = 200%Z →
   ∃ c, c ∈ support_chats w ∧ closes chatId userId userType c = true ∧
        support_chats res.2
        = (λ c, if closes chatId userId userType c then closed_as now s c
                else c) <$> support_chats w).
Proof.
  cbn zeta. unfold close_chat.
  destruct (_ && _);
    [split; [done|]; split; [done|]; split; [done|]; split; [by left|done]|].
  destruct (db_up w) eqn:Hdb; cbn [negb];
    [|split; [done|]; split; [done|]; split; [done|]; split; [by left|done]].
  destruct (filter _ (support_chats w)) as [|c cs] eqn:Hf;
    [split; [done|]; split; [done|]; split; [done|]; split; [by left|done]|].
  assert (Hin : c ∈ filter (λ c, closes chatId userId userType c = true)
                      (support_chats w)) by (rewrite Hf; left).
  apply list_elem_of_filter in Hin as [Hc Hin].
  destruct (truthy resolution); cbn.
  - split; [done|]. split; [done|]. split; [done|]. split; [by right|].
    intros _. by exists c.
  - split; [done|]. split; [done|]. split; [done|]. split; [by right|].
    intros _. by exists c.
Qed.

(** X21. Closing a chat does not close it for the sockets.  Whatever the
    request and its answer, after [PUT /chat/:chatId/close] the same
    users may join the same chats as before, [send-message] stores the
    same text as it would have before, and no socket is told anything or
    taken out of a room; an accepted request has set the status of the
    caller's chat to resolved (support) or closed (customer). *)
Theorem close_chat_keeps_access (ToString : value → text)
    (parseInt : value → number) (now : string) (chatId : string)
    (userId : Z) (userType : string) (resolution rating : value)
    (w : world) :
  let res := close_chat ToString parseInt now chatId userId userType
               resolution rating w in
  (∀ chat user, may_join chat user res.2 ↔ may_join chat user w) ∧
  (∀ now' sid sd data,
     stored_texts res.2 (send_message now' sid sd data res.2)
     = stored_texts w (send_message now' sid sd data w)) ∧
  server res.2 = server w ∧
  (code res.1 = 200%Z →
   ∃ c, c ∈ support_chats res.2 ∧ chat_id c = chatId ∧
        chat_status c
        = if String.eqb userType "support" then "resolved" else "closed").
Proof.
  cbn zeta.
  destruct (close_chat_world ToString parseInt now chatId userId userType
              resolution rating w) as (Hu & Hdb & Hs & Hchats & H200).
  assert (Hsame : ∀ R : chat_row → Prop,
            (∀ c s, R (closed_as now s c) ↔ R c) →
            (∃ c, c ∈ support_chats
                        (close_chat ToString parseInt now chatId userId
                           userType resolution rating w).2 ∧ R c) ↔
            (∃ c, c ∈ support_chats w ∧ R c)).
  { intros R HR. destruct Hchats as [->| ->]; [done|].
    apply exists_chat_fmap. intros c.
    destruct (closes chatId userId userType c); [apply HR|done]. }
  split; [|split; [|split]].
  - intros chat user. unfold may_join. rewrite Hu.
    apply exist_proper. intros u. apply and_iff_compat_l.
    rewrite (Hsame (λ c, chat_id c = chat ∧ chat_customer c = user)) by done.
    rewrite (Hsame (λ c, chat_id c = chat ∧
                         (chat_agent c = Some user ∨ chat_agent c = None)))
      by done.
    done.
  - intros now' sid sd data. apply send_message_stored_ext; [done|].
    intros chat. by apply (Hsame (λ c, chat_id c = chat)).
  - done.
  - intros Hcode. destruct (H200 Hcode) as (c & Hc & Hcl & ->).
    exists (closed_as now (if String.eqb userType "support"
                           then "resolved" else "closed") c).
    split; [|split; [|done]].
    + apply list_elem_of_fmap. exists c. by rewrite Hcl.
    + unfold closes in Hcl. apply andb_true_iff in Hcl as [Hid _].
      by apply bool_decide_eq_true in Hid.
Qed.

End SupportDeskFacts.

(** ** More on the long poll, and the processing behind it *)
Section LongPollFacts.
Import JS Images Processing.

Section WithStore.
Variable store : Z → option upload_row.
Variable owner : Z.
Variable latency : Z → Z.
Variable uploadId : string.

(** X22. A negative timeout is not replaced by the default: the handler
    does not enter its loop and answers after the two queries it always
    makes, with [timeout: true] and the row of the second query. *)
Theorem negative_timeout_answers_at_once (fuel : nat) (userId n t0 : Z)
    (upload final : upload_row) :
  (n < 0)%Z →
  owner = userId →
  store t0 = Some upload →
  terminal (status upload) = false →
  store (t0 + latency t0)%Z = Some final →
  pollTimeout (Some n) = n ∧
  get_status store owner latency uploadId fuel userId (Some n) t0
  = Some (timeout_response uploadId final,
          (t0 + latency t0 + latency (t0 + latency t0))%Z).
Proof.
  intros Hn Howner Hupload Hterm Hfinal.
  assert (Hp : pollTimeout (Some n) = n).
  { unfold pollTimeout, requested_timeout, maxTimeout.
    rewrite (proj2 (Z.eqb_neq n 0)) by lia. lia. }
  split; [done|]. unfold get_status.
  rewrite bool_decide_true by done. rewrite Hupload, Hterm, Hp.
  destruct fuel; cbn [pollForChanges];
    rewrite (proj2 (Z.ltb_ge _ _)) by lia;
    unfold final_status; by rewrite Hfinal.
Qed.

(** X23. An upload deleted during the wait.  When the row is there at
    the first query and gone at the first turn of the loop and after it,
    the handler leaves the loop and answers 500 "Failed to get upload
    status", not 404: the last query reads [rows[0]] of an empty
    result. *)
Theorem deleted_upload_ends_in_500 (fuel : nat) (userId t0 : Z)
    (parsed : option Z) (upload : upload_row) :
  owner = userId →
  store t0 = Some upload →
  terminal (status upload) = false →
  (0 < pollTimeout parsed)%Z →
  let t1 := (t0 + latency t0)%Z in
  let t2 := (t1 + latency t1)%Z in
  store t1 = None →
  store t2 = None →
  get_status store owner latency uploadId (S fuel) userId parsed t0
  = Some (failure_response, (t2 + latency t2)%Z) ∧
  code failure_response = 500%Z.
Proof.
  intros Howner Hupload Hterm Hp t1 t2 Ht1 Ht2. split; [|done].
  unfold get_status. rewrite bool_decide_true by done.
  rewrite Hupload, Hterm. cbn [pollForChanges]. fold t1.
  rewrite (proj2 (Z.ltb_lt _ _)) by lia.
  rewrite Ht1. fold t2. unfold final_status. by rewrite Ht2.
Qed.

Lemma completed_response_reports (row : upload_row) :
  terminal (status row) = true → reports (completed_response uploadId row) row.
Proof. intros Hterm. unfold reports. cbn. by rewrite Hterm. Qed.

Lemma progress_response_reports (row : upload_row) :
  terminal (status row) = false → reports (progress_response uploadId row) row.
Proof. intros Hterm. unfold reports. cbn. by rewrite Hterm. Qed.

Lemma timeout_response_reports (row : upload_row) :
  reports (timeout_response uploadId row) row.
Proof. done. Qed.

Lemma final_status_reports (t : Z) :
  (final_status store latency uploadId t).1 = failure_response ∨
  ∃ row tq, store tq = Some row ∧
            reports (final_status store latency uploadId t).1 row.
Proof.
  unfold final_status. destruct (store t) as [final|] eqn:Hfinal.
  - right. exists final, t. split; [done|]. apply timeout_response_reports.
  - by left.
Qed.

Lemma pollForChanges_reports (fuel : nat) (upload : upload_row)
    (startTime timeout : Z) :
  ∀ t r tr,
    pollForChanges store latency uploadId fuel upload startTime timeout t
    = Some (r, tr) →
    r = failure_response ∨ ∃ row tq, store tq = Some row ∧ reports r row.
Proof.
  induction fuel as [|fuel IH]; intros t r tr; cbn [pollForChanges].
  - destruct (t - startTime <? timeout)%Z; [done|].
    intros [= Hr]. pose proof (final_status_reports t) as Hf.
    destruct (final_status store latency uploadId t) as [r' tr'].
    cbn [fst] in Hf. injection Hr as <- <-. exact Hf.
  - destruct (t - startTime <? timeout)%Z.
    + destruct (store t) as [current|] eqn:Hcur.
      * destruct (terminal (status current)) eqn:Hterm.
        -- intros [= <- <-]. right. exists current, t.
           split; [done|]. by apply completed_response_reports.
        -- destruct (5 <=? _)%Z.
           ++ intros [= <- <-]. right. exists current, t.
              split; [done|]. by apply progress_response_reports.
           ++ apply IH.
      * intros [= Hr].
        pose proof (final_status_reports (t + latency t)%Z) as Hf.
        destruct (final_status store latency uploadId (t + latency t)%Z)
          as [r' tr'].
        cbn [fst] in Hf. injection Hr as <- <-. exact Hf.
    + intros [= Hr]. pose proof (final_status_reports t) as Hf.
      destruct (final_status store latency uploadId t) as [r' tr'].
      cbn [fst] in Hf. injection Hr as <- <-. exact Hf.
Qed.

(** X24. The [completed] flag tells the truth.  Every 200 answer of the
    status route, whether sent at once, on a change or on timeout,
    reports the status and progress of a row that was read from the
    store, and its [completed] field is true exactly when that status is
    completed or failed. *)
Theorem completed_flag_matches_status (fuel : nat) (userId : Z)
    (parsed : option Z) (t0 : Z) (r : response) (tr : Z) :
  get_status store owner latency uploadId fuel userId parsed t0
  = Some (r, tr) →
  code r = 200%Z →
  ∃ row tq,
    store tq = Some row ∧
    prop "status" (body r) = Some (Str (status row)) ∧
    prop "progress" (body r) = Some (int (progress row)) ∧
    prop "completed" (body r)
    = Some (Bool (bool_decide (status row = "completed"
                               ∨ status row = "failed"))).
Proof.
  assert (Hterm : ∀ row, terminal (status row)
                         = bool_decide (status row = "completed"
                                        ∨ status row = "failed")).
  { intros row. unfold terminal. apply bool_decide_ext.
    rewrite !elem_of_cons, elem_of_nil. tauto. }
  unfold get_status.
  destruct (if bool_decide (owner = userId) then store t0 else None)
    as [upload|] eqn:Hcheck.
  2:{ by intros [= <- <-]. }
  assert (Hstore : store t0 = Some upload).
  { by case_bool_decide. }
  destruct (terminal (status upload)) eqn:Hup.
  - intros [= <- <-] _. exists upload, t0. split; [done|].
    destruct (completed_response_reports upload Hup) as (_ & ? & ? & ?).
    by rewrite <- Hterm.
  - intros Hpoll H200.
    apply pollForChanges_reports in Hpoll
      as [->|(row & tq & Hrow & _ & ? & ? & ?)]; [done|].
    exists row, tq. by rewrite <- Hterm.
Qed.

End WithStore.

Lemma negative_timeout_answers_at_once_witness :
  let row := {| status := "processing"; progress := 30;
                error_message := Str "Resizing image...";
                updated_at := "2024-05-01T12:00:02.000Z" |} in
  get_status (λ _, Some row) 5 (λ _, 7%Z) "u1" 0 5 (Some (-5)%Z) 0
  = Some (timeout_response "u1" row, 14%Z).
Proof.
  intros row.
  apply (negative_timeout_answers_at_once (λ _, Some row) 5 (λ _, 7%Z) "u1"
           0 5 (-5) 0 row row).
  - lia.
  - reflexivity.
  - reflexivity.
  - reflexivity.
  - reflexivity.
Defined.

Lemma deleted_upload_ends_in_500_witness :
  let row := {| status := "processing"; progress := 30;
                error_message := Str "Resizing image...";
                updated_at := "2024-05-01T12:00:02.000Z" |} in
  let store := λ t : Z, if (t <? 5)%Z then Some row else None in
  get_status store 5 (λ _, 7%Z) "u1" 1 5 None 0
  = Some (failure_response, 21%Z).
Proof.
  intros row store.
  apply (deleted_upload_ends_in_500 store 5 (λ _, 7%Z) "u1" 0 5 0 None row).
  - reflexivity.
  - reflexivity.
  - reflexivity.
  - reflexivity.
  - reflexivity.
  - reflexivity.
Defined.

Lemma completed_flag_matches_status_witness :
  let row := {| status := "failed"; progress := 0;
                error_message := Str "Input buffer contains unsupported image format";
                updated_at := "2024-05-01T12:00:02.000Z" |} in
  ∃ r tr row' tq,
    get_status (λ _, Some row) 5 (λ _, 7%Z) "u1" 0 5 None 0 = Some (r, tr) ∧
    (λ _ : Z, Some row) tq = Some row' ∧
    prop "completed" (body r) = Some (Bool true).
Proof.
  intros row.
  destruct (completed_flag_matches_status (λ _, Some row) 5 (λ _, 7%Z) "u1"
              0 5 None 0 (completed_response "u1" row) 7)
    as (row' & tq & Hrow & _ & _ & Hflag).
  - reflexivity.
  - reflexivity.
  - exists (completed_response "u1" row), 7%Z, row', tq.
    split; [reflexivity|]. split; [exact Hrow|].
    injection Hrow as <-. exact Hflag.
Defined.

(** *** The processing pipeline *)

(** X25. Processing always ends in a final status.  Whatever step of
    the pipeline throws, the status calls are a run of "processing"
    calls followed by exactly one last call, which is final: completed
    at 100 when no step threw, and otherwise failed at 0 with the message
    of the first step that threw (null when that message is
    undefined). *)
Theorem processing_ends_terminal
    (mkdir sharp writeFile update_menu_item : outcome) :
  let calls := processImageAsync mkdir sharp writeFile update_menu_item in
  ∃ before last,
    calls = before ++ [last] ∧
    Forall (λ c, c_status c = "processing") before ∧
    terminal (c_status last) = true ∧
    last = match first_throw [mkdir; sharp; writeFile; update_menu_item] with
           | None => status_call "completed" 100
                       (Str "Image processing completed")
           | Some message => status_call "failed" 0 message
           end.
Proof.
  cbn zeta. unfold processImageAsync.
  destruct mkdir as [|m1].
  2:{ exists [status_call "processing" 10 Undefined], (status_call "failed" 0 m1).
      split; [done|]. split; [by repeat constructor|]. done. }
  destruct sharp as [|m2].
  2:{ exists [status_call "processing" 10 Undefined;
              status_call "processing" 30 (Str "Resizing image...")],
             (status_call "failed" 0 m2).
      split; [done|]. split; [by repeat constructor|]. done. }
  destruct writeFile as [|m3].
  2:{ exists [status_call "processing" 10 Undefined;
              status_call "processing" 30 (Str "Resizing image...");
              status_call "processing" 60 (Str "Optimizing image...")],
             (status_call "failed" 0 m3).
      split; [done|]. split; [by repeat constructor|]. done. }
  destruct update_menu_item as [|m4].
  2:{ exists [status_call "processing" 10 Undefined;
              status_call "processing" 30 (Str "Resizing image...");
              status_call "processing" 60 (Str "Optimizing image...");
              status_call "processing" 80 (Str "Updating database...")],
             (status_call "failed" 0 m4).
      split; [done|]. split; [by repeat constructor|]. done. }
  exists [status_call "processing" 10 Undefined;
          status_call "processing" 30 (Str "Resizing image...");
          status_call "processing" 60 (Str "Optimizing image...");
          status_call "processing" 80 (Str "Updating database...")],
         (status_call "completed" 100 (Str "Image processing completed")).
  split; [done|]. split; [by repeat constructor|]. done.
Qed.

(** Two status calls in a row differ enough to end a wait. *)
Lemma consecutive_calls_differ
    (mkdir sharp writeFile update_menu_item : outcome) (i : nat)
    (c c' : call) :
  let calls := processImageAsync mkdir sharp writeFile update_menu_item in
  calls !! i = Some c → calls !! S i = Some c' →
  terminal (c_status c') = true ∨
  (5 ≤ Z.abs (c_progress c' - c_progress c))%Z.
Proof.
  cbn zeta. unfold processImageAsync.
  assert (Hfailed : ∀ m, terminal (c_status (status_call "failed" 0 m)) = true)
    by done.
  assert (Hdone : terminal (c_status (status_call "completed" 100
                    (Str "Image processing completed"))) = true) by done.
  assert (Hlast : ∀ (k : nat) (x : call), ([] : list call) !! k = Some x → False)
    by (intros k x; by rewrite lookup_nil).
  destruct mkdir as [|m1].
  2:{ destruct i as [|[|i]]; cbn; [intros [= <-] [= <-]; by left|done..]. }
  destruct sharp as [|m2].
  2:{ destruct i as [|[|[|i]]]; cbn;
        [intros [= <-] [= <-]; right; cbn; lia
        |intros [= <-] [= <-]; by left|done..]. }
  destruct writeFile as [|m3].
  2:{ destruct i as [|[|[|[|i]]]]; cbn;
        [intros [= <-] [= <-]; right; cbn; lia
        |intros [= <-] [= <-]; right; cbn; lia
        |intros [= <-] [= <-]; by left|done..]. }
  destruct update_menu_item as [|m4].
  2:{ destruct i as [|[|[|[|[|i]]]]]; cbn;
        [intros [= <-] [= <-]; right; cbn; lia
        |intros [= <-] [= <-]; right; cbn; lia
        |intros [= <-] [= <-]; right; cbn; lia
        |intros [= <-] [= <-]; by left|done..]. }
  destruct i as [|[|[|[|[|i]]]]]; cbn;
    [intros [= <-] [= <-]; right; cbn; lia
    |intros [= <-] [= <-]; right; cbn; lia
    |intros [= <-] [= <-]; right; cbn; lia
    |intros [= <-] [= <-]; by left|done..].
Qed.

Lemma first_call_differs
    (mkdir sharp writeFile update_menu_item : outcome) (c : call) :
  processImageAsync mkdir sharp writeFile update_menu_item !! 0%nat = Some c →
  terminal (c_status c) = false ∧ c_progress c = 10%Z.
Proof. by intros [= <-]. Qed.

(** A turn of the loop that finds a final row, or a row whose progress
    moved by 5 or more, answers with that row. *)
Lemma pollForChanges_answers (store : Z → option upload_row)
    (latency : Z → Z) (uploadId : string) (fuel : nat)
    (upload current : upload_row) (startTime timeout t : Z) :
  (t - startTime < timeout)%Z →
  store t = Some current →
  terminal (status current) = true ∨
  (5 ≤ Z.abs (progress current - progress upload))%Z →
  pollForChanges store latency uploadId (S fuel) upload startTime timeout t
  = Some (if terminal (status current)
          then completed_response uploadId current
          else progress_response uploadId current, (t + latency t)%Z).
Proof.
  intros Ht Hstore Hwake. cbn [pollForChanges].
  rewrite (proj2 (Z.ltb_lt _ _) Ht), Hstore.
  destruct (terminal (status current)); [done|].
  destruct Hwake as [|Hjump]; [done|].
  by rewrite (proj2 (Z.leb_le _ _) Hjump).
Qed.

(** X26. Every status write ends a wait.  A long poll that read the row
    as one status call of the pipeline left it (or as the upload route
    inserted it), and finds at a turn of its loop the row as the next
    call updated it, answers at that turn with the new row: the steps of
    the pipeline, 0, 10, 30, 60, 80, 100, are all at least the 5 points
    the loop asks for, and the last call is final. *)
Theorem status_write_wakes_poll (store : Z → option upload_row)
    (latency : Z → Z) (uploadId : string) (fuel : nat)
    (mkdir sharp writeFile update_menu_item : outcome)
    (i : nat) (next : call) (upload : upload_row) (now now' : string)
    (cache_ok : bool) (id : value) (cached : option value)
    (startTime timeout t : Z) :
  let calls := processImageAsync mkdir sharp writeFile update_menu_item in
  calls !! i = Some next →
  match i with
  | O => upload = inserted now
  | S j => ∃ c, calls !! j = Some c ∧ upload = written now c
  end →
  (t - startTime < timeout)%Z →
  store t = (updateUploadStatus true cache_ok now' id next
               (Some upload, cached)).1 →
  pollForChanges store latency uploadId (S fuel) upload startTime timeout t
  = Some (if terminal (c_status next)
          then completed_response uploadId (written now' next)
          else progress_response uploadId (written now' next),
          (t + latency t)%Z).
Proof.
  cbn zeta. intros Hnext Hupload Ht Hstore.
  apply (pollForChanges_answers store latency uploadId fuel upload
           (written now' next) startTime timeout t Ht Hstore).
  destruct i as [|j].
  - subst upload. apply first_call_differs in Hnext as [_ Hp].
    right. cbn. rewrite Hp. lia.
  - destruct Hupload as (c & Hc & ->).
    exact (consecutive_calls_differ mkdir sharp writeFile update_menu_item
             j c next Hc Hnext).
Qed.

Lemma status_write_wakes_poll_witness :
  let next := status_call "processing" 30 (Str "Resizing image...") in
  let upload := written "2024-05-01T12:00:00.000Z"
                  (status_call "processing" 10 Undefined) in
  let row := written "2024-05-01T12:00:02.000Z" next in
  pollForChanges (λ _, Some row) (λ _, 3%Z) "u1" 1 upload 100 30000 2100
  = Some (progress_response "u1" row, 2103%Z).
Proof.
  intros next upload row.
  apply (status_write_wakes_poll (λ _, Some row) (λ _, 3%Z) "u1" 0
           Done Done Done Done 1 next upload "2024-05-01T12:00:00.000Z"
           "2024-05-01T12:00:02.000Z" true (int 1) None 100 30000 2100).
  - reflexivity.
  - exists (status_call "processing" 10 Undefined). split; reflexivity.
  - lia.
  - reflexivity.
Defined.

End LongPollFacts.

(** ** More on announcements: subscriptions and the active list *)
Section AnnouncementDeliveryFacts.
Import JS SocketIO Announcements ActiveAnnouncements.

Lemma run_snoc (evs : list event) (e : event) :
  run (evs ++ [e]) = step (run evs) e.
Proof. unfold run. by rewrite foldl_app. Qed.

(** X27. The audience tiers reach nobody.  After any sequence of
    subscribe and unsubscribe events, an announcement for customers,
    restaurants or drivers is sent to no socket at all: the subscribers
    are in the rooms announcements-customer, -restaurant, -driver and
    -support, the announcement goes to announcements-customers,
    -restaurants or -drivers. *)
Theorem tier_announcements_reach_nobody (evs : list event) (now : string)
    (a : announcement_row) :
  target_audience a ∈ ["customers"; "restaurants"; "drivers"] →
  deliver (broadcastAnnouncement now a) (server (run evs)) = server (run evs).
Proof.
  intros Haud. apply tier_announcement_reaches_nobody; [|done].
  apply run_tiers_empty.
Qed.

Lemma tier_announcements_reach_nobody_witness :
  let evs := [Subscribe 1 (Str "driver") (Str "jwt") (Some 4%Z);
              Subscribe 2 (Str "customer") (Str "jwt") (Some 5%Z);
              Unsubscribe 2;
              Subscribe 2 (Str "customer") (Str "jwt") (Some 5%Z)] in
  let a := {| id := 7; title := "Notice"; message := "Rain bonus";
              announcement_type := "promotion";
              target_audience := "drivers"; expires_at := Null |} in
  members "announcements-driver" (server (run evs)) = [1%nat] ∧
  outbox (deliver (broadcastAnnouncement "2024-05-01T12:00:00.000Z" a)
                  (server (run evs)))
  = outbox (server (run evs)).
Proof.
  intros evs a. split; [vm_compute; reflexivity|].
  rewrite (tier_announcements_reach_nobody evs "2024-05-01T12:00:00.000Z" a).
  - reflexivity.
  - right. right. left.
Defined.

Lemma members_leave (sid : nat) (room : string) (s : io value) :
  sid ∉ members room (leave sid room s).
Proof.
  unfold leave, members.
  destruct (rooms s !! room) as [ms|] eqn:Hroom.
  - case_bool_decide.
    + cbn. rewrite lookup_delete_eq. cbn. apply not_elem_of_nil.
    + cbn. rewrite lookup_insert_eq. cbn. apply set_delete_not_elem.
  - rewrite Hroom. cbn. apply not_elem_of_nil.
Qed.

Lemma subscribe_joins_all (sid : nat) (userType token : value) (uid : Z)
    (sd : socket_data) (s : io value) :
  truthy token = true → uid ≠ 0%Z →
  includes validUserTypes userType = true →
  sid ∈ members "announcements-all"
          (subscribe_announcements sid userType token (Some uid) sd s).2.
Proof.
  intros Htoken Huid Htype. unfold subscribe_announcements.
  rewrite Htoken, Htype. cbn [negb].
  rewrite (proj2 (Z.eqb_neq uid 0)) by done. cbn [snd].
  unfold members, socket_emit, join. cbn [rooms].
  rewrite lookup_insert_eq. cbn. unfold set_add.
  case_bool_decide as Hin; [done|].
  apply elem_of_app. right. left.
Qed.

Lemma unsubscribe_leaves_all (sid : nat) (sd : socket_data) (s : io value)
    (ut : string) :
  socket_userType sd = Some ut → ut ≠ "" →
  sid ∉ members "announcements-all" (unsubscribe_announcements sid sd s).
Proof.
  intros Hut Hne. unfold unsubscribe_announcements. rewrite Hut.
  rewrite (proj2 (String.eqb_neq ut "")) by done. cbn [negb].
  change (members "announcements-all"
            (socket_emit sid "unsubscribed-announcements"
               (message_body "Unsubscribed from announcements")
               (leave sid "announcements-all"
                  (leave sid ("announcements-" +:+ ut) s))))
    with (members "announcements-all"
            (leave sid "announcements-all"
               (leave sid ("announcements-" +:+ ut) s))).
  apply members_leave.
Qed.

(** X28. The subscription decides the delivery of a general
    announcement.  After any sequence of events, a socket whose
    subscribe request was just accepted is sent an announcement for all
    exactly once, however often it subscribed before; a socket that just
    unsubscribed, having subscribed at some time, is not sent it. *)
Theorem subscription_decides_delivery (evs : list event) (sid : nat)
    (now : string) (a : announcement_row) :
  target_audience a = "all" →
  let sent e :=
    let s := server (run (evs ++ [e])) in
    (copies (id a) sid (deliver (broadcastAnnouncement now a) s), copies (id a) sid s) in
  (∀ userType token uid,
     truthy token = true → uid ≠ 0%Z →
     includes validUserTypes userType = true →
     (sent (Subscribe sid userType token (Some uid))).1
     = S (sent (Subscribe sid userType token (Some uid))).2) ∧
  (∀ sd ut,
     sockets (run evs) !! sid = Some sd → socket_userType sd = Some ut →
     (sent (Unsubscribe sid)).1 = (sent (Unsubscribe sid)).2).
Proof.
  intros Haud. cbn zeta. split.
  - intros userType token uid Htoken Huid Htype. cbn [fst snd].
    rewrite (all_announcement_once now a _ sid Haud).
    rewrite bool_decide_true; [lia|].
    rewrite run_snoc. cbn [step server].
    by apply subscribe_joins_all.
  - intros sd ut Hsd Hut. cbn [fst snd].
    rewrite (all_announcement_once now a _ sid Haud).
    rewrite bool_decide_false; [lia|].
    rewrite run_snoc. cbn [step server]. rewrite Hsd. cbn [default].
    apply (unsubscribe_leaves_all sid sd _ ut Hut).
    destruct (run_tiers_empty evs) as (_ & Hvalid & _).
    intros ->. specialize (Hvalid sid sd "" Hsd Hut).
    revert Hvalid. apply (bool_decide_unpack _). vm_compute. exact I.
Qed.

Lemma subscription_decides_delivery_witness :
  let evs := [Subscribe 1 (Str "customer") (Str "jwt") (Some 4%Z);
              Subscribe 1 (Str "customer") (Str "jwt") (Some 4%Z)] in
  let a := {| id := 7; title := "Notice"; message := "Free delivery";
              announcement_type := "promotion";
              target_audience := "all"; expires_at := Null |} in
  let now := "2024-05-01T12:00:00.000Z" in
  copies 7 1 (deliver (broadcastAnnouncement now a)
                (server (run (evs ++ [Subscribe 1 (Str "customer") (Str "jwt")
                                        (Some 4%Z)]))))
  = 1%nat ∧
  copies 7 1 (deliver (broadcastAnnouncement now a)
                (server (run (evs ++ [Unsubscribe 1]))))
  = 0%nat.
Proof.
  intros evs a now.
  destruct (subscription_decides_delivery evs 1 now a eq_refl)
    as [Hsub Hunsub].
  split.
  - exact (Hsub (Str "customer") (Str "jwt") 4%Z eq_refl
             ltac:(discriminate) eq_refl).
  - exact (Hunsub {| socket_userType := Some "customer";
                     socket_userId := Some 4%Z |} "customer"
             ltac:(vm_compute; reflexivity) eq_refl).
Defined.

End AnnouncementDeliveryFacts.

(** ** The active list *)
Section ActiveListFacts.
Import JS Announcements ActiveAnnouncements.

#[local] Instance before_total : Total before.
Proof. intros a b. unfold before. lia. Qed.

Lemma elem_of_active_rows (now : Z) (userType : string) (table : list stored)
    (a : stored) :
  a ∈ active_rows now userType table ↔
  a ∈ table ∧ selected now userType a = true.
Proof.
  unfold active_rows. rewrite merge_sort_Permutation, list_elem_of_filter.
  tauto.
Qed.

Lemma tier_never_selected (now : Z) (userType : string) (a : stored) :
  userType ∈ user_types → sa_audience a ∈ audiences →
  selected now userType a = true → sa_audience a = "all".
Proof.
  intros Hut Haud. unfold selected.
  rewrite !andb_true_iff, orb_true_iff, !String.eqb_eq.
  intros [[[_ [?|Heq]] _] _]; [done|]. exfalso.
  rewrite Heq in Haud. revert Haud Hut. clear.
  unfold audiences, user_types. rewrite !elem_of_cons, !elem_of_nil.
  intros [->|[->|[->|[->|[]]]]] [?|[?|[?|[?|[]]]]]; discriminate.
Qed.

(** X29. The active list shows general announcements only.  For a user
    of any of the four user types, and a table whose audiences are the
    four the schema allows, [GET /active] lists exactly the active rows
    for audience "all" that have started and not expired: a row for
    customers, restaurants or drivers is listed for nobody, since the
    route compares the audience with the user type (customer,
    restaurant, driver).  The list is in the order of the query, urgent
    first, and [count] is its length. *)
Theorem active_list_shows_general_only (toISOString : Z → string) (now : Z)
    (userType : string) (table : list stored) :
  userType ∈ user_types →
  (∀ a, a ∈ table → sa_audience a ∈ audiences) →
  ∃ rows,
    body (get_active toISOString now userType table)
    = Obj [("announcements", Arr (listed toISOString <$> rows));
           ("count", int (Z.of_nat (length rows)));
           ("userType", Str userType);
           ("websocket",
            Obj [("instruction",
                  Str "Connect to WebSocket to receive real-time announcements");
                 ("channel", Str ("announcements-" +:+ userType))])] ∧
    (∀ a, a ∈ rows ↔
          a ∈ table ∧ sa_active a = true ∧ sa_audience a = "all" ∧
          (∀ t, sa_scheduled_at a = Some t → (t ≤ now)%Z) ∧
          (∀ t, sa_expires_at a = Some t → (now < t)%Z)) ∧
    Sorted before rows.
Proof.
  intros Hut Haud. exists (active_rows now userType table).
  split; [|split].
  - unfold get_active. cbn. by rewrite length_fmap.
  - intros a. rewrite elem_of_active_rows. split.
    + intros [Ha Hsel]. split; [done|].
      pose proof (tier_never_selected now userType a Hut (Haud a Ha) Hsel)
        as Hall.
      unfold selected in Hsel.
      apply andb_true_iff in Hsel as [[[Hact _]%andb_true_iff Hsch]%andb_true_iff Hexp].
      split; [done|]. split; [done|]. split.
      * intros t Ht. rewrite Ht in Hsch. by apply Z.leb_le.
      * intros t Ht. rewrite Ht in Hexp. by apply Z.ltb_lt.
    + intros (Ha & Hact & Hall & Hsch & Hexp). split; [done|].
      unfold selected. rewrite Hact, Hall. cbn.
      apply andb_true_iff. split.
      * destruct (sa_scheduled_at a) as [t|]; [|done].
        apply Z.leb_le. by apply Hsch.
      * destruct (sa_expires_at a) as [t|]; [|done].
        apply Z.ltb_lt. by apply Hexp.
  - apply Sorted_merge_sort. apply _.
Qed.

Lemma active_list_shows_general_only_witness :
  let general := {| sa_id := 1; sa_title := "Notice"; sa_message := "Hello";
                    sa_type := "general"; sa_audience := "all";
                    sa_active := true; sa_scheduled_at := None;
                    sa_expires_at := None; sa_created_at := 100 |} in
  let tier := {| sa_id := 2; sa_title := "Offer"; sa_message := "Free delivery";
                 sa_type := "urgent"; sa_audience := "customers";
                 sa_active := true; sa_scheduled_at := None;
                 sa_expires_at := None; sa_created_at := 200 |} in
  ∃ rows,
    body (get_active (λ _, "1970-01-01T00:00:00.100Z") 1000 "customer"
            [general; tier])
    = Obj [("announcements",
            Arr (listed (λ _, "1970-01-01T00:00:00.100Z") <$> rows));
           ("count", int (Z.of_nat (length rows)));
           ("userType", Str "customer");
           ("websocket",
            Obj [("instruction",
                  Str "Connect to WebSocket to receive real-time announcements");
                 ("channel", Str "announcements-customer")])] ∧
    tier ∉ rows.
Proof.
  intros general tier.
  destruct (active_list_shows_general_only (λ _, "1970-01-01T00:00:00.100Z")
              1000 "customer" [general; tier])
    as (rows & Hbody & Hrows & _).
  - left.
  - intros a [->|[->|[]%elem_of_nil]%elem_of_cons]%elem_of_cons.
    + left.
    + right. left.
  - exists rows. split; [exact Hbody|].
    intros (_ & _ & Hall & _)%Hrows. discriminate Hall.
Defined.

(** X30. A deleted announcement leaves the active list.  [DELETE]
    answers 500 when the database is down or the id of the URL denotes
    no integer of the column, 404 when it denotes one that no row has,
    and changes nothing in either case; otherwise it answers 200 and
    from then on no row with that id is in anybody's active list at any
    time, while the rows with another id are listed as before. *)
Theorem deleted_announcement_not_listed (int4_in : string → option Z)
    (store_up : bool) (id : string) (table : list stored) :
  let res := delete_announcement int4_in store_up id table in
  (code res.1 = 500%Z ↔ store_up = false ∨ int4_in id = None) ∧
  (code res.1 = 404%Z ↔
     store_up = true ∧
     ∃ aid, int4_in id = Some aid ∧ ¬ ∃ a, a ∈ table ∧ sa_id a = aid) ∧
  (code res.1 = 200%Z ∨ code res.1 = 404%Z ∨ code res.1 = 500%Z) ∧
  (code res.1 ≠ 200%Z → res.2 = table) ∧
  (code res.1 = 200%Z →
   ∃ aid, int4_in id = Some aid ∧
     (∃ a, a ∈ table ∧ sa_id a = aid) ∧
     ∀ now userType a,
       a ∈ active_rows now userType res.2 ↔
       a ∈ active_rows now userType table ∧ sa_id a ≠ aid).
Proof.
  cbn zeta. unfold delete_announcement.
  destruct store_up.
  2:{ split; [split; [by left|done]|]. split; [split; [done|by intros [? _]]|].
      split; [by right; right|]. done. }
  destruct (int4_in id) as [aid|].
  2:{ split; [split; [by right|done]|].
      split; [split; [done|by intros (_ & ? & ? & _)]|].
      split; [by right; right|]. done. }
  destruct (filter (λ a, sa_id a = aid) table) as [|x rows] eqn:Hf.
  - assert (Hnone : ¬ ∃ a, a ∈ table ∧ sa_id a = aid).
    { intros (a & Ha & Hid).
      by apply (filter_nil_not_elem_of _ _ a Hf). }
    split; [split; [done|by intros [?|?]]|].
    split; [split; [intros _; split; [done|by exists aid]|done]|].
    split; [by right; left|]. done.
  - assert (Hx : x ∈ filter (λ a, sa_id a = aid) table) by (rewrite Hf; left).
    apply list_elem_of_filter in Hx as [Hid Hx].
    split; [split; [done|by intros [?|?]]|].
    split.
    { split; [done|]. intros (_ & aid' & [= <-] & Hnone). exfalso.
      apply Hnone. by exists x. }
    split; [by left|]. split; [done|]. intros _.
    exists aid. split; [done|]. split; [by exists x|].
    intros now userType a. cbn [snd].
    rewrite !elem_of_active_rows, list_elem_of_fmap. split.
    + intros [(a0 & -> & Ha0) Hsel]. case_bool_decide as Hid0.
      * by cbn in Hsel.
      * done.
    + intros [[Ha Hsel] Hne]. split; [|done]. exists a.
      by rewrite bool_decide_false.
Qed.

End ActiveListFacts.
